(** * pyBiodatafuse: the graph generator ([pyBiodatafuse/graph/generator.py])

    A shallow embedding of the module that turns the annotated gene table
    into a NetworkX [MultiDiGraph], and the properties of it that the
    specification states.

    Layout
    - [Py]        : the Python values the module handles and its exceptions;
    - [Nx]        : the part of [networkx.MultiDiGraph] the module calls;
    - [Pd]        : the part of [pandas] the module calls;
    - [Generator] : the functions of [generator.py], in source order;
    - [Samples]   : small tables to run the module on;
    - [Props]     : the vocabulary of the statements;
    - the lemmas and theorems, grouped by the property they settle, and
      the module run on the sample tables. *)

From Stdlib Require Import ZArith String Ascii.
From stdpp Require Import base tactics option list countable strings gmap fin_maps.

Local Open Scope string_scope.
Local Open Scope list_scope.

(* ===================================================================== *)
(** * Python values and exceptions *)
(* ===================================================================== *)

Module Py.

(** The exceptions the module can let escape. [NameError] stands for
    [UnboundLocalError] as well, which is a subclass of it. The payload of
    [KeyError] is the text of the missing key. *)
Inductive exn :=
  | KeyError (k : string)
  | TypeError
  | ValueError
  | AttributeError
  | NameError.

(** The outcome of a Python call: a value, or an exception that unwinds
    the call. *)
Inductive result (A : Type) :=
  | Ok (a : A)
  | Err (e : exn).
Arguments Ok {A} a.
Arguments Err {A} e.

Definition bind {A B} (m : result A) (f : A -> result B) : result B :=
  match m with
  | Ok a => f a
  | Err e => Err e
  end.

#[global] Instance result_ret : MRet result := fun _ a => Ok a.
#[global] Instance result_bind : MBind result := fun _ _ f m => bind m f.
#[global] Instance result_fmap : FMap result :=
  fun _ _ f m => bind m (fun a => Ok (f a)).

(** [for x in xs: acc = f(acc, x)], stopping at the first exception. *)
Fixpoint foldM {A B} (f : A -> B -> result A) (a : A) (xs : list B) : result A :=
  match xs with
  | [] => Ok a
  | x :: xs' => a' ← f a x; foldM f a' xs'
  end.

(** Hashable scalars: what a JSON leaf, a DataFrame cell of scalar type, a
    node label or a dictionary key can be. A finite float is kept as the
    pair (mantissa, exponent); the module never computes with one. All
    [NaN]s the module meets are the one object [json] and [pandas] hand out,
    so they are equal as keys. Keys and labels are compared as they are
    written: [1], [1.0] and [True], which Python takes for one key, are
    three here. *)
Inductive scalar :=
  | SNone
  | SNaN
  | SBool (b : bool)
  | SInt (z : Z)
  | SFloat (m e : Z)
  | SStr (s : string).

#[global] Instance scalar_eq_dec : EqDecision scalar.
Proof. solve_decision. Defined.

Definition scalar_to_sum (s : scalar) : unit + (unit + (bool + (Z + (Z * Z + string)))) :=
  match s with
  | SNone => inl ()
  | SNaN => inr (inl ())
  | SBool b => inr (inr (inl b))
  | SInt z => inr (inr (inr (inl z)))
  | SFloat m e => inr (inr (inr (inr (inl (m, e)))))
  | SStr s => inr (inr (inr (inr (inr s))))
  end.

Definition scalar_of_sum (x : unit + (unit + (bool + (Z + (Z * Z + string))))) : scalar :=
  match x with
  | inl _ => SNone
  | inr (inl _) => SNaN
  | inr (inr (inl b)) => SBool b
  | inr (inr (inr (inl z))) => SInt z
  | inr (inr (inr (inr (inl (m, e))))) => SFloat m e
  | inr (inr (inr (inr (inr s)))) => SStr s
  end.

#[global] Instance scalar_countable : Countable scalar.
Proof.
  apply (inj_countable' scalar_to_sum scalar_of_sum).
  by intros [].
Defined.

Coercion SStr : string >-> scalar.

(** An annotation record: a flat JSON object. *)
Abbreviation record := (gmap string scalar).

(** What a DataFrame cell, or an attribute, can hold: a scalar, a list of
    annotation records, or a single JSON object. *)
Inductive value :=
  | VScalar (s : scalar)
  | VList (l : list record)
  | VDict (d : record).

#[global] Instance value_eq_dec : EqDecision value.
Proof. solve_decision. Defined.

Coercion VScalar : scalar >-> value.

Definition value_to_sum (v : value) : scalar + (list record + record) :=
  match v with
  | VScalar s => inl s
  | VList l => inr (inl l)
  | VDict d => inr (inr d)
  end.

Definition value_of_sum (x : scalar + (list record + record)) : value :=
  match x with
  | inl s => VScalar s
  | inr (inl l) => VList l
  | inr (inr d) => VDict d
  end.

#[global] Instance value_countable : Countable value.
Proof.
  apply (inj_countable' value_to_sum value_of_sum).
  by intros [].
Defined.

(** An attribute dictionary ([dg_node_attrs], [edge_attrs], ...). *)
Abbreviation attrs := (gmap scalar value).

(** What a node or edge data dictionary of the graph maps a key to: a
    plain value, or (under ["attr_dict"]) an attribute dictionary. *)
Inductive obj :=
  | OVal (v : value)
  | ODict (d : attrs).

#[global] Instance obj_eq_dec : EqDecision obj.
Proof. solve_decision. Defined.

Abbreviation dict := (gmap scalar obj).

(** [v is None] *)
Definition is_None (v : value) : bool :=
  match v with
  | VScalar SNone => true
  | _ => false
  end.

(** [r[k]] on a record. *)
Definition getitem (r : record) (k : string) : result scalar :=
  match r !! k with
  | Some v => Ok v
  | None => Err (KeyError k)
  end.

(** [d[k] = v] on an attribute dictionary. *)
Definition setitem (d : attrs) (k : scalar) (v : value) : attrs := <[k := v]> d.

(** A dictionary display [{k1: v1, ..., kn: vn}]: later entries win. *)
Definition mk_attrs (l : list (scalar * value)) : attrs :=
  foldl (fun d kv => setitem d kv.1 kv.2) ∅ l.

(** [str.endswith] and the slice [c[:-n]]. *)
Definition endswith (s suffix : string) : bool :=
  let n := String.length s in
  let m := String.length suffix in
  Nat.leb m n && String.eqb (String.substring (n - m) m s) suffix.

Definition drop_last (n : nat) (s : string) : string :=
  String.substring 0 (String.length s - n) s.

(** [json.loads(json.dumps(v))]: on the values above the round trip gives
    the value back ([NaN] is written and read back as [NaN]). *)
Definition json_roundtrip (v : value) : value := v.

End Py.

Export Py.

(* ===================================================================== *)
(** * The part of [networkx.MultiDiGraph] the module calls *)
(* ===================================================================== *)

Module Nx.

(** [g_node] is [G._node]: node label to node data dictionary, in
    insertion order (the order [G.nodes()] iterates in). [g_adj] is
    [G._adj]: the parallel edges from [u] to [v]; edges are never removed,
    so the keys of the parallel edges are [0 .. n-1] and the list position
    is the key. A pair with no edge has no entry. *)
Record Graph := mkGraph {
  g_node : list (scalar * dict);
  g_adj : gmap (scalar * scalar) (list dict)
}.

(** [nx.MultiDiGraph()] *)
Definition empty_graph : Graph := mkGraph [] ∅.

(** [G.nodes[n]] *)
Fixpoint node_data (l : list (scalar * dict)) (n : scalar) : option dict :=
  match l with
  | [] => None
  | (m, d) :: l' => if decide (m = n) then Some d else node_data l' n
  end.

(** [G._node[n] = f(G._node.get(n, {}))]: in place when [n] is a node,
    appended otherwise. *)
Fixpoint upsert (n : scalar) (f : dict -> dict) (l : list (scalar * dict))
  : list (scalar * dict) :=
  match l with
  | [] => [(n, f ∅)]
  | (m, d) :: l' =>
      if decide (m = n) then (m, f d) :: l' else (m, d) :: upsert n f l'
  end.

(** The node-creating prelude of [add_node] and [add_edge]: a label that is
    not yet a node is given an empty data dictionary; [None] is refused. *)
Definition touch_node (n : scalar) (f : dict -> dict) (l : list (scalar * dict))
  : result (list (scalar * dict)) :=
  match node_data l n with
  | Some _ => Ok (upsert n f l)
  | None => if decide (n = SNone) then Err ValueError else Ok (upsert n f l)
  end.

(** [G.add_node(n, attr_dict=a)]: the keyword becomes the entry
    ["attr_dict"] of the node's data dictionary, replacing what was there. *)
Definition add_node (g : Graph) (n : scalar) (a : attrs) : result Graph :=
  nodes ← touch_node n (fun d => <[SStr "attr_dict" := ODict a]> d) (g_node g);
  Ok (mkGraph nodes (g_adj g)).

(** [G.get_edge_data(u, v)]: the parallel edges from [u] to [v], or
    [None]. *)
Definition get_edge_data (g : Graph) (u v : scalar) : option (list dict) :=
  g_adj g !! (u, v).

(** [G.has_edge(u, v)] *)
Definition has_edge (g : Graph) (u v : scalar) : bool :=
  bool_decide (is_Some (g_adj g !! (u, v))).

(** [G.add_edge(u, v, **data)] with no key given: both endpoints become
    nodes if they are not, and a new parallel edge is appended. *)
Definition add_edge (g : Graph) (u v : scalar) (data : dict) : result Graph :=
  nodes ← touch_node u (fun d => d) (g_node g);
  nodes ← touch_node v (fun d => d) nodes;
  Ok (mkGraph nodes
        (<[(u, v) := default [] (g_adj g !! (u, v)) ++ [data]]> (g_adj g))).

(** The keyword arguments [label=l, attr_dict=a] as a data dictionary. *)
Definition edge_kwargs (l : value) (a : attrs) : dict :=
  <[SStr "attr_dict" := ODict a]> (<[SStr "label" := OVal l]> ∅).

(** [o.items()]: an attribute dictionary or a JSON object has items, any
    other value raises [AttributeError]. *)
Definition items (o : obj) : result attrs :=
  match o with
  | ODict a => Ok a
  | OVal (VDict r) => Ok (kmap SStr (VScalar <$> r))
  | OVal _ => Err AttributeError
  end.

(** [o[k]] for a string [k]: a mapping is looked up, any other value
    raises [TypeError]. *)
Definition subscript (o : obj) (k : string) : result value :=
  match o with
  | ODict a =>
      match a !! SStr k with
      | Some v => Ok v
      | None => Err (KeyError k)
      end
  | OVal (VDict r) => VScalar <$> getitem r k
  | OVal _ => Err TypeError
  end.

(** [d[k]] on a node or edge data dictionary. *)
Definition data_getitem (d : dict) (k : string) : result obj :=
  match d !! SStr k with
  | Some o => Ok o
  | None => Err (KeyError k)
  end.

End Nx.

Export Nx.

(* ===================================================================== *)
(** * The part of [pandas] the module calls *)
(* ===================================================================== *)

Module Pd.

(** A row as [iterrows] yields it: a Series indexed by the column names. *)
Abbreviation Row := (gmap string value).

Record DataFrame := mkDataFrame {
  columns : list string;
  rows : list Row
}.

(** [pd.isna(x)] on a scalar. *)
Definition isna (s : scalar) : bool :=
  match s with
  | SNone | SNaN => true
  | _ => false
  end.

(** [row[c]] *)
Definition row_getitem (row : Row) (c : string) : result value :=
  match row !! c with
  | Some v => Ok v
  | None => Err (KeyError c)
  end.

(** [c in row]: membership in the index of the Series. *)
Definition row_contains (row : Row) (c : string) : bool :=
  bool_decide (is_Some (row !! c)).

(** The reindexing [pd.concat] does: a column the row lacks is filled with
    [NaN]. *)
Definition reindex (cols : list string) (row : Row) : Row :=
  foldr (fun c r => if row_contains r c then r else <[c := VScalar SNaN]> r) row cols.

(** [df[sel]]: the columns [sel] only; [KeyError] when one of them is not a
    column of [df] (reported with the first one missing). *)
Definition select (df : DataFrame) (sel : list string) : result DataFrame :=
  match List.filter (fun c => negb (bool_decide (c ∈ columns df))) sel with
  | c :: _ => Err (KeyError c)
  | [] =>
      Ok (mkDataFrame sel
            ((fun row : Row => filter (fun kv => kv.1 ∈ sel) row) <$> rows df))
  end.

(** [pd.concat([a, b], ignore_index=True)]: the union of the columns, the
    rows of [a] followed by the rows of [b]. *)
Definition concat (a b : DataFrame) : DataFrame :=
  let cols :=
    columns a ++ List.filter (fun c => negb (bool_decide (c ∈ columns a))) (columns b) in
  mkDataFrame cols ((reindex cols <$> rows a) ++ (reindex cols <$> rows b)).

End Pd.

Export Pd.

(* ===================================================================== *)
(** * [generator.py] *)
(* ===================================================================== *)

Module Generator.

(** ** Reading a record into a dictionary display *)

(** The right-hand side of one entry of a dictionary display built from an
    annotation record [r]. *)
Inductive entry :=
  | Const (v : scalar)                  (* a literal *)
  | Field (f : string)                  (* [r[f]] *)
  | FieldOr (f : string) (d : scalar).  (* [r[f] if not pd.isna(r[f]) else d] *)

Definition eval_entry (r : record) (e : entry) : result value :=
  match e with
  | Const v => Ok (VScalar v)
  | Field f => VScalar <$> getitem r f
  | FieldOr f d =>
      c ← getitem r f;
      if negb (isna c) then VScalar <$> getitem r f else Ok (VScalar d)
  end.

(** The entries are evaluated left to right; a later entry for the same key
    wins. *)
Fixpoint display_from (acc : attrs) (r : record) (l : list (string * entry))
  : result attrs :=
  match l with
  | [] => Ok acc
  | (k, e) :: l' => v ← eval_entry r e; display_from (setitem acc (SStr k) v) r l'
  end.

Definition display (r : record) (l : list (string * entry)) : result attrs :=
  display_from ∅ r l.

(** [if not pd.isna(r[c]): a[k] = r[f]] *)
Definition set_if_notna (r : record) (a : attrs) (c k f : string) : result attrs :=
  x ← getitem r c;
  if negb (isna x) then v ← getitem r f; Ok (setitem a (SStr k) (VScalar v))
  else Ok a.

(** [[x for x in xs if p(x)]] where [p] may raise. *)
Fixpoint filterM {A} (p : A -> result bool) (xs : list A) : result (list A) :=
  match xs with
  | [] => Ok []
  | x :: xs' =>
      b ← p x;
      ys ← filterM p xs';
      Ok (if b : bool then x :: ys else ys)
  end.

(** [[f(x) for x in xs]] where [f] may raise. *)
Fixpoint traverse {A B} (f : A -> result B) (xs : list A) : result (list B) :=
  match xs with
  | [] => Ok []
  | x :: xs' => y ← f x; ys ← traverse f xs'; Ok (y :: ys)
  end.

(** The use of a value as a dictionary key or a node label: a list or a
    dictionary is unhashable. *)
Definition hashable (v : value) : result scalar :=
  match v with
  | VScalar s => Ok s
  | _ => Err TypeError
  end.

(** What [for x in v] hands to a loop body that starts by subscripting [x]
    with a field name: the records of a list; nothing for an empty string
    or an empty object; for a non-empty string or object the items are
    strings and the subscript raises [TypeError]; any other scalar is not
    iterable. *)
Definition records_of_iterable (v : value) : result (list record) :=
  match v with
  | VList l => Ok l
  | VDict d => if decide (d = ∅) then Ok [] else Err TypeError
  | VScalar (SStr s) => if decide (s = "") then Ok [] else Err TypeError
  | VScalar _ => Err TypeError
  end.

(** [type(v) == float] *)
Definition is_float (v : value) : bool :=
  match v with
  | VScalar SNaN | VScalar (SFloat _ _) => true
  | _ => false
  end.

(** Reading a local variable that a loop may not have bound. *)
Definition read_local {A} (x : option A) : result A :=
  match x with
  | Some a => Ok a
  | None => Err NameError
  end.

Section WithHash.

(** [hash(frozenset(edge_attrs.items()))], the builtin hash of the set of
    items of an attribute dictionary. *)
Context (hash : attrs -> Z).

(** [y["attr_dict"]["edge_hash"] == edge_hash], the condition of the
    comprehension that looks for an edge with the same identity. *)
Definition carries_hash (edge_hash : Z) (y : dict) : result bool :=
  a ← data_getitem y "attr_dict";
  h ← subscript a "edge_hash";
  Ok (bool_decide (h = VScalar (SInt edge_hash))).

(** The block every hashing builder ends a record with:
<<
    edge_hash = hash(frozenset(edge_attrs.items()))
    edge_attrs["edge_hash"] = edge_hash
    edge_data = g.get_edge_data(u, v)
    edge_data = {} if edge_data is None else edge_data
    node_exists = [x for x, y in edge_data.items()
                   if y["attr_dict"]["edge_hash"] == edge_hash]
    if len(node_exists) == 0:
        g.add_edge(u, v, label=label, attr_dict=edge_attrs)
>> *)
Definition add_edge_once (g : Graph) (u v : scalar) (label : value)
    (edge_attrs : attrs) : result Graph :=
  let edge_hash := hash edge_attrs in
  let edge_attrs := setitem edge_attrs (SStr "edge_hash") (VScalar (SInt edge_hash)) in
  let edge_data := default [] (get_edge_data g u v) in
  node_exists ← filterM (carries_hash edge_hash) edge_data;
  if decide (length node_exists = 0)
  then add_edge g u v (edge_kwargs label edge_attrs)
  else Ok g.

Definition add_disgenet_disease_subgraph (g : Graph) (gene_node_label : scalar)
    (annot_list : list record) : result Graph :=
  foldM (fun g dg =>
    disease_name ← getitem dg "disease_name";
    if negb (isna disease_name) then
      dg_node_label ← getitem dg "disease_name";
      dg_node_attrs ← display dg [
        ("source", Const "DisGeNET");
        ("name", Field "disease_name");
        ("id", Field "diseaseid");
        ("labels", Const "Disease");
        ("disease_id", Field "diseaseid");
        ("disease_class", Field "disease_class");
        ("disease_class_name", Field "disease_class_name");
        ("disease_type", Field "disease_type");
        ("disease_semantic_type", Field "disease_semantic_type")];
      g ← add_node g dg_node_label dg_node_attrs;
      edge_attrs ← display dg [
        ("source", Const "DisGeNET");
        ("label", Const "associated_with");
        ("score", Field "score");
        ("year_initial", FieldOr "year_initial" "");
        ("year_final", FieldOr "year_final" "");
        ("ei", FieldOr "ei" "");
        ("el", FieldOr "el" "")];
      add_edge_once g gene_node_label dg_node_label
        (VScalar "associated_with") edge_attrs
    else Ok g) g annot_list.

Definition add_opentargets_location_subgraph (g : Graph) (gene_node_label : scalar)
    (annot_list : list record) : result Graph :=
  foldM (fun g loc =>
    location ← getitem loc "location";
    guard ← (if negb (isna location)
             then subcellular_loc ← getitem loc "subcellular_loc";
                  Ok (negb (isna subcellular_loc))
             else Ok false);
    if guard : bool then
      loc_node_label ← getitem loc "location";
      loc_node_attrs ← display loc [
        ("source", Const "OpenTargets");
        ("name", Field "location");
        ("id", Field "loc_identifier");
        ("labels", Const "Location");
        ("subcellular_loc", Field "subcellular_loc")];
      g ← add_node g loc_node_label loc_node_attrs;
      edge_attrs ← display loc [
        ("source", Const "OpenTargets");
        ("label", Const "localized_in")];
      add_edge_once g gene_node_label loc_node_label
        (VScalar "localized_in") edge_attrs
    else Ok g) g annot_list.

Definition add_opentargets_go_subgraph (g : Graph) (gene_node_label : scalar)
    (annot_list : list record) : result Graph :=
  foldM (fun g go =>
    go_node_label ← getitem go "go_name";
    go_node_attrs ← display go [
      ("source", Const "OpenTargets");
      ("name", Field "go_name");
      ("id", Field "go_id");
      ("labels", Const "GO")];
    g ← add_node g go_node_label go_node_attrs;
    edge_attrs ← display go [
      ("source", Const "OpenTargets");
      ("label", Const "part_of_go")];
    add_edge_once g gene_node_label go_node_label
      (VScalar "part_of_go") edge_attrs) g annot_list.

Definition add_opentargets_pathway_subgraph (g : Graph) (gene_node_label : scalar)
    (annot_list : list record) : result Graph :=
  foldM (fun g pathway =>
    pathway_id ← getitem pathway "pathway_id";
    if negb (isna pathway_id) then
      pathway_node_label ← getitem pathway "pathway_name";
      pathway_node_attrs ← display pathway [
        ("source", Const "OpenTargets");
        ("name", Field "pathway_name");
        ("id", Field "pathway_id");
        ("labels", Const "Pathway")];
      g ← add_node g pathway_node_label pathway_node_attrs;
      edge_attrs ← display pathway [
        ("source", Const "OpenTargets");
        ("label", Const "part_of_pathway")];
      add_edge_once g gene_node_label pathway_node_label
        (VScalar "part_of_pathway") edge_attrs
    else Ok g) g annot_list.

Definition add_opentargets_drug_subgraph (g : Graph) (gene_node_label : scalar)
    (annot_list : list record) : result Graph :=
  foldM (fun g drug =>
    relation ← getitem drug "relation";
    if negb (isna relation) then
      drug_node_label ← getitem drug "drug_name";
      drug_node_attrs ← display drug [
        ("source", Const "OpenTargets");
        ("name", Field "drug_name");
        ("id", Field "chembl_id");
        ("labels", Const "Compound");
        ("is_a_drug", Const "True")];
      g ← add_node g drug_node_label drug_node_attrs;
      edge_attrs ← display drug [
        ("source", Const "OpenTargets");
        ("label", Field "relation")];
      label ← getitem drug "relation";
      add_edge_once g drug_node_label gene_node_label (VScalar label) edge_attrs
    else Ok g) g annot_list.

Definition add_opentargets_disease_subgraph (g : Graph) (gene_node_label : scalar)
    (annot_list : list record) : result Graph :=
  foldM (fun g dg =>
    disease_name ← getitem dg "disease_name";
    if negb (isna disease_name) then
      dg_node_label ← getitem dg "disease_name";
      dg_node_attrs ← display dg [
        ("source", Const "OpenTargets");
        ("name", Field "disease_name");
        ("id", Field "disease_id");
        ("labels", Const "Disease");
        ("therapeutic_areas", Field "therapeutic_areas")];
      g ← add_node g dg_node_label dg_node_attrs;
      edge_attrs ← display dg [
        ("source", Const "OpenTargets");
        ("label", Const "associated_with")];
      add_edge_once g gene_node_label dg_node_label
        (VScalar "associated_with") edge_attrs
    else Ok g) g annot_list.

Definition add_wikipathways_subgraph (g : Graph) (gene_node_label : scalar)
    (annot_list : list record) : result Graph :=
  foldM (fun g pathway =>
    pathwayLabel ← getitem pathway "pathwayLabel";
    if negb (isna pathwayLabel) then
      pathway_node_label ← getitem pathway "pathwayLabel";
      pathway_node_attrs ← display pathway [
        ("source", Const "WikiPathways");
        ("name", Field "pathwayLabel");
        ("id", Field "pathwayId");
        ("labels", Const "Pathway");
        ("gene_count", Field "pathwayGeneCount")];
      g ← add_node g pathway_node_label pathway_node_attrs;
      edge_attrs ← display pathway [
        ("source", Const "WikiPathways");
        ("label", Const "part_of_pathway")];
      add_edge_once g gene_node_label pathway_node_label
        (VScalar "part_of_pathway") edge_attrs
    else Ok g) g annot_list.

Definition add_ppi_subgraph (g : Graph) (gene_node_label : scalar)
    (annot_list : list record) : result Graph :=
  foldM (fun g ppi =>
    edge_attrs ← display ppi [
      ("source", Const "STRING");
      ("label", Const "interacts_with");
      ("score", Field "score")];
    stringdb_link_to ← getitem ppi "stringdb_link_to";
    add_edge_once g gene_node_label stringdb_link_to
      (VScalar "interacts_with") edge_attrs) g annot_list.

(** [inhibitor_node_attrs] is handed to [add_node] and written to
    afterwards: the node holds that very dictionary, so the two reference
    entries show in the node's container. [set_container] is that write seen
    from the graph. *)
Definition set_container (g : Graph) (n : scalar) (a : attrs) : Graph :=
  mkGraph (upsert n (fun d => <[SStr "attr_dict" := ODict a]> d) (g_node g)) (g_adj g).

Definition add_molmedb_gene_inhibitor (g : Graph) (gene_node_label : scalar)
    (annot_list : list record) : result Graph :=
  foldM (fun g inhibitor =>
    InChIKey ← getitem inhibitor "InChIKey";
    if negb (isna InChIKey) then
      inhibitor_node_label ← getitem inhibitor "label";
      inhibitor_node_attrs ← display inhibitor [
        ("source", Const "MolMeDB");
        ("id", Field "molmedb_id");
        ("name", Field "label");
        ("InChIKey", Field "InChIKey");
        ("MolMeDB_id", Field "molmedb_id");
        ("labels", Const "Compound")];
      inhibitor_node_attrs ←
        set_if_notna inhibitor inhibitor_node_attrs "SMILES" "SMILES" "SMILES";
      inhibitor_node_attrs ←
        set_if_notna inhibitor inhibitor_node_attrs
          "pubchem_compound_id" "PubChem_compound_id" "pubchem_compound_id";
      inhibitor_node_attrs ←
        set_if_notna inhibitor inhibitor_node_attrs "chebi_id" "ChEBI_id" "chebi_id";
      inhibitor_node_attrs ←
        set_if_notna inhibitor inhibitor_node_attrs
          "drugbank_id" "DrugBank_id" "drugbank_id";
      g ← add_node g inhibitor_node_label inhibitor_node_attrs;
      edge_attrs ← display inhibitor [
        ("source", Const "MolMeDB");
        ("label", Const "inhibits")];
      inhibitor_node_attrs ←
        set_if_notna inhibitor inhibitor_node_attrs
          "source_doi" "reference_doi" "source_doi";
      inhibitor_node_attrs ←
        set_if_notna inhibitor inhibitor_node_attrs
          "source_pmid" "reference_pmid" "source_pmid";
      let g := set_container g inhibitor_node_label inhibitor_node_attrs in
      add_edge_once g gene_node_label inhibitor_node_label
        (VScalar "inhibits") edge_attrs
    else Ok g) g annot_list.

Definition add_bgee_subgraph (g : Graph) (gene_node_label : scalar)
    (annot_list : list record) : result Graph :=
  foldM (fun g annot =>
    anatomical_entity_name ← getitem annot "anatomical_entity_name";
    if negb (isna anatomical_entity_name) then
      annot_node_label ← getitem annot "anatomical_entity_name";
      annot_node_attrs ← display annot [
        ("source", Const "Bgee");
        ("name", Field "anatomical_entity_name");
        ("id", Field "anatomical_entity_id");
        ("labels", Const "Anatomical Entity");
        ("anatomical_entity_id", Field "anatomical_entity_id");
        ("anatomical_entity_name", Field "anatomical_entity_name")];
      annot_node_attrs ←
        set_if_notna annot annot_node_attrs
          "developmental_stage_id" "developmental_stage_id" "developmental_stage_id";
      annot_node_attrs ←
        set_if_notna annot annot_node_attrs
          "developmental_stage_name" "developmental_stage_name"
          "developmental_stage_name";
      annot_node_attrs ←
        set_if_notna annot annot_node_attrs
          "expression_level" "expression_level" "expression_level";
      annot_node_attrs ←
        set_if_notna annot annot_node_attrs
          "confidence_level" "confidence_level" "drugbank_id";
      g ← add_node g annot_node_label annot_node_attrs;
      edge_attrs ← display annot [
        ("source", Const "Bgee");
        ("label", Const "expressed_in")];
      add_edge_once g gene_node_label annot_node_label
        (VScalar "expressed_in") edge_attrs
    else Ok g) g annot_list.

Definition add_minerva_subgraph (g : Graph) (gene_node_label : scalar)
    (annot_list : list record) : result Graph :=
  foldM (fun g pathway =>
    pathwayLabel ← getitem pathway "pathwayLabel";
    if negb (isna pathwayLabel) then
      pathway_node_label ← getitem pathway "pathwayLabel";
      pathway_node_attrs ← display pathway [
        ("source", Const "MINERVA");
        ("name", Field "pathwayLabel");
        ("id", Field "pathwayId");
        ("labels", Const "pathway");
        ("gene_count", Field "pathwayGeneCount")];
      g ← add_node g pathway_node_label pathway_node_attrs;
      edge_attrs ← display pathway [
        ("source", Const "MINERVA");
        ("type", Const "part_of_pathway")];
      add_edge_once g gene_node_label pathway_node_label
        (VScalar "part_of_pathway") edge_attrs
    else Ok g) g annot_list.

(** [gene_node_label_2] is the cell [row['identifier']] as it is: it is
    hashed only when a record is reached. With an unhashable one,
    [has_edge] answers [False] for a [umls] that is not a node (then
    [add_edge] refuses [None], or fails hashing the label) and fails
    hashing the label otherwise. *)
Definition add_drug_disease_subgraph (g : Graph) (gene_node_label_2 : value)
    (annot_list : list record) : result Graph :=
  foldM (fun g ddi =>
    let edge_attrs :=
      mk_attrs [(SStr "source", VScalar "OpenTargets");
                (SStr "type", VScalar "treated_with")] in
    let edge_hash := hash edge_attrs in
    let edge_attrs := setitem edge_attrs (SStr "edge_hash") (VScalar (SInt edge_hash)) in
    umls ← getitem ddi "umls";
    match gene_node_label_2 with
    | VScalar gene =>
        if negb (has_edge g umls gene)
        then add_edge g umls gene (edge_kwargs (VScalar "treated_with") edge_attrs)
        else Ok g
    | _ => if decide (umls = SNone) then Err ValueError else Err TypeError
    end) g annot_list.

(** ** [generate_networkx_graph] *)

Definition func_dict
  : list (string * (Graph -> scalar -> list record -> result Graph)) :=
  [ ("DisGeNET", add_disgenet_disease_subgraph);
    ("OpenTargets_Location", add_opentargets_location_subgraph);
    ("GO_Process", add_opentargets_go_subgraph);
    ("Reactome_Pathways", add_opentargets_pathway_subgraph);
    ("ChEMBL_Drugs", add_opentargets_drug_subgraph);
    ("OpenTargets_Diseases", add_opentargets_disease_subgraph);
    ("WikiPathways", add_wikipathways_subgraph);
    ("MINERVA", add_minerva_subgraph);
    ("transporter_inhibitor", add_molmedb_gene_inhibitor);
    ("Bgee", add_bgee_subgraph) ].

(** The local variables of [generate_networkx_graph] that outlive the loop
    that binds them. *)
Record locals := mkLocals {
  l_row : option Row;
  l_gene_node_label : option scalar
}.

Definition dea_columns (fuse_df : DataFrame) : list string :=
  List.filter (fun c => endswith c "_dea") (columns fuse_df).

(** Lines 516-523 for one entry of [func_dict]: a cell that is not a list
    is replaced by the empty list. *)
Definition dispatch (row : Row) (gene_node_label : scalar) (g : Graph)
    (kb : string * (Graph -> scalar -> list record -> result Graph))
  : result Graph :=
  let annot_key := kb.1 in
  if row_contains row annot_key then
    cell ← row_getitem row annot_key;
    let annot_list := json_roundtrip cell in
    let annot_list :=
      match annot_list with
      | VList l => l
      | _ => []
      end in
    kb.2 g gene_node_label annot_list
  else Ok g.

(** Lines 503-512: the attribute dictionary of the gene node of a row. *)
Definition gene_node_attrs (dea : list string) (row : Row) : result attrs :=
  labels ← row_getitem row "identifier";
  id ← row_getitem row "target";
  target_source ← row_getitem row "target.source";
  target ← row_getitem row "target";
  key ← hashable target_source;
  let gene_node_attrs :=
    mk_attrs [(SStr "source", VScalar "BridgeDB");
              (SStr "labels", labels);
              (SStr "id", id);
              (SStr "node_type", VScalar "Gene");
              (key, target)] in
  foldM (fun a c => v ← row_getitem row c; Ok (setitem a (SStr (drop_last 4 c)) v))
    gene_node_attrs dea.

(** The body of the first loop, lines 502-523. *)
Definition gene_row (dea : list string) (st : Graph * locals) (row : Row)
  : result (Graph * locals) :=
  let g := st.1 in
  identifier ← row_getitem row "identifier";
  gene_node_attrs ← gene_node_attrs dea row;
  gene_node_label ← hashable identifier;
  g ← add_node g gene_node_label gene_node_attrs;
  g ← foldM (dispatch row gene_node_label) g func_dict;
  Ok (g, mkLocals (Some row) (Some gene_node_label)).

(** The body of the second loop, lines 526-532: [row] is rebound,
    [gene_node_label] is read as the first loop left it. *)
Definition ppi_row (st : Graph * locals) (row : Row) : result (Graph * locals) :=
  let g := st.1 in
  cell ← row_getitem row "stringdb";
  let ppi_list := json_roundtrip cell in
  let ppi_list := if is_None ppi_list then VList [] else ppi_list in
  gene_node_label ← read_local (l_gene_node_label st.2);
  ppi_list ← records_of_iterable ppi_list;
  g ← add_ppi_subgraph g gene_node_label ppi_list;
  Ok (g, mkLocals (Some row) (l_gene_node_label st.2)).

(** The body of the third loop, lines 537-544. *)
Definition drug_disease_row (st : Graph * locals) (row : Row)
  : result (Graph * locals) :=
  let g := st.1 in
  gene_node_label_2 ← row_getitem row "identifier";
  cell ← row_getitem row "drug_diseases";
  let ddi_list := json_roundtrip cell in
  let ddi_list := if is_float ddi_list then VList [] else ddi_list in
  ddi_list ← records_of_iterable ddi_list;
  g ← add_drug_disease_subgraph g gene_node_label_2 ddi_list;
  Ok (g, mkLocals (Some row) (l_gene_node_label st.2)).

(** Lines 501-523. *)
Definition first_pass (fuse_df : DataFrame) (st : Graph * locals)
  : result (Graph * locals) :=
  foldM (gene_row (dea_columns fuse_df)) st (rows fuse_df).

(** Lines 525-532. *)
Definition interaction_pass (fuse_df : DataFrame) (st : Graph * locals)
  : result (Graph * locals) :=
  row ← read_local (l_row st.2);
  if row_contains row "stringdb"
  then foldM ppi_row st (rows fuse_df)
  else Ok st.

(** Lines 534-544. *)
Definition drug_disease_pass (fuse_df : DataFrame)
    (drug_disease : option DataFrame) (st : Graph * locals)
  : result (Graph * locals) :=
  match drug_disease with
  | None => Ok st
  | Some drug_disease =>
      sel ← select drug_disease ["identifier"; "drug_diseases"];
      let fuse_df := concat fuse_df sel in
      row ← read_local (l_row st.2);
      if row_contains row "drug_diseases"
      then foldM drug_disease_row st (rows fuse_df)
      else Ok st
  end.

(** Lines 484-544: the three passes, before the attributes are flattened. *)
Definition assemble (fuse_df : DataFrame) (drug_disease : option DataFrame)
  : result Graph :=
  let g := empty_graph in
  st ← first_pass fuse_df (g, mkLocals None None);
  st ← interaction_pass fuse_df st;
  st ← drug_disease_pass fuse_df drug_disease st;
  Ok st.1.

(** Lines 546-551, for one node. *)
Definition finalize_node (d : dict) : result dict :=
  o ← data_getitem d "attr_dict";
  a ← items o;
  let d :=
    map_fold (fun k v d => if negb (is_None v) then <[k := OVal v]> d else d) d a in
  Ok (delete (SStr "attr_dict") d).

(** Lines 553-559, for one edge. *)
Definition finalize_edge (d : dict) : result dict :=
  match d !! SStr "attr_dict" with
  | Some o =>
      a ← items o;
      let d :=
        map_fold (fun x y d =>
          if negb (is_None y) && negb (bool_decide (x = SStr "edge_hash"))
          then <[x := OVal y]> d else d) d a in
      Ok (delete (SStr "attr_dict") d)
  | None => Ok d
  end.

(** Lines 546-559. The edges are visited pair by pair; the order cannot be
    seen, as an edge is changed on its own and [AttributeError] is the only
    exception the loop can raise. *)
Definition finalize (g : Graph) : result Graph :=
  nodes ← traverse (fun nd => d ← finalize_node nd.2; Ok (nd.1, d)) (g_node g);
  adj ← traverse (fun e => l ← traverse finalize_edge e.2; Ok (e.1, l))
          (map_to_list (g_adj g));
  Ok (mkGraph nodes (list_to_map adj)).

Definition generate_networkx_graph (fuse_df : DataFrame)
    (drug_disease : option DataFrame) : result Graph :=
  g ← assemble fuse_df drug_disease;
  finalize g.

End WithHash.

End Generator.

Export Generator.

(* ===================================================================== *)
(** * Sample tables *)
(* ===================================================================== *)

Module Samples.

(** A hash without collisions, to run the module on the tables below. The
    theorems hold for any hash. *)
Definition perfect_hash (a : attrs) : Z := Zpos (encode a).

Definition gene (identifier target : string) (cells : list (string * value)) : Row :=
  list_to_map
    ([("identifier", VScalar identifier);
      ("target", VScalar target);
      ("target.source", VScalar "Ensembl")] ++ cells).

Definition table (cols : list string) (rs : list Row) : DataFrame :=
  mkDataFrame (["identifier"; "target"; "target.source"] ++ cols) rs.

(** One disease, reported by DisGeNET and by OpenTargets; the second
    report has no identifier. *)
Definition disgenet_record : record :=
  list_to_map
    [("disease_name", SStr "D"); ("diseaseid", SStr "C1");
     ("disease_class", SStr "C04"); ("disease_class_name", SStr "Neoplasms");
     ("disease_type", SStr "disease"); ("disease_semantic_type", SStr "T191");
     ("score", SFloat 8 (-1)); ("year_initial", SInt 2001);
     ("year_final", SNaN); ("ei", SNone); ("el", SStr "")].

Definition opentargets_record : record :=
  list_to_map
    [("disease_name", SStr "D"); ("disease_id", SNone);
     ("therapeutic_areas", SStr "oncology")].

Definition two_sources : DataFrame :=
  table ["DisGeNET"; "OpenTargets_Diseases"]
    [gene "G" "E1" [("DisGeNET", VList [disgenet_record]);
                    ("OpenTargets_Diseases", VList [opentargets_record])]].

(** The graph with the gene [G] and the disease of [disgenet_record]. *)
Definition disease_graph : Graph :=
  match add_disgenet_disease_subgraph perfect_hash empty_graph "G"
          [disgenet_record] with
  | Ok g => g
  | Err _ => empty_graph
  end.

(** A GO term without a name. *)
Definition unnamed_go_record : record :=
  list_to_map [("go_name", SNaN); ("go_id", SStr "GO:0006914")].

Definition unnamed_go : DataFrame :=
  table ["GO_Process"] [gene "G" "E1" [("GO_Process", VList [unnamed_go_record])]].

(** A gene whose namespace is called ["edge_hash"]. *)
Definition edge_hash_namespace : DataFrame :=
  table [] [<["target.source" := VScalar (SStr "edge_hash")]> (gene "G" "E1" [])].

(** Two genes; the first interacts with the second. *)
Definition interaction_record : record :=
  list_to_map [("stringdb_link_to", SStr "B"); ("score", SFloat 9 (-1))].

Definition two_genes : DataFrame :=
  table ["stringdb"]
    [gene "A" "E1" [("stringdb", VList [interaction_record])];
     gene "B" "E2" [("stringdb", VList [])]].

(** A drug-disease table for the gene [A]. *)
Definition treatment_record : record := list_to_map [("umls", SStr "C0011849")].

Definition treatments : DataFrame :=
  mkDataFrame ["identifier"; "drug_diseases"]
    [list_to_map [("identifier", VScalar (SStr "A"));
                  ("drug_diseases", VList [treatment_record])]].

Definition one_gene : DataFrame := table [] [gene "A" "E1" []].

Definition one_gene_with_treatments : DataFrame :=
  table ["drug_diseases"]
    [gene "A" "E1" [("drug_diseases", VList [treatment_record])]].

(** A gene without interaction data: the cell holds [NaN]. *)
Definition no_interaction_data : DataFrame :=
  table ["stringdb"] [gene "A" "E1" [("stringdb", VScalar SNaN)]].

(** A tissue-expression record with every optional field. *)
Definition bgee_record : record :=
  list_to_map
    [("anatomical_entity_name", SStr "liver");
     ("anatomical_entity_id", SStr "UBERON:0002107");
     ("developmental_stage_id", SStr "UBERON:0000104");
     ("developmental_stage_name", SStr "life cycle");
     ("expression_level", SFloat 99 0);
     ("confidence_level", SStr "high")].

Definition no_rows : DataFrame := table [] [].

(** The graphs the module gives for some of the tables. *)
Definition graph_of (r : result Graph) : Graph :=
  match r with
  | Ok g => g
  | Err _ => empty_graph
  end.

Definition two_sources_graph : Graph :=
  graph_of (generate_networkx_graph perfect_hash two_sources None).

(** The state of [generate_networkx_graph] on [one_gene_with_treatments]
    before the third pass, and after it. *)
Definition state_of (r : result (Graph * locals)) : Graph * locals :=
  match r with
  | Ok st => st
  | Err _ => (empty_graph, mkLocals None None)
  end.

Definition before_third_pass : Graph * locals :=
  state_of (st ← first_pass perfect_hash one_gene_with_treatments
                   (empty_graph, mkLocals None None);
            interaction_pass perfect_hash one_gene_with_treatments st).

Definition after_third_pass : Graph * locals :=
  state_of (drug_disease_pass perfect_hash one_gene_with_treatments
              (Some treatments) before_third_pass).

(** A gene row whose disease cell holds [NaN]. *)
Definition no_disease_data : Row := gene "G" "E1" [("DisGeNET", VScalar SNaN)].

End Samples.

Export Samples.

(* ===================================================================== *)
(** * Vocabulary of the statements *)
(* ===================================================================== *)

Module Props.

(** [raises E m]: if [m] raises an exception, it is one of [E]. *)
Definition raises {A} (E : exn -> Prop) (m : result A) : Prop :=
  forall e, m = Err e -> E e.

(** Every exception but [NameError]. *)
Definition not_NameError (e : exn) : Prop := e <> NameError.

(** The parallel edges from [u] to [v], none when there is no entry. *)
Definition edges (g : Graph) (u v : scalar) : list dict :=
  default [] (get_edge_data g u v).

(** The attribute [k] of the node [n]. *)
Definition node_attribute (g : Graph) (n k : scalar) : option obj :=
  d ← node_data (g_node g) n; d !! k.

(** The labels of the nodes, in the order they were added. *)
Definition node_labels (g : Graph) : list scalar := (g_node g).*1.

(** The attribute [k] of each parallel edge from [u] to [v]. *)
Definition edge_attribute (g : Graph) (u v k : scalar) : list (option obj) :=
  (fun d : dict => d !! k) <$> edges g u v.

(** From [g] to [g1] no edge was removed or changed, and no ordered pair
    of nodes gained more than one. *)
Definition at_most_one_edge_more (g g1 : Graph) : Prop :=
  forall u v,
    (edges g u v `prefix_of` edges g1 u v) /\
    (length (edges g1 u v) <= S (length (edges g u v)))%nat.

(** What the flattening of a node leaves of a container [a]: the entries
    that are not [None], but for an entry named ["attr_dict"], which the
    loop writes and then deletes with the container. *)
Definition promoted (a : attrs) : dict :=
  OVal <$> filter (fun kv => is_None kv.2 = false /\ kv.1 <> SStr "attr_dict") a.

(** The two ways the builders write to the graph. *)
Inductive op :=
  | Upsert (n : scalar) (a : attrs)          (* [g.add_node(n, attr_dict=a)] *)
  | Link (u v : scalar) (l : value) (a : attrs).
                                    (* [g.add_edge(u, v, label=l, attr_dict=a)] *)

Definition run_op (g : Graph) (o : op) : result Graph :=
  match o with
  | Upsert n a => add_node g n a
  | Link u v l a => add_edge g u v (edge_kwargs l a)
  end.

(** The attribute dictionary of the last upsert of [n], if there is one. *)
Definition last_upsert (n : scalar) (ops : list op) : option attrs :=
  foldl (fun acc o =>
           match o with
           | Upsert m a => if decide (m = n) then Some a else acc
           | Link _ _ _ _ => acc
           end) None ops.

(** An attribute dictionary without an entry named ["edge_hash"]. *)
Definition no_hash_key (a : attrs) : Prop := a !! SStr "edge_hash" = None.

(** A graph that a run of writes builds from the empty graph, the
    attribute dictionaries of the upserts all satisfying [P]. *)
Definition written (P : attrs -> Prop) (g : Graph) : Prop :=
  exists ops,
    Forall (fun o => match o with Upsert _ a => P a | Link _ _ _ _ => True end) ops /\
    foldM run_op empty_graph ops = Ok g.

(** No gene row of the table names an attribute ["edge_hash"]: neither its
    namespace nor the stem of a differential-expression column is that
    word. *)
Definition no_edge_hash_attribute (fuse_df : DataFrame) : Prop :=
  (forall row, row ∈ rows fuse_df ->
     row !! "target.source" <> Some (VScalar (SStr "edge_hash"))) /\
  (forall c, c ∈ dea_columns fuse_df -> drop_last 4 c <> "edge_hash").

(** From [g] to [g']: an ordered pair of nodes has the edges it had, or had
    none and has one. *)
Definition same_or_first_edge (g g' : Graph) : Prop :=
  forall u v,
    get_edge_data g' u v = get_edge_data g u v \/
    (get_edge_data g u v = None /\ exists d, get_edge_data g' u v = Some [d]).

(** A disease reported twice, with an edge in between. *)
Definition first_report : attrs :=
  mk_attrs [(SStr "source", VScalar "DisGeNET"); (SStr "id", VScalar "C1");
            (SStr "disease_class", VScalar "C04")].

Definition second_report : attrs :=
  mk_attrs [(SStr "source", VScalar "OpenTargets"); (SStr "id", VScalar SNone)].

Definition reports : list op :=
  [Upsert "D" first_report;
   Link "G" "D" (VScalar "associated_with") ∅;
   Upsert "D" second_report].

Definition reported_graph : Graph := graph_of (foldM run_op empty_graph reports).

(** Both loop variables of [generate_networkx_graph] are bound. *)
Definition bound (st : Graph * locals) : Prop :=
  is_Some (l_row st.2) /\ is_Some (l_gene_node_label st.2).

Section WithHash.

Context (hash : attrs -> Z).

(** An attribute dictionary as [add_edge_once] stores it: with its
    identity. *)
Definition with_hash (edge_attrs : attrs) : attrs :=
  setitem edge_attrs (SStr "edge_hash") (VScalar (SInt (hash edge_attrs))).

(** The attribute dictionary the drug-disease builder stores with an edge. *)
Definition treated_with_attrs : attrs :=
  with_hash (mk_attrs [(SStr "source", VScalar "OpenTargets");
                       (SStr "type", VScalar "treated_with")]).

(** The builders that deduplicate by edge identity: those of the registry
    and the interaction builder. *)
Definition hashing_builders
  : list (Graph -> scalar -> list record -> result Graph) :=
  (func_dict hash).*2 ++ [add_ppi_subgraph hash].

End WithHash.

End Props.

Export Props.

(* ===================================================================== *)
(** * Vocabulary of the further properties *)
(* ===================================================================== *)

Module Shape.

(** From [g] to [g']: the nodes there were are there, in their order, and
    every ordered pair has the edges it had, in their order, before any new
    one. *)
Definition extends (g g' : Graph) : Prop :=
  (node_labels g `prefix_of` node_labels g') /\
  forall u v, edges g u v `prefix_of` edges g' u v.

(** The identity an edge carries in its container, if it carries one. *)
Definition stored_hash (d : dict) : option Z :=
  match d !! SStr "attr_dict" with
  | Some (ODict a) =>
      match a !! SStr "edge_hash" with
      | Some (VScalar (SInt h)) => Some h
      | _ => None
      end
  | _ => None
  end.

(** Every edge carries an identity, and the parallel edges of an ordered
    pair carry different ones. *)
Definition distinct_identities (g : Graph) : Prop :=
  forall u v, exists hs,
    Forall2 (fun d h => stored_hash d = Some h) (edges g u v) hs /\ NoDup hs.

(** From [g] to [g']: only edges that leave [gene], or only edges that
    reach it, were added. *)
Definition only_from (gene : scalar) (g g' : Graph) : Prop :=
  forall u v, u <> gene -> edges g' u v = edges g u v.

Definition only_into (gene : scalar) (g g' : Graph) : Prop :=
  forall u v, v <> gene -> edges g' u v = edges g u v.

(** From [g] to [g'], [None] has not become a node. *)
Definition none_free (g g' : Graph) : Prop :=
  SNone ∉ node_labels g -> SNone ∉ node_labels g'.

Section WithHash.

Context (hash : attrs -> Z).

(** The builders that link the gene to the entity: all of them but the
    drug builder of OpenTargets and the drug-disease builder. *)
Definition outgoing_builders
  : list (Graph -> scalar -> list record -> result Graph) :=
  [ add_disgenet_disease_subgraph hash;
    add_opentargets_location_subgraph hash;
    add_opentargets_go_subgraph hash;
    add_opentargets_pathway_subgraph hash;
    add_opentargets_disease_subgraph hash;
    add_wikipathways_subgraph hash;
    add_minerva_subgraph hash;
    add_molmedb_gene_inhibitor hash;
    add_bgee_subgraph hash;
    add_ppi_subgraph hash ].

End WithHash.

(** The field each registry builder reads first of a record, by the
    column the builder is registered for. *)
Definition first_read : list (string * string) :=
  [ ("DisGeNET", "disease_name");
    ("OpenTargets_Location", "location");
    ("GO_Process", "go_name");
    ("Reactome_Pathways", "pathway_id");
    ("ChEMBL_Drugs", "relation");
    ("OpenTargets_Diseases", "disease_name");
    ("WikiPathways", "pathwayLabel");
    ("MINERVA", "pathwayLabel");
    ("transporter_inhibitor", "InChIKey");
    ("Bgee", "anatomical_entity_name") ].

(** The field each registry builder reads the label of the entity node
    from, by the column the builder is registered for. *)
Definition label_read : list (string * string) :=
  [ ("DisGeNET", "disease_name");
    ("OpenTargets_Location", "location");
    ("GO_Process", "go_name");
    ("Reactome_Pathways", "pathway_name");
    ("ChEMBL_Drugs", "drug_name");
    ("OpenTargets_Diseases", "disease_name");
    ("WikiPathways", "pathwayLabel");
    ("MINERVA", "pathwayLabel");
    ("transporter_inhibitor", "label");
    ("Bgee", "anatomical_entity_name") ].

(** From [g] to [g'], the node [n] has kept its data dictionary. *)
Definition keeps_node (n : scalar) (g g' : Graph) : Prop :=
  forall d, node_data (g_node g) n = Some d -> node_data (g_node g') n = Some d.

(** The optional attributes of a MolMeDB inhibitor and of a Bgee
    anatomical entity: the field that is tested for a null, the attribute
    that is set, and the field the value is read from. *)
Definition molmedb_optional : list (string * string * string) :=
  [ ("SMILES", "SMILES", "SMILES");
    ("pubchem_compound_id", "PubChem_compound_id", "pubchem_compound_id");
    ("chebi_id", "ChEBI_id", "chebi_id");
    ("drugbank_id", "DrugBank_id", "drugbank_id");
    ("source_doi", "reference_doi", "source_doi");
    ("source_pmid", "reference_pmid", "source_pmid") ].

Definition bgee_optional : list (string * string * string) :=
  [ ("developmental_stage_id", "developmental_stage_id", "developmental_stage_id");
    ("developmental_stage_name", "developmental_stage_name",
       "developmental_stage_name");
    ("expression_level", "expression_level", "expression_level");
    ("confidence_level", "confidence_level", "drugbank_id") ].

(** The value of an optional attribute: none when the tested field [c] is
    null, the field [f] otherwise. *)
Definition optional_value (r : record) (c f : string) : option value :=
  x ← r !! c; if isna x then None else VScalar <$> r !! f.

(** The attributes of a gene node that do not come from a
    differential-expression column. *)
Definition fixed_gene_attrs (labels id : value) (ns : scalar) : attrs :=
  mk_attrs [(SStr "source", VScalar "BridgeDB"); (SStr "labels", labels);
            (SStr "id", id); (SStr "node_type", VScalar "Gene"); (ns, id)].

(** A cell that holds no annotation record: anything but a list with an
    element. *)
Definition no_records (row : Row) (col : string) : Prop :=
  forall r l, row !! col <> Some (VList (r :: l)).

(** A row with what the first pass reads of a gene, and no record in a
    registry column, no interaction column. *)
Definition plain_row (dea : list string) (row : Row) : Prop :=
  (exists gene : scalar, row !! "identifier" = Some (VScalar gene) /\ gene <> SNone) /\
  is_Some (row !! "target") /\
  (exists ns : scalar, row !! "target.source" = Some (VScalar ns)) /\
  (forall c, c ∈ dea -> is_Some (row !! c)) /\
  (forall col, col ∈ first_read.*1 -> no_records row col) /\
  row !! "stringdb" = None.

(** The graph of a table before its attributes are flattened. *)
Definition draft_of (fuse_df : DataFrame) (drug_disease : option DataFrame) : Graph :=
  graph_of (assemble perfect_hash fuse_df drug_disease).

(** A drug that inhibits the gene it is reported for. *)
Definition drug_record : record :=
  list_to_map
    [("relation", SStr "inhibits"); ("drug_name", SStr "ASPIRIN");
     ("chembl_id", SStr "CHEMBL25")].

(** An inhibitor with a structure and a reference, and without database
    cross-references. *)
Definition inhibitor_record : record :=
  list_to_map
    [("InChIKey", SStr "BSYNRYMUTXBXSQ-UHFFFAOYSA-N"); ("label", SStr "aspirin");
     ("molmedb_id", SStr "MM00040"); ("SMILES", SStr "CC(=O)OC1=CC=CC=C1C(O)=O");
     ("pubchem_compound_id", SNaN); ("chebi_id", SNone); ("drugbank_id", SNaN);
     ("source_doi", SStr "10.1000/j.1"); ("source_pmid", SNaN)].

(** A tissue-expression record without a confidence level. *)
Definition tissue_record : record :=
  list_to_map
    [("anatomical_entity_name", SStr "liver");
     ("anatomical_entity_id", SStr "UBERON:0002107");
     ("developmental_stage_id", SStr "UBERON:0000104");
     ("developmental_stage_name", SNaN);
     ("expression_level", SFloat 99 0);
     ("confidence_level", SNaN)].

(** A GO term whose name is [None]. *)
Definition none_go_record : record :=
  list_to_map [("go_name", SNone); ("go_id", SStr "GO:0006914")].

(** A gene with two differential-expression columns, one of which is
    called as a fixed attribute is. *)
Definition expression_table : DataFrame :=
  table ["log2FC_dea"; "id_dea"]
    [gene "A" "E1" [("log2FC_dea", VScalar (SFloat 15 (-1)));
                    ("id_dea", VScalar (SStr "x"))]].

(** The graphs and states the builders and passes give for the samples. *)
Definition drug_graph : Graph :=
  graph_of (add_opentargets_drug_subgraph perfect_hash empty_graph "G" [drug_record]).

Definition inhibitor_graph : Graph :=
  graph_of (add_molmedb_gene_inhibitor perfect_hash empty_graph "G"
              [inhibitor_record]).

Definition tissue_graph : Graph :=
  graph_of (add_bgee_subgraph perfect_hash empty_graph "G" [tissue_record]).

Definition interaction_graph : Graph :=
  graph_of (add_ppi_subgraph perfect_hash empty_graph "A" [interaction_record]).

Definition disease_graph_again : Graph :=
  graph_of (add_opentargets_disease_subgraph perfect_hash disease_graph "G"
              [opentargets_record]).

Definition after_first_pass : Graph * locals :=
  state_of (first_pass perfect_hash two_genes (empty_graph, mkLocals None None)).

Definition after_second_pass : Graph * locals :=
  state_of (interaction_pass perfect_hash two_genes after_first_pass).

Definition one_gene_graph : Graph :=
  graph_of (generate_networkx_graph perfect_hash one_gene None).

Definition expression_row : Row :=
  gene "A" "E1" [("log2FC_dea", VScalar (SFloat 15 (-1)));
                 ("id_dea", VScalar (SStr "x"))].

Definition expression_attrs : attrs :=
  match gene_node_attrs (dea_columns expression_table) expression_row with
  | Ok a => a
  | Err _ => ∅
  end.

End Shape.

Export Shape.

(* ===================================================================== *)
(** * Records, calls and contributions *)
(* ===================================================================== *)

Module Calls.

(** The fields a registry builder tests with [pd.isna] before it processes
    a record, by the column the builder is registered for. The location
    builder tests two, the GO builder none. *)
Definition guard_read : list (string * string) :=
  [ ("DisGeNET", "disease_name");
    ("OpenTargets_Location", "location");
    ("OpenTargets_Location", "subcellular_loc");
    ("Reactome_Pathways", "pathway_id");
    ("ChEMBL_Drugs", "relation");
    ("OpenTargets_Diseases", "disease_name");
    ("WikiPathways", "pathwayLabel");
    ("MINERVA", "pathwayLabel");
    ("transporter_inhibitor", "InChIKey");
    ("Bgee", "anatomical_entity_name") ].

(** A record that the builder of the column [col] does not pass over. *)
Definition processed (col : string) (r : record) : Prop :=
  forall field, (col, field) ∈ guard_read ->
    exists x, r !! field = Some x /\ isna x = false.

(** The ordered pair that the builder of the column [col] links for a gene
    and the entity of a record: the drug builder of OpenTargets links the
    drug to the gene, the others the gene to the entity. *)
Definition link (col : string) (gene entity : scalar) : scalar * scalar :=
  if String.eqb col "ChEMBL_Drugs" then (entity, gene) else (gene, entity).

(** The container of the node [n], if the node has one. *)
Definition container (g : Graph) (n : scalar) : option attrs :=
  d ← node_data (g_node g) n;
  match d !! SStr "attr_dict" with
  | Some (ODict a) => Some a
  | _ => None
  end.

(** A call on the graph in the first loop of [generate_networkx_graph]:
    the upsert of the gene of a row (lines 502-514), or a registry builder
    met with one record of a cell of the row (line 523). *)
Inductive call :=
  | GeneNode (row : Row)
  | Annotation (kb : string * (Graph -> scalar -> list record -> result Graph))
      (gene : scalar) (r : record).

Definition run_call (dea : list string) (g : Graph) (c : call) : result Graph :=
  match c with
  | GeneNode row =>
      identifier ← row_getitem row "identifier";
      gene_node_attrs ← gene_node_attrs dea row;
      gene_node_label ← hashable identifier;
      add_node g gene_node_label gene_node_attrs
  | Annotation kb gene r => kb.2 g gene [r]
  end.

(** What a call contributes to the node [n]: the container it gives the
    node when run on a graph of its own. *)
Definition contribution (dea : list string) (c : call) (n : scalar) : option attrs :=
  match run_call dea empty_graph c with
  | Ok g => container g n
  | Err _ => None
  end.

(** The last contribution to [n] of a run of calls. *)
Definition last_contribution (dea : list string) (cs : list call) (n : scalar)
  : option attrs :=
  foldl (fun acc c =>
           match contribution dea c n with
           | Some a => Some a
           | None => acc
           end) None cs.

Section WithHash.

Context (hash : attrs -> Z).

(** The calls of the first loop for a row, in the order they are made: the
    gene, then the records of the registry columns, column by column. *)
Definition calls_of_row (row : Row) : list call :=
  GeneNode row ::
  match row !! "identifier" with
  | Some (VScalar gene) =>
      kb ← func_dict hash;
      match row !! kb.1 with
      | Some (VList recs) => Annotation kb gene <$> recs
      | _ => []
      end
  | _ => []
  end.

Definition calls (fuse_df : DataFrame) : list call :=
  row ← rows fuse_df; calls_of_row row.

(** A call of a registry builder, for a gene that is a label. *)
Definition registry_call (c : call) : Prop :=
  match c with
  | GeneNode _ => True
  | Annotation kb gene _ => kb ∈ func_dict hash /\ gene <> SNone
  end.

End WithHash.

(** The node of the disease [D] in the graph of the table with its two
    reports, and the last contribution to it. *)
Definition disease_node : dict :=
  default ∅ (node_data (g_node two_sources_graph) "D").

Definition last_report : attrs :=
  default ∅ (last_contribution (dea_columns two_sources)
               (calls perfect_hash two_sources) "D").

End Calls.

Export Calls.

(* ===================================================================== *)
(** * Reasoning about outcomes *)
(* ===================================================================== *)

Lemma mbind_Ok {A B} (f : A -> result B) (m : result A) (b : B) :
  m ≫= f = Ok b -> exists a, m = Ok a /\ f a = Ok b.
Proof. destruct m as [a|e]; [eauto | discriminate]. Qed.

Lemma mbind_Err {A B} (f : A -> result B) (m : result A) (e : exn) :
  m ≫= f = Err e -> m = Err e \/ exists a, m = Ok a /\ f a = Err e.
Proof. destruct m as [a|e']; [right; eauto | intros [= ->]; by left]. Qed.

Lemma fmap_Ok {A B} (f : A -> B) (m : result A) (b : B) :
  f <$> m = Ok b -> exists a, m = Ok a /\ b = f a.
Proof. destruct m as [a|e]; [intros [= <-]; eauto | discriminate]. Qed.

(** Splits a hypothesis [x ← m; k = Ok b] into its two steps. *)
Tactic Notation "bind_inv" hyp(H) "as" ident(x) ident(Hx) :=
  first [ apply mbind_Ok in H as (x & Hx & H)
        | apply fmap_Ok in H as (x & Hx & H) ].

Lemma getitem_Some (r : record) k x : r !! k = Some x -> getitem r k = Ok x.
Proof. unfold getitem. by intros ->. Qed.

Lemma foldM_cons {A B} (f : A -> B -> result A) (a : A) (x : B) (xs : list B) :
  foldM f a (x :: xs) = f a x ≫= fun a' => foldM f a' xs.
Proof. done. Qed.

Lemma foldM_app {A B} (f : A -> B -> result A) (a : A) (xs ys : list B) :
  foldM f a (xs ++ ys) = foldM f a xs ≫= fun a' => foldM f a' ys.
Proof.
  revert a. induction xs as [|x xs IH]; intros a; [done|].
  simpl. destruct (f a x) as [a'|e]; [apply IH | done].
Qed.

(** A property that every successful step keeps is kept by the loop. *)
Lemma foldM_invariant {A B} (P : A -> Prop) (f : A -> B -> result A) (xs : list B) :
  (forall a x a', x ∈ xs -> P a -> f a x = Ok a' -> P a') ->
  forall a a', P a -> foldM f a xs = Ok a' -> P a'.
Proof.
  induction xs as [|x xs IH]; intros Hstep a a' Ha H.
  - by injection H as <-.
  - rewrite foldM_cons in H. bind_inv H as a1 H1.
    eapply IH; [| |exact H].
    + intros ? ? ? ?. apply Hstep. by right.
    + eapply Hstep; [by left|exact Ha|eassumption].
Qed.

Section Raises.

Context (E : exn -> Prop).

Lemma raises_Ok {A} (a : A) : raises E (Ok a).
Proof. by intros e. Qed.

Lemma raises_Err {A} (e : exn) : E e -> raises E (@Err A e).
Proof. by intros He e' [= <-]. Qed.

Lemma raises_bind {A B} (m : result A) (f : A -> result B) :
  raises E m -> (forall a, m = Ok a -> raises E (f a)) -> raises E (m ≫= f).
Proof.
  intros Hm Hf e H. apply mbind_Err in H as [H|(a & Ha & H)].
  - by apply Hm.
  - by apply (Hf a).
Qed.

Lemma raises_fmap {A B} (m : result A) (f : A -> B) :
  raises E m -> raises E (f <$> m).
Proof. intros Hm e H. destruct m; [done|]. apply Hm. by injection H as ->. Qed.

Lemma raises_foldM {A B} (f : A -> B -> result A) (xs : list B) (a : A) :
  (forall a x, raises E (f a x)) -> raises E (foldM f a xs).
Proof.
  intros Hf. revert a. induction xs as [|x xs IH]; intros a.
  - apply raises_Ok.
  - apply raises_bind; [apply Hf | intros; apply IH].
Qed.

Lemma raises_filterM {A} (p : A -> result bool) (xs : list A) :
  (forall x, raises E (p x)) -> raises E (filterM p xs).
Proof.
  intros Hp. induction xs as [|x xs IH]; [apply raises_Ok|].
  simpl. apply raises_bind; [apply Hp|intros b _].
  apply raises_bind; [apply IH|intros; apply raises_Ok].
Qed.

Lemma raises_traverse {A B} (f : A -> result B) (xs : list A) :
  (forall x, raises E (f x)) -> raises E (traverse f xs).
Proof.
  intros Hf. induction xs as [|x xs IH]; [apply raises_Ok|].
  simpl. apply raises_bind; [apply Hf|intros b _].
  apply raises_bind; [apply IH|intros; apply raises_Ok].
Qed.

End Raises.

(** ** The node store *)

Section NodeStore.

Implicit Types (l : list (scalar * dict)) (n m : scalar) (f : dict -> dict).

Lemma node_data_upsert_eq n f l :
  node_data (upsert n f l) n = Some (f (default ∅ (node_data l n))).
Proof.
  induction l as [|[m d] l IH]; simpl.
  - by rewrite decide_True.
  - destruct (decide (m = n)) as [->|Hne]; simpl.
    + by rewrite decide_True.
    + by rewrite decide_False.
Qed.

Lemma node_data_upsert_ne n m f l :
  n <> m -> node_data (upsert n f l) m = node_data l m.
Proof.
  intros Hne. induction l as [|[k d] l IH]; simpl.
  - by rewrite decide_False.
  - destruct (decide (k = n)) as [->|Hk]; simpl.
    + by rewrite !decide_False.
    + destruct (decide (k = m)); done.
Qed.

Lemma upsert_id n f l d :
  node_data l n = Some d -> f d = d -> upsert n f l = l.
Proof.
  intros Hl Hf. induction l as [|[k d'] l IH]; simpl in *; [done|].
  destruct (decide (k = n)) as [->|Hk].
  - injection Hl as ->. by rewrite Hf.
  - by rewrite IH.
Qed.

Lemma upsert_upsert n f f' l :
  upsert n f (upsert n f' l) = upsert n (f ∘ f') l.
Proof.
  induction l as [|[k d] l IH]; simpl.
  - by rewrite decide_True.
  - destruct (decide (k = n)) as [->|Hk]; simpl.
    + by rewrite decide_True.
    + by rewrite decide_False, IH.
Qed.

Lemma Forall_upsert (Q : dict -> Prop) n f l :
  Forall (fun nd => Q nd.2) l ->
  Q (f ∅) -> (forall d, Q d -> Q (f d)) ->
  Forall (fun nd => Q nd.2) (upsert n f l).
Proof.
  intros Hl Hnew Hold. induction Hl as [|[k d] l Hd Hl IH]; simpl.
  - by constructor.
  - destruct (decide (k = n)); constructor; simpl in *; auto.
Qed.

Lemma node_data_Forall (Q : dict -> Prop) n l d :
  Forall (fun nd => Q nd.2) l -> node_data l n = Some d -> Q d.
Proof.
  induction 1 as [|[k d'] l Hd Hl IH]; simpl; [done|].
  destruct (decide (k = n)); [by intros [= <-] | done].
Qed.

Lemma touch_node_Ok n f l l' :
  touch_node n f l = Ok l' -> l' = upsert n f l.
Proof.
  unfold touch_node. destruct (node_data l n); [by intros [= <-]|].
  destruct (decide (n = SNone)); [done | by intros [= <-]].
Qed.

Lemma touch_node_present n f l d :
  node_data l n = Some d -> touch_node n f l = Ok (upsert n f l).
Proof. unfold touch_node. by intros ->. Qed.

Lemma touch_node_not_None n f l :
  n <> SNone -> touch_node n f l = Ok (upsert n f l).
Proof.
  intros Hn. unfold touch_node. destruct (node_data l n); [done|].
  by rewrite decide_False.
Qed.

End NodeStore.

(** ** Nodes and edges under [add_node] and [add_edge] *)

Section GraphOps.

Implicit Types (g : Graph) (u v n : scalar) (d : dict).

Lemma add_node_Ok g n a g' :
  add_node g n a = Ok g' ->
  g' = mkGraph (upsert n (fun d => <[SStr "attr_dict" := ODict a]> d) (g_node g))
         (g_adj g).
Proof.
  unfold add_node. intros H. bind_inv H as l Hl. injection H as <-.
  by rewrite (touch_node_Ok _ _ _ _ Hl).
Qed.

Lemma add_node_not_None g n a :
  n <> SNone ->
  add_node g n a =
    Ok (mkGraph (upsert n (fun d => <[SStr "attr_dict" := ODict a]> d) (g_node g))
          (g_adj g)).
Proof. intros Hn. unfold add_node. by rewrite touch_node_not_None. Qed.

Lemma add_edge_Ok g u v d g' :
  add_edge g u v d = Ok g' ->
  g' = mkGraph (upsert v (fun d => d) (upsert u (fun d => d) (g_node g)))
         (<[(u, v) := default [] (g_adj g !! (u, v)) ++ [d]]> (g_adj g)).
Proof.
  unfold add_edge. intros H. bind_inv H as l1 Hl1. bind_inv H as l2 Hl2.
  injection H as <-. apply touch_node_Ok in Hl1, Hl2. by subst.
Qed.

Lemma add_edge_not_None g u v d :
  u <> SNone -> v <> SNone ->
  add_edge g u v d =
    Ok (mkGraph (upsert v (fun d => d) (upsert u (fun d => d) (g_node g)))
          (<[(u, v) := default [] (g_adj g !! (u, v)) ++ [d]]> (g_adj g))).
Proof.
  intros Hu Hv. unfold add_edge.
  rewrite (touch_node_not_None u) by done. cbn [mbind result_bind bind].
  by rewrite (touch_node_not_None v) by done.
Qed.

Lemma add_edge_get_eq g u v d g' :
  add_edge g u v d = Ok g' ->
  get_edge_data g' u v = Some (default [] (get_edge_data g u v) ++ [d]).
Proof.
  intros ->%add_edge_Ok. unfold get_edge_data; simpl. apply lookup_insert_eq.
Qed.

Lemma add_edge_get_ne g u v d g' u' v' :
  add_edge g u v d = Ok g' -> (u', v') <> (u, v) ->
  get_edge_data g' u' v' = get_edge_data g u' v'.
Proof.
  intros ->%add_edge_Ok Hne. unfold get_edge_data; simpl.
  by apply lookup_insert_ne.
Qed.

Lemma node_data_touch_id n m l x :
  node_data l m = Some x -> node_data (upsert n (fun d => d) l) m = Some x.
Proof.
  intros Hm. destruct (decide (n = m)) as [->|Hne].
  - by rewrite node_data_upsert_eq, Hm.
  - by rewrite node_data_upsert_ne.
Qed.

(** [add_edge] leaves the data of the nodes there are as it is. *)
Lemma add_edge_node_data g u v d g' n x :
  add_edge g u v d = Ok g' ->
  node_data (g_node g) n = Some x -> node_data (g_node g') n = Some x.
Proof.
  intros ->%add_edge_Ok Hn. simpl. by do 2 apply node_data_touch_id.
Qed.

Lemma has_edge_true g u v :
  has_edge g u v = true <-> is_Some (get_edge_data g u v).
Proof. unfold has_edge. apply bool_decide_eq_true. Qed.

Lemma has_edge_false g u v :
  has_edge g u v = false <-> get_edge_data g u v = None.
Proof.
  unfold has_edge, get_edge_data. rewrite bool_decide_eq_false.
  by rewrite eq_None_not_Some.
Qed.

(** Edges are only ever added. *)
Lemma add_edge_has_edge g u v d g' u' v' :
  add_edge g u v d = Ok g' ->
  has_edge g u' v' = true -> has_edge g' u' v' = true.
Proof.
  intros Hadd. rewrite !has_edge_true. intros Hsome.
  destruct (decide ((u', v') = (u, v))) as [[= -> ->]|Hne].
  - rewrite (add_edge_get_eq _ _ _ _ _ Hadd). eauto.
  - by rewrite (add_edge_get_ne _ _ _ _ _ _ _ Hadd Hne).
Qed.

End GraphOps.

(** ** Edge-identity deduplication *)

Lemma filterM_app {A} (p : A -> result bool) (xs ys : list A) :
  filterM p (xs ++ ys) =
    xs' ← filterM p xs; ys' ← filterM p ys; Ok (xs' ++ ys').
Proof.
  induction xs as [|x xs IH]; simpl.
  - by destruct (filterM p ys).
  - destruct (p x) as [b|]; [|done]. cbn [mbind result_bind bind].
    rewrite IH. destruct (filterM p xs); [|done]. cbn [mbind result_bind bind].
    destruct (filterM p ys); [|done]. by destruct b.
Qed.

Lemma filterM_length {A} (p : A -> result bool) (xs ys : list A) :
  filterM p xs = Ok ys -> length ys <= length xs.
Proof.
  revert ys. induction xs as [|x xs IH]; intros ys H; simpl in H.
  - injection H as <-. done.
  - bind_inv H as b Hb. bind_inv H as zs Hzs. injection H as <-.
    specialize (IH _ Hzs). destruct b; simpl; lia.
Qed.

Lemma filterM_elem_of {A} (p : A -> result bool) (xs ys : list A) (y : A) :
  filterM p xs = Ok ys -> y ∈ ys -> y ∈ xs /\ p y = Ok true.
Proof.
  revert ys. induction xs as [|x xs IH]; intros ys H Hy; simpl in H.
  - injection H as <-. by apply elem_of_nil in Hy.
  - bind_inv H as b Hb. bind_inv H as zs Hzs. injection H as <-.
    destruct b.
    + apply elem_of_cons in Hy as [->|Hy].
      * split; [by left|done].
      * destruct (IH _ Hzs Hy). split; [by right|done].
    + destruct (IH _ Hzs Hy). split; [by right|done].
Qed.

Section EdgeIdentity.

Context (hash : attrs -> Z).

Implicit Types (g : Graph) (u v n : scalar).

Lemma carries_hash_stored label edge_attrs :
  carries_hash (hash edge_attrs) (edge_kwargs label (with_hash hash edge_attrs)) = Ok true.
Proof.
  unfold carries_hash, data_getitem, edge_kwargs.
  rewrite lookup_insert_eq. cbn [mbind result_bind bind subscript].
  unfold with_hash, setitem. rewrite lookup_insert_eq.
  cbn [mbind result_bind bind]. by rewrite bool_decide_eq_true_2.
Qed.

(** What [add_edge_once] does, by the outcome of the search. *)
Lemma add_edge_once_unfold g u v label edge_attrs :
  add_edge_once hash g u v label edge_attrs =
    node_exists ← filterM (carries_hash (hash edge_attrs))
                     (default [] (get_edge_data g u v));
    if decide (length node_exists = 0)
    then add_edge g u v (edge_kwargs label (with_hash hash edge_attrs))
    else Ok g.
Proof. done. Qed.

(** An edge whose identity is already carried between the endpoints is not
    added again, and nothing else changes. *)
Lemma add_edge_once_present g u v label edge_attrs y ys :
  filterM (carries_hash (hash edge_attrs)) (default [] (get_edge_data g u v))
    = Ok (y :: ys) ->
  add_edge_once hash g u v label edge_attrs = Ok g.
Proof. intros H. rewrite add_edge_once_unfold, H. done. Qed.

Lemma add_edge_once_idempotent g u v label edge_attrs g1 :
  add_edge_once hash g u v label edge_attrs = Ok g1 ->
  add_edge_once hash g1 u v label edge_attrs = Ok g1.
Proof.
  intros H. pose proof H as H0. rewrite add_edge_once_unfold in H.
  bind_inv H as found Hfound.
  destruct (decide (length found = 0)) as [Hlen|Hlen].
  - rewrite add_edge_once_unfold.
    rewrite (add_edge_get_eq _ _ _ _ _ H). cbn [default from_option id].
    rewrite filterM_app, Hfound. cbn [mbind result_bind bind filterM].
    rewrite carries_hash_stored. cbn [mbind result_bind bind].
    destruct found; [|done]. simpl. done.
  - by injection H as <-.
Qed.

(** At most one edge is added, after the edges there are. *)
Lemma add_edge_once_edges g u v label edge_attrs g1 :
  add_edge_once hash g u v label edge_attrs = Ok g1 ->
  g1 = g \/
  (get_edge_data g1 u v =
     Some (default [] (get_edge_data g u v)
           ++ [edge_kwargs label (with_hash hash edge_attrs)]) /\
   forall u' v', (u', v') <> (u, v) ->
     get_edge_data g1 u' v' = get_edge_data g u' v').
Proof.
  rewrite add_edge_once_unfold. intros H. bind_inv H as found Hfound.
  destruct (decide (length found = 0)).
  - right. split; [by apply add_edge_get_eq|].
    intros u' v' Hne. by apply (add_edge_get_ne _ _ _ _ _ _ _ H).
  - left. by injection H as <-.
Qed.

Lemma add_edge_once_node_data g u v label edge_attrs g1 n x :
  add_edge_once hash g u v label edge_attrs = Ok g1 ->
  node_data (g_node g) n = Some x -> node_data (g_node g1) n = Some x.
Proof.
  rewrite add_edge_once_unfold. intros H. bind_inv H as found Hfound.
  destruct (decide (length found = 0)).
  - by apply (add_edge_node_data _ _ _ _ _ _ _ H).
  - by injection H as <-.
Qed.

Lemma add_node_again g n a d :
  node_data (g_node g) n = Some d -> d !! SStr "attr_dict" = Some (ODict a) ->
  add_node g n a = Ok g.
Proof.
  intros Hn Hd. unfold add_node. rewrite (touch_node_present _ _ _ _ Hn).
  cbn [mbind result_bind bind].
  rewrite (upsert_id _ _ _ _ Hn) by by apply insert_id. by destruct g.
Qed.

Lemma add_node_node_data g n a g' :
  add_node g n a = Ok g' ->
  exists d, node_data (g_node g') n = Some d /\
            d !! SStr "attr_dict" = Some (ODict a).
Proof.
  intros ->%add_node_Ok. simpl. rewrite node_data_upsert_eq.
  eexists. split; [done|]. apply lookup_insert_eq.
Qed.

(** A node upsert followed by a deduplicated edge, run again on its own
    result, changes nothing. *)
Lemma upsert_link_idempotent g n a u v label edge_attrs g1 :
  (g' ← add_node g n a; add_edge_once hash g' u v label edge_attrs) = Ok g1 ->
  (g' ← add_node g1 n a; add_edge_once hash g' u v label edge_attrs) = Ok g1.
Proof.
  intros H. bind_inv H as g' Hg'.
  destruct (add_node_node_data _ _ _ _ Hg') as (d & Hd & Hattr).
  pose proof (add_edge_once_node_data _ _ _ _ _ _ _ _ H Hd) as Hd1.
  rewrite (add_node_again _ _ _ _ Hd1 Hattr). cbn [mbind result_bind bind].
  by eapply add_edge_once_idempotent.
Qed.

Lemma filterM_found {A} (p : A -> result bool) (xs : list A) (y : A) :
  y ∈ xs -> p y = Ok true ->
  Forall (fun x => exists b, p x = Ok b) xs ->
  exists z zs, filterM p xs = Ok (z :: zs).
Proof.
  intros Hy Hp Hall. induction Hall as [|x xs [b Hb] Hall IH].
  - by apply elem_of_nil in Hy.
  - simpl. apply elem_of_cons in Hy as [<-|Hy].
    + rewrite Hp. cbn [mbind result_bind bind].
      assert (exists zs, filterM p xs = Ok zs) as [zs ->]; [|by eauto].
      clear IH. induction Hall as [|x xs [b' Hb'] Hall IH']; [by eexists|].
      simpl. rewrite Hb'. destruct IH' as [zs ->]. by eexists.
    + destruct (IH Hy) as (z & zs & ->). rewrite Hb.
      cbn [mbind result_bind bind]. destruct b; by eauto.
Qed.

Lemma at_most_one_edge_more_refl g : at_most_one_edge_more g g.
Proof. intros u v. split; [done|lia]. Qed.

Lemma add_edge_once_at_most_one g u v label edge_attrs g1 :
  add_edge_once hash g u v label edge_attrs = Ok g1 ->
  at_most_one_edge_more g g1.
Proof.
  intros [->|[Heq Hne]]%add_edge_once_edges; [apply at_most_one_edge_more_refl|].
  intros u' v'. unfold edges.
  destruct (decide ((u', v') = (u, v))) as [[= -> ->]|Hd].
  - rewrite Heq. cbn [default from_option id]. split.
    + by apply prefix_app_r.
    + rewrite length_app. simpl. lia.
  - rewrite (Hne _ _ Hd). split; [done|lia].
Qed.

(** After the attempt an edge with the identity is there: the one that
    was found, or the one that was added. *)
Lemma add_edge_once_carries g u v label edge_attrs g1 :
  add_edge_once hash g u v label edge_attrs = Ok g1 ->
  exists y, y ∈ edges g1 u v /\ carries_hash (hash edge_attrs) y = Ok true.
Proof.
  intros H. rewrite add_edge_once_unfold in H. bind_inv H as found Hfound.
  destruct found as [|y ys]; simpl in H.
  - exists (edge_kwargs label (with_hash hash edge_attrs)). split.
    + unfold edges. rewrite (add_edge_get_eq _ _ _ _ _ H). simpl.
      apply elem_of_app. right. by apply list_elem_of_singleton.
    + apply carries_hash_stored.
  - injection H as <-. exists y. apply (filterM_elem_of _ _ _ _ Hfound). by left.
Qed.

Lemma add_node_adj g n a g'
 : add_node g n a = Ok g' -> g_adj g' = g_adj g.
Proof. by intros ->%add_node_Ok. Qed.

Lemma at_most_one_edge_more_adj g g' g1 :
  g_adj g' = g_adj g ->
  at_most_one_edge_more g' g1 -> at_most_one_edge_more g g1.
Proof.
  intros Hadj H u v. specialize (H u v).
  unfold edges, get_edge_data in *. by rewrite Hadj in H.
Qed.

End EdgeIdentity.

(** ** Each hashing builder, run twice on a record *)

(** Takes a successful step apart, down to the graph operations. *)
Ltac step_inv H :=
  repeat first
    [ match type of H with
      | mbind _ _ = Ok _ =>
          let x := fresh "x" in let Hx := fresh "Hx" in
          apply mbind_Ok in H as (x & Hx & H)
      | (if negb (isna ?s) then _ else _) = _ =>
          let Hs := fresh "Hs" in
          destruct (isna s) eqn:Hs; cbn [negb] in H
      | (if ?b then _ else _) = _ => is_var b; destruct b
      end
    | match goal with
      | H1 : ?m = Ok ?a, H2 : ?m = Ok ?b |- _ =>
          rewrite H1 in H2; injection H2 as <-
      end ].

(** Runs the step again, reading the record as the first run did. *)
Ltac replay :=
  cbn [mbind result_bind bind];
  repeat match goal with
  | Hx : ?m = _ |- context [?m] =>
      rewrite Hx; cbn [mbind result_bind bind negb]
  end.

Ltac unfold_builders :=
  unfold add_disgenet_disease_subgraph, add_opentargets_location_subgraph,
    add_opentargets_go_subgraph, add_opentargets_pathway_subgraph,
    add_opentargets_drug_subgraph, add_opentargets_disease_subgraph,
    add_wikipathways_subgraph, add_minerva_subgraph,
    add_molmedb_gene_inhibitor, add_bgee_subgraph, add_ppi_subgraph in *.

(** The guard fields of a record that is processed hold a value that is
    not null. *)
Ltac guard_facts Hproc :=
  let try_field f :=
    try (let x := fresh "guard" in let Hx := fresh "Hguard" in
         let Hna := fresh "Hguard_na" in
         destruct (Hproc f) as (x & Hx & Hna);
         [ solve [ unfold guard_read;
                   repeat first [ apply elem_of_cons; left; reflexivity
                                | apply elem_of_cons; right ] ] |];
         apply getitem_Some in Hx) in
  try_field "disease_name"; try_field "location"; try_field "subcellular_loc";
  try_field "pathway_id"; try_field "relation"; try_field "pathwayLabel";
  try_field "InChIKey"; try_field "anatomical_entity_name".

Section Builders.

Context (hash : attrs -> Z).

Lemma foldM_singleton {A B} (f : A -> B -> result A) (a : A) (x : B) :
  foldM f a [x] = f a x.
Proof. simpl. by destruct (f a x). Qed.

Lemma foldM_twice {A B} (f : A -> B -> result A) (a a1 : A) (x : B) :
  f a x = Ok a1 -> f a1 x = Ok a1 -> foldM f a [x; x] = Ok a1.
Proof. intros H H1. simpl. rewrite H. simpl. rewrite H1. done. Qed.

Lemma set_container_node_data g n a :
  exists d, node_data (g_node (set_container g n a)) n = Some d /\
            d !! SStr "attr_dict" = Some (ODict a).
Proof.
  simpl. rewrite node_data_upsert_eq. eexists. split; [done|].
  apply lookup_insert_eq.
Qed.

Lemma set_container_add_node_again g n a a' d :
  node_data (g_node g) n = Some d -> d !! SStr "attr_dict" = Some (ODict a') ->
  exists g2, add_node g n a = Ok g2 /\ set_container g2 n a' = g.
Proof.
  intros Hn Hd. unfold add_node. rewrite (touch_node_present _ _ _ _ Hn).
  eexists. split; [reflexivity|]. unfold set_container; simpl.
  rewrite upsert_upsert. rewrite (upsert_id _ _ _ _ Hn); [by destruct g|].
  simpl. rewrite insert_insert_eq. by apply insert_id.
Qed.

(** Closes the case where the step upserted a node and ended
    with the deduplicated edge (in [H]). *)
Ltac idem_with H :=
  match goal with Hnode : add_node _ _ _ = Ok _ |- _ =>
  let d := fresh "d" in let Hd := fresh "Hd" in
  let Hattr := fresh "Hattr" in let Hd1 := fresh "Hd1" in
  let Hagain := fresh "Hagain" in
  destruct (add_node_node_data _ _ _ _ Hnode) as (d & Hd & Hattr);
  pose proof (add_edge_once_node_data hash _ _ _ _ _ _ _ _ H Hd) as Hd1;
  pose proof (add_node_again _ _ _ _ Hd1 Hattr) as Hagain;
  replay; by eapply add_edge_once_idempotent
  end.

(** The edges after a step that upserted a node and ended with the
    deduplicated edge. *)
Ltac edges_with H :=
  match goal with Hnode : add_node _ _ _ = Ok _ |- _ =>
    eapply at_most_one_edge_more_adj;
      [ eapply add_node_adj; exact Hnode
      | eapply add_edge_once_at_most_one; exact H ]
  end.

(** Closes both cases of a guarded builder. *)
Ltac builder_once H :=
  rewrite !foldM_singleton in *; step_inv H;
  first [ injection H as <-; split;
            [ replay; done | apply at_most_one_edge_more_refl ]
        | split; [ idem_with H | edges_with H ] ].

Lemma add_disgenet_disease_subgraph_once g gene r g1 :
  add_disgenet_disease_subgraph hash g gene [r] = Ok g1 ->
  add_disgenet_disease_subgraph hash g1 gene [r] = Ok g1 /\ at_most_one_edge_more g g1.
Proof. unfold add_disgenet_disease_subgraph. intros H. builder_once H. Qed.

Lemma add_opentargets_location_subgraph_once g gene r g1 :
  add_opentargets_location_subgraph hash g gene [r] = Ok g1 ->
  add_opentargets_location_subgraph hash g1 gene [r] = Ok g1 /\ at_most_one_edge_more g g1.
Proof. unfold add_opentargets_location_subgraph. intros H. builder_once H. Qed.

Lemma add_opentargets_go_subgraph_once g gene r g1 :
  add_opentargets_go_subgraph hash g gene [r] = Ok g1 ->
  add_opentargets_go_subgraph hash g1 gene [r] = Ok g1 /\ at_most_one_edge_more g g1.
Proof. unfold add_opentargets_go_subgraph. intros H. builder_once H. Qed.

Lemma add_opentargets_pathway_subgraph_once g gene r g1 :
  add_opentargets_pathway_subgraph hash g gene [r] = Ok g1 ->
  add_opentargets_pathway_subgraph hash g1 gene [r] = Ok g1 /\ at_most_one_edge_more g g1.
Proof. unfold add_opentargets_pathway_subgraph. intros H. builder_once H. Qed.

Lemma add_opentargets_drug_subgraph_once g gene r g1 :
  add_opentargets_drug_subgraph hash g gene [r] = Ok g1 ->
  add_opentargets_drug_subgraph hash g1 gene [r] = Ok g1 /\ at_most_one_edge_more g g1.
Proof. unfold add_opentargets_drug_subgraph. intros H. builder_once H. Qed.

Lemma add_opentargets_disease_subgraph_once g gene r g1 :
  add_opentargets_disease_subgraph hash g gene [r] = Ok g1 ->
  add_opentargets_disease_subgraph hash g1 gene [r] = Ok g1 /\ at_most_one_edge_more g g1.
Proof. unfold add_opentargets_disease_subgraph. intros H. builder_once H. Qed.

Lemma add_wikipathways_subgraph_once g gene r g1 :
  add_wikipathways_subgraph hash g gene [r] = Ok g1 ->
  add_wikipathways_subgraph hash g1 gene [r] = Ok g1 /\ at_most_one_edge_more g g1.
Proof. unfold add_wikipathways_subgraph. intros H. builder_once H. Qed.

Lemma add_minerva_subgraph_once g gene r g1 :
  add_minerva_subgraph hash g gene [r] = Ok g1 ->
  add_minerva_subgraph hash g1 gene [r] = Ok g1 /\ at_most_one_edge_more g g1.
Proof. unfold add_minerva_subgraph. intros H. builder_once H. Qed.

Lemma add_bgee_subgraph_once g gene r g1 :
  add_bgee_subgraph hash g gene [r] = Ok g1 ->
  add_bgee_subgraph hash g1 gene [r] = Ok g1 /\ at_most_one_edge_more g g1.
Proof. unfold add_bgee_subgraph. intros H. builder_once H. Qed.

Lemma add_ppi_subgraph_once g gene r g1 :
  add_ppi_subgraph hash g gene [r] = Ok g1 ->
  add_ppi_subgraph hash g1 gene [r] = Ok g1 /\ at_most_one_edge_more g g1.
Proof.
  unfold add_ppi_subgraph. intros H. rewrite !foldM_singleton in *.
  step_inv H. split.
  - replay. by eapply add_edge_once_idempotent.
  - by eapply add_edge_once_at_most_one.
Qed.

Lemma add_molmedb_gene_inhibitor_once g gene r g1 :
  add_molmedb_gene_inhibitor hash g gene [r] = Ok g1 ->
  add_molmedb_gene_inhibitor hash g1 gene [r] = Ok g1 /\
  at_most_one_edge_more g g1.
Proof.
  unfold add_molmedb_gene_inhibitor. intros H.
  rewrite !foldM_singleton in *. step_inv H.
  - injection H as <-. split; [replay; done|apply at_most_one_edge_more_refl].
  - cbv zeta in H. split.
    + match type of H with
      | add_edge_once _ (set_container ?g' ?n ?a') _ _ _ _ = _ =>
          destruct (set_container_node_data g' n a') as (d & Hd & Hattr)
      end.
      pose proof (add_edge_once_node_data hash _ _ _ _ _ _ _ _ H Hd) as Hd1.
      match goal with
      | Hnode : add_node _ ?n ?a = Ok _ |- _ =>
          destruct (set_container_add_node_again _ n a _ _ Hd1 Hattr)
            as (g2 & Hg2 & Hback)
      end.
      replay. by eapply add_edge_once_idempotent.
    + match goal with Hnode : add_node _ _ _ = Ok _ |- _ =>
        eapply at_most_one_edge_more_adj; [eapply add_node_adj; exact Hnode|]
      end.
      eapply at_most_one_edge_more_adj;
        [|eapply add_edge_once_at_most_one; exact H].
      done.
Qed.

Lemma hashing_builder_twice b g gene r g1 :
  b ∈ hashing_builders hash ->
  b g gene [r] = Ok g1 ->
  b g1 gene [r] = Ok g1 /\
  b g gene [r; r] = Ok g1 /\
  at_most_one_edge_more g g1.
Proof.
  intros Hb H.
  assert (b g1 gene [r] = Ok g1 /\ at_most_one_edge_more g g1) as [H1 Hle].
  { unfold hashing_builders, func_dict in Hb. cbn [fmap list_fmap snd app] in Hb.
    repeat (apply elem_of_cons in Hb as [->|Hb]);
      [ by apply add_disgenet_disease_subgraph_once
      | by apply add_opentargets_location_subgraph_once
      | by apply add_opentargets_go_subgraph_once
      | by apply add_opentargets_pathway_subgraph_once
      | by apply add_opentargets_drug_subgraph_once
      | by apply add_opentargets_disease_subgraph_once
      | by apply add_wikipathways_subgraph_once
      | by apply add_minerva_subgraph_once
      | by apply add_molmedb_gene_inhibitor_once
      | by apply add_bgee_subgraph_once
      | by apply add_ppi_subgraph_once
      | by apply elem_of_nil in Hb ]. }
  split; [done|]. split; [|done].
  (* every builder is a [foldM] of its step *)
  clear Hle. unfold hashing_builders, func_dict in Hb.
  cbn [fmap list_fmap snd app] in Hb.
  repeat (apply elem_of_cons in Hb as [->|Hb]);
    try (by apply elem_of_nil in Hb);
    unfold_builders; rewrite foldM_singleton in H, H1;
    by apply foldM_twice.
Qed.

(** A processed record reaches the deduplicating insertion, for the pair
    of the gene and the record's entity. *)
Lemma registry_builder_links kb field g gene r entity g1 :
  kb ∈ func_dict hash -> (kb.1, field) ∈ label_read ->
  r !! field = Some entity -> processed kb.1 r ->
  kb.2 g gene [r] = Ok g1 ->
  exists g0 label edge_attrs,
    g_adj g0 = g_adj g /\
    add_edge_once hash g0 (link kb.1 gene entity).1 (link kb.1 gene entity).2
      label edge_attrs = Ok g1.
Proof.
  intros Hkb Hfield Hentity%getitem_Some Hproc H.
  unfold func_dict in Hkb. unfold label_read in Hfield.
  repeat (apply elem_of_cons in Hkb as [->|Hkb]); try (by apply elem_of_nil in Hkb);
    cbn [fst snd] in *;
    repeat (apply elem_of_cons in Hfield as [Hfield|Hfield]);
    try (by apply elem_of_nil in Hfield); try discriminate Hfield;
    injection Hfield as ->;
    guard_facts Hproc;
    unfold_builders; rewrite foldM_singleton in H;
    repeat match goal with
    | Hx : getitem r _ = Ok _ |- _ => rewrite Hx in H
    end;
    cbn [mbind result_bind bind fmap result_fmap negb] in H;
    repeat match goal with
    | Hna : isna _ = false |- _ => rewrite Hna in H
    end;
    cbn [mbind result_bind bind fmap result_fmap negb] in H;
    step_inv H; try (cbv zeta in H);
    match goal with
    | Hn : add_node _ _ _ = Ok _ |- _ => apply add_node_adj in Hn
    end;
    (eexists _, _, _; split; [|exact H]; simpl; congruence).
Qed.

Lemma linked_exactly_once g g0 u v label edge_attrs g1 :
  g_adj g0 = g_adj g ->
  add_edge_once hash g0 u v label edge_attrs = Ok g1 ->
  (exists y, y ∈ edges g1 u v) /\
  (edges g u v = [] -> exists y, edges g1 u v = [y]).
Proof.
  intros Hadj H.
  destruct (add_edge_once_carries _ _ _ _ _ _ _ H) as (y & Hy & _).
  split; [by exists y|]. intros Hnone.
  assert (edges g0 u v = []) as Hnone0
    by (unfold edges, get_edge_data in *; by rewrite Hadj).
  destruct (add_edge_once_edges _ _ _ _ _ _ _ H) as [->|[Hnew _]].
  - rewrite Hnone0 in Hy. by apply elem_of_nil in Hy.
  - unfold edges in *. rewrite Hnew. simpl. rewrite Hnone0. by eexists.
Qed.

(** C3. A record that a registry builder processes leaves an edge between
    the gene and the record's entity (from the drug to the gene for the
    drug builder of OpenTargets, from the gene to the entity otherwise);
    so does a record of the interaction builder, from the gene to the
    partner. Processing the record a second time changes nothing: the list
    [[r; r]] gives the graph [[r]] gives, and when the pair had no edge it
    has exactly one. For every builder that deduplicates by edge identity
    no ordered pair gains more than one edge from a record and the edges
    that were there are as they were. The mechanism: when an edge between
    the endpoints carries the identity hash of the candidate,
    [add_edge_once] returns the graph as it is; and after any attempt an
    edge with that identity is there, so that the next attempt changes
    nothing. *)
Theorem edge_insertion_idempotent :
  (forall kb field g gene r entity g1,
     kb ∈ func_dict hash -> (kb.1, field) ∈ label_read ->
     r !! field = Some entity -> processed kb.1 r ->
     kb.2 g gene [r] = Ok g1 ->
     (exists y, y ∈ edges g1 (link kb.1 gene entity).1 (link kb.1 gene entity).2) /\
     kb.2 g gene [r; r] = Ok g1 /\
     (edges g (link kb.1 gene entity).1 (link kb.1 gene entity).2 = [] ->
      exists y,
        edges g1 (link kb.1 gene entity).1 (link kb.1 gene entity).2 = [y])) /\
  (forall g gene r partner g1,
     r !! "stringdb_link_to" = Some partner ->
     add_ppi_subgraph hash g gene [r] = Ok g1 ->
     (exists y, y ∈ edges g1 gene partner) /\
     add_ppi_subgraph hash g gene [r; r] = Ok g1 /\
     (edges g gene partner = [] -> exists y, edges g1 gene partner = [y])) /\
  (forall b, b ∈ hashing_builders hash ->
     forall g gene r g1,
       b g gene [r] = Ok g1 ->
       b g1 gene [r] = Ok g1 /\
       b g gene [r; r] = Ok g1 /\
       at_most_one_edge_more g g1) /\
  (forall g u v label edge_attrs y,
     y ∈ edges g u v ->
     carries_hash (hash edge_attrs) y = Ok true ->
     Forall (fun x => exists b, carries_hash (hash edge_attrs) x = Ok b)
       (edges g u v) ->
     add_edge_once hash g u v label edge_attrs = Ok g) /\
  (forall g u v label edge_attrs g1,
     add_edge_once hash g u v label edge_attrs = Ok g1 ->
     (exists y, y ∈ edges g1 u v /\
                carries_hash (hash edge_attrs) y = Ok true) /\
     add_edge_once hash g1 u v label edge_attrs = Ok g1 /\
     at_most_one_edge_more g g1).
Proof.
  split; [|split; [|split; [|split]]].
  - intros kb field g gene r entity g1 Hkb Hfield Hentity Hproc H.
    destruct (registry_builder_links _ _ _ _ _ _ _ Hkb Hfield Hentity Hproc H)
      as (g0 & label & edge_attrs & Hadj & Hlink).
    destruct (linked_exactly_once _ _ _ _ _ _ _ Hadj Hlink) as [Hex Hone].
    split; [done|]. split; [|done].
    apply (hashing_builder_twice kb.2); [|done].
    unfold hashing_builders. apply elem_of_app. left.
    apply list_elem_of_fmap. by exists kb.
  - intros g gene r partner g1 Hpartner%getitem_Some H.
    assert (add_ppi_subgraph hash g gene [r; r] = Ok g1) as Htwice.
    { apply (hashing_builder_twice (add_ppi_subgraph hash)); [|done].
      unfold hashing_builders. apply elem_of_app. right. by left. }
    unfold_builders. rewrite foldM_singleton in H. step_inv H.
    destruct (linked_exactly_once g _ _ _ _ _ _ eq_refl H) as [Hex Hone].
    by repeat split.
  - intros b Hb g gene r g1. by apply hashing_builder_twice.
  - intros g u v label edge_attrs y Hy Hcarries Hall.
    destruct (filterM_found _ _ _ Hy Hcarries Hall) as (z & zs & Hfound).
    by eapply add_edge_once_present.
  - intros g u v label edge_attrs g1 H. split; [|split].
    + by eapply add_edge_once_carries.
    + by eapply add_edge_once_idempotent.
    + by eapply add_edge_once_at_most_one.
Qed.

(** The guard of the builders that have one: a record whose identifying
    field is null is passed over. The GO builder has no such guard. *)
Lemma null_identifying_field_is_skipped g gene r rest x :
  isna x = true ->
  (r !! "disease_name" = Some x ->
     add_disgenet_disease_subgraph hash g gene (r :: rest)
       = add_disgenet_disease_subgraph hash g gene rest) /\
  (r !! "location" = Some x ->
     add_opentargets_location_subgraph hash g gene (r :: rest)
       = add_opentargets_location_subgraph hash g gene rest) /\
  (r !! "pathway_id" = Some x ->
     add_opentargets_pathway_subgraph hash g gene (r :: rest)
       = add_opentargets_pathway_subgraph hash g gene rest) /\
  (r !! "relation" = Some x ->
     add_opentargets_drug_subgraph hash g gene (r :: rest)
       = add_opentargets_drug_subgraph hash g gene rest) /\
  (r !! "disease_name" = Some x ->
     add_opentargets_disease_subgraph hash g gene (r :: rest)
       = add_opentargets_disease_subgraph hash g gene rest) /\
  (r !! "pathwayLabel" = Some x ->
     add_wikipathways_subgraph hash g gene (r :: rest)
       = add_wikipathways_subgraph hash g gene rest) /\
  (r !! "InChIKey" = Some x ->
     add_molmedb_gene_inhibitor hash g gene (r :: rest)
       = add_molmedb_gene_inhibitor hash g gene rest) /\
  (r !! "anatomical_entity_name" = Some x ->
     add_bgee_subgraph hash g gene (r :: rest)
       = add_bgee_subgraph hash g gene rest) /\
  (r !! "pathwayLabel" = Some x ->
     add_minerva_subgraph hash g gene (r :: rest)
       = add_minerva_subgraph hash g gene rest).
Proof.
  intros Hna. repeat split; intros Hr; unfold_builders; rewrite foldM_cons;
    unfold getitem; rewrite Hr; cbn [mbind result_bind bind]; by rewrite Hna.
Qed.

End Builders.
(** ** The drug-disease builder *)

Section DrugDisease.

Context (hash : attrs -> Z).

Implicit Types (g : Graph) (gene umls : scalar).

Lemma drug_disease_step g gene ddi rest umls :
  ddi !! "umls" = Some umls ->
  add_drug_disease_subgraph hash g (VScalar gene) (ddi :: rest) =
    g' ← (if has_edge g umls gene then Ok g
          else add_edge g umls gene
                 (edge_kwargs (VScalar "treated_with") (treated_with_attrs hash)));
    add_drug_disease_subgraph hash g' (VScalar gene) rest.
Proof.
  intros Hu. unfold add_drug_disease_subgraph at 1. rewrite foldM_cons.
  unfold getitem. rewrite Hu. cbn [mbind result_bind bind].
  by destruct (has_edge g umls gene).
Qed.

Lemma drug_disease_record_linked g gene ddi umls :
  ddi !! "umls" = Some umls -> has_edge g umls gene = true ->
  add_drug_disease_subgraph hash g (VScalar gene) [ddi] = Ok g.
Proof.
  intros Hu Hhas. rewrite (drug_disease_step _ _ _ _ _ Hu), Hhas. done.
Qed.

Lemma drug_disease_record_links g gene ddi umls :
  ddi !! "umls" = Some umls -> has_edge g umls gene = false ->
  umls <> SNone -> gene <> SNone ->
  exists g',
    add_drug_disease_subgraph hash g (VScalar gene) [ddi] = Ok g' /\
    get_edge_data g' umls gene =
      Some [edge_kwargs (VScalar "treated_with") (treated_with_attrs hash)] /\
    forall u v, (u, v) <> (umls, gene) ->
      get_edge_data g' u v = get_edge_data g u v.
Proof.
  intros Hu Hhas Hn Hg. rewrite (drug_disease_step _ _ _ _ _ Hu), Hhas.
  pose proof (add_edge_not_None g umls gene
    (edge_kwargs (VScalar "treated_with") (treated_with_attrs hash)) Hn Hg) as Hadd.
  rewrite Hadd. eexists. split; [reflexivity|]. split.
  - rewrite (add_edge_get_eq _ _ _ _ _ Hadd).
    apply has_edge_false in Hhas. by rewrite Hhas.
  - intros u v Hne. by apply (add_edge_get_ne _ _ _ _ _ _ _ Hadd).
Qed.

(** The builder on a whole list: it returns, and the pair of every record
    has the edges it had, or the one [treated_with] edge if it had none;
    no other pair is touched. *)
Lemma drug_disease_records_link gene recs :
  gene <> SNone ->
  (forall rec, rec ∈ recs ->
     exists umls, rec !! "umls" = Some umls /\ umls <> SNone) ->
  forall g, exists g',
    add_drug_disease_subgraph hash g (VScalar gene) recs = Ok g' /\
    (forall rec umls, rec ∈ recs -> rec !! "umls" = Some umls ->
       get_edge_data g' umls gene =
         if has_edge g umls gene then get_edge_data g umls gene
         else Some [edge_kwargs (VScalar "treated_with")
                      (treated_with_attrs hash)]) /\
    (forall u v,
       v <> gene \/ (forall rec, rec ∈ recs -> rec !! "umls" <> Some u) ->
       get_edge_data g' u v = get_edge_data g u v).
Proof.
  intros Hgene. induction recs as [|ddi recs IH]; intros Hrecs g.
  - exists g. split; [done|]. split; [|done]. by intros rec umls ?%elem_of_nil.
  - destruct (Hrecs ddi) as (u0 & Hu0 & Hn0); [by left|].
    assert (exists g1,
      (if has_edge g u0 gene then Ok g
       else add_edge g u0 gene
              (edge_kwargs (VScalar "treated_with") (treated_with_attrs hash)))
        = Ok g1 /\
      get_edge_data g1 u0 gene =
        (if has_edge g u0 gene then get_edge_data g u0 gene
         else Some [edge_kwargs (VScalar "treated_with")
                      (treated_with_attrs hash)]) /\
      forall u v, (u, v) <> (u0, gene) ->
        get_edge_data g1 u v = get_edge_data g u v) as (g1 & Hg1 & Hpair & Hother).
    { destruct (has_edge g u0 gene) eqn:Hhas; [by exists g|].
      pose proof (add_edge_not_None g u0 gene
        (edge_kwargs (VScalar "treated_with") (treated_with_attrs hash))
        Hn0 Hgene) as Hadd.
      eexists. split; [exact Hadd|]. split.
      - rewrite (add_edge_get_eq _ _ _ _ _ Hadd).
        apply has_edge_false in Hhas. by rewrite Hhas.
      - intros u v Hne. by apply (add_edge_get_ne _ _ _ _ _ _ _ Hadd). }
    assert (has_edge g1 u0 gene = true) as Hlinked.
    { apply has_edge_true. rewrite Hpair.
      destruct (has_edge g u0 gene) eqn:Hhas; [by apply has_edge_true|by eexists]. }
    assert (forall rec, rec ∈ recs ->
              exists umls, rec !! "umls" = Some umls /\ umls <> SNone) as Hrecs'
      by (intros rec Hrec; apply Hrecs; by right).
    destruct (IH Hrecs' g1) as (g' & Hg' & Hrest & Hframe).
    exists g'. rewrite (drug_disease_step _ _ _ _ _ Hu0), Hg1.
    split; [exact Hg'|]. split.
    + intros rec umls Hrec Hu.
      destruct (decide (umls = u0)) as [->|Hne].
      * transitivity (get_edge_data g1 u0 gene); [|exact Hpair].
        destruct (decide (Exists (fun rec => rec !! "umls" = Some u0) recs))
          as [Hex|Hno].
        -- apply Exists_exists in Hex as (rec' & Hrec' & Hu').
           rewrite (Hrest rec' u0 Hrec' Hu'). by rewrite Hlinked.
        -- apply Hframe. right. intros rec' Hrec' Hu'. apply Hno.
           apply Exists_exists. by exists rec'.
      * apply elem_of_cons in Hrec as [->|Hrec]; [congruence|].
        rewrite (Hrest rec umls Hrec Hu).
        assert ((umls, gene) <> (u0, gene)) as Hpne by congruence.
        rewrite (Hother _ _ Hpne).
        replace (has_edge g1 umls gene) with (has_edge g umls gene); [done|].
        unfold has_edge. unfold get_edge_data in Hother.
        by rewrite (Hother _ _ Hpne).
    + intros u v Huv. rewrite Hframe.
      * apply Hother. intros [= -> ->]. destruct Huv as [Hv|Hu]; [done|].
        by apply (Hu ddi); [left|].
      * destruct Huv as [Hv|Hu]; [by left|]. right.
        intros rec Hrec. apply Hu. by right.
Qed.

(** C9. For every drug-disease record, with disease identifier [umls], met
    by the builder for the gene label [gene], the builder looks whether any
    edge at all goes from [umls] to [gene]. If one does, it returns the
    graph as it is. If none does, it returns the graph with exactly one
    edge from the disease identifier to the gene label, the [treated_with]
    edge, the edges of every other ordered pair, the reverse pair among
    them, as they were. On a list of records it does so for each in turn:
    it returns a graph in which the pair of every record has the edges it
    had before the call or, if it had none, the one [treated_with] edge,
    and no other pair has changed. *)
Theorem drug_disease_edge_direction_and_existence_check g gene :
  gene <> SNone ->
  (forall ddi umls,
     ddi !! "umls" = Some umls -> has_edge g umls gene = true ->
     add_drug_disease_subgraph hash g (VScalar gene) [ddi] = Ok g) /\
  (forall ddi umls,
     ddi !! "umls" = Some umls -> has_edge g umls gene = false ->
     umls <> SNone ->
     exists g',
       add_drug_disease_subgraph hash g (VScalar gene) [ddi] = Ok g' /\
       get_edge_data g' umls gene =
         Some [edge_kwargs (VScalar "treated_with") (treated_with_attrs hash)] /\
       forall u v, (u, v) <> (umls, gene) ->
         get_edge_data g' u v = get_edge_data g u v) /\
  (forall recs,
     (forall rec, rec ∈ recs ->
        exists umls, rec !! "umls" = Some umls /\ umls <> SNone) ->
     exists g',
       add_drug_disease_subgraph hash g (VScalar gene) recs = Ok g' /\
       (forall rec umls, rec ∈ recs -> rec !! "umls" = Some umls ->
          get_edge_data g' umls gene =
            if has_edge g umls gene then get_edge_data g umls gene
            else Some [edge_kwargs (VScalar "treated_with")
                         (treated_with_attrs hash)]) /\
       (forall u v,
          v <> gene \/ (forall rec, rec ∈ recs -> rec !! "umls" <> Some u) ->
          get_edge_data g' u v = get_edge_data g u v)).
Proof.
  intros Hgene. split; [|split].
  - intros ddi umls. apply drug_disease_record_linked.
  - intros ddi umls Hu Hhas Hn. by apply drug_disease_record_links.
  - intros recs Hrecs. by apply drug_disease_records_link.
Qed.

End DrugDisease.

(** ** Which exceptions can escape *)

Lemma raises_foldM_invariant {A B} (E : exn -> Prop) (P : A -> Prop)
    (f : A -> B -> result A) (xs : list B) :
  (forall a x, x ∈ xs -> P a ->
     raises E (f a x) /\ forall a', f a x = Ok a' -> P a') ->
  forall a, P a -> raises E (foldM f a xs).
Proof.
  induction xs as [|x xs IH]; intros Hstep a Ha.
  - apply raises_Ok.
  - rewrite foldM_cons. destruct (Hstep a x) as [Hr Hp]; [by left|done|].
    apply raises_bind; [done|]. intros a' Ha'. apply IH; [|by apply Hp].
    intros ? ? ? ?. apply Hstep; [by right|done].
Qed.

Section NoNameError.

Context (hash : attrs -> Z).

Local Abbreviation E := not_NameError.

Ltac raises_step :=
  first
    [ apply raises_Ok
    | apply raises_Err; discriminate
    | apply raises_foldM; intros ? ?
    | apply raises_bind; [|intros ? _]
    | apply raises_fmap
    | apply raises_filterM; intros ?
    | apply raises_traverse; intros ?
    | match goal with
      | |- raises _ (if ?b then _ else _) => destruct b
      | |- raises _ (match ?x with _ => _ end) => destruct x
      | |- raises _ (let _ := _ in _) => cbv zeta
      end ].

Lemma getitem_raises r k : raises E (getitem r k).
Proof. unfold getitem. repeat raises_step. Qed.

Lemma row_getitem_raises row c : raises E (row_getitem row c).
Proof. unfold row_getitem. repeat raises_step. Qed.

Lemma display_raises r l : raises E (display r l).
Proof.
  unfold display. generalize (∅ : attrs).
  induction l as [|[k e] l IH]; intros acc; simpl; [apply raises_Ok|].
  apply raises_bind; [|intros; apply IH].
  destruct e; simpl; repeat first [apply getitem_raises | raises_step].
Qed.

Lemma set_if_notna_raises r a c k f : raises E (set_if_notna r a c k f).
Proof.
  unfold set_if_notna. repeat first [apply getitem_raises | raises_step].
Qed.

Lemma touch_node_raises n f l : raises E (touch_node n f l).
Proof. unfold touch_node. repeat raises_step. Qed.

Lemma add_node_raises g n a : raises E (add_node g n a).
Proof. unfold add_node. repeat first [apply touch_node_raises | raises_step]. Qed.

Lemma add_edge_raises g u v d : raises E (add_edge g u v d).
Proof. unfold add_edge. repeat first [apply touch_node_raises | raises_step]. Qed.

Lemma carries_hash_raises h y : raises E (carries_hash h y).
Proof.
  unfold carries_hash, data_getitem, subscript.
  repeat first [apply getitem_raises | raises_step].
Qed.

Lemma add_edge_once_raises g u v label edge_attrs :
  raises E (add_edge_once hash g u v label edge_attrs).
Proof.
  rewrite add_edge_once_unfold.
  repeat first [apply carries_hash_raises | apply add_edge_raises | raises_step].
Qed.

Ltac raises_auto_step :=
  first
    [ apply getitem_raises | apply row_getitem_raises | apply display_raises
    | apply set_if_notna_raises | apply add_node_raises | apply add_edge_raises
    | apply add_edge_once_raises | raises_step ].

Ltac raises_auto := repeat raises_auto_step.

Lemma hashing_builder_raises b g gene annot_list :
  b ∈ hashing_builders hash -> raises E (b g gene annot_list).
Proof.
  intros Hb. unfold hashing_builders, func_dict in Hb.
  cbn [fmap list_fmap snd app] in Hb.
  repeat (apply elem_of_cons in Hb as [->|Hb]);
    try (by apply elem_of_nil in Hb);
    unfold add_disgenet_disease_subgraph, add_opentargets_location_subgraph,
      add_opentargets_go_subgraph, add_opentargets_pathway_subgraph,
      add_opentargets_drug_subgraph, add_opentargets_disease_subgraph,
      add_wikipathways_subgraph, add_minerva_subgraph,
      add_molmedb_gene_inhibitor, add_bgee_subgraph, add_ppi_subgraph;
    raises_auto.
Qed.

Lemma add_drug_disease_subgraph_raises g gene annot_list :
  raises E (add_drug_disease_subgraph hash g gene annot_list).
Proof. unfold add_drug_disease_subgraph. raises_auto. Qed.

Lemma dispatch_raises row gene g kb :
  kb ∈ func_dict hash -> raises E (dispatch row gene g kb).
Proof.
  intros Hkb. unfold dispatch. raises_auto.
  apply hashing_builder_raises. unfold hashing_builders.
  apply elem_of_app. left. apply list_elem_of_fmap. by exists kb.
Qed.

Lemma dispatch_all_raises row gene g :
  raises E (foldM (dispatch row gene) g (func_dict hash)).
Proof.
  apply (raises_foldM_invariant E (fun _ => True)); [|done].
  intros g' kb Hkb _. split; [by apply dispatch_raises|done].
Qed.

Lemma gene_row_raises dea st row : raises E (gene_row hash dea st row).
Proof.
  unfold gene_row, gene_node_attrs, hashable.
  repeat first [ apply dispatch_all_raises | raises_auto_step ].
Qed.

Lemma gene_row_bound dea st row st' :
  gene_row hash dea st row = Ok st' -> bound st'.
Proof.
  unfold gene_row. intros H.
  repeat match type of H with
  | mbind _ _ = Ok _ =>
      let x := fresh "x" in let Hx := fresh "Hx" in
      apply mbind_Ok in H as (x & Hx & H)
  end.
  injection H as <-. split; simpl; eauto.
Qed.

Lemma first_pass_bound fuse_df st st' :
  rows fuse_df <> [] -> first_pass hash fuse_df st = Ok st' -> bound st'.
Proof.
  unfold first_pass. intros Hne H.
  destruct (rows fuse_df) as [|row rs _] using rev_ind; [done|].
  rewrite foldM_app in H. apply mbind_Ok in H as (st1 & _ & H).
  rewrite foldM_singleton in H. by eapply gene_row_bound.
Qed.

Lemma ppi_row_raises st row :
  bound st -> raises E (ppi_row hash st row) /\
              forall st', ppi_row hash st row = Ok st' -> bound st'.
Proof.
  intros [Hrow [gene Hgene]]. unfold ppi_row. rewrite Hgene. split.
  - unfold records_of_iterable, read_local. raises_auto.
  - intros st' H.
    repeat match type of H with
    | mbind _ _ = Ok _ =>
        let x := fresh "x" in let Hx := fresh "Hx" in
        apply mbind_Ok in H as (x & Hx & H)
    end.
    injection H as <-. split; simpl; eauto.
Qed.

Lemma drug_disease_row_raises st row :
  bound st -> raises E (drug_disease_row hash st row) /\
              forall st', drug_disease_row hash st row = Ok st' -> bound st'.
Proof.
  intros [Hrow [gene Hgene]]. unfold drug_disease_row. split.
  - unfold records_of_iterable. raises_auto.
  - intros st' H.
    repeat match type of H with
    | mbind _ _ = Ok _ =>
        let x := fresh "x" in let Hx := fresh "Hx" in
        apply mbind_Ok in H as (x & Hx & H)
    end.
    injection H as <-. rewrite Hgene. split; simpl; eauto.
Qed.

Lemma interaction_pass_raises fuse_df st :
  bound st -> raises E (interaction_pass hash fuse_df st) /\
              forall st', interaction_pass hash fuse_df st = Ok st' -> bound st'.
Proof.
  intros Hb. pose proof Hb as [[row Hrow] _]. unfold interaction_pass.
  rewrite Hrow. cbn [read_local mbind result_bind bind].
  destruct (row_contains row "stringdb").
  - split.
    + apply raises_foldM_invariant with (P := bound); [|done].
      intros a x _ Ha. by apply ppi_row_raises.
    + intros st' H. eapply (foldM_invariant bound); [|exact Hb|exact H].
      intros a x a' _ Ha. by apply ppi_row_raises.
  - split; [apply raises_Ok|by intros ? [= <-]].
Qed.

Lemma drug_disease_pass_raises fuse_df drug_disease st :
  bound st -> raises E (drug_disease_pass hash fuse_df drug_disease st).
Proof.
  intros Hb. pose proof Hb as [[row Hrow] _]. unfold drug_disease_pass.
  destruct drug_disease as [dd|]; [|apply raises_Ok].
  apply raises_bind; [unfold select; raises_auto|]. intros sel _. cbv zeta.
  rewrite Hrow. cbn [read_local mbind result_bind bind].
  destruct (row_contains row "drug_diseases"); [|apply raises_Ok].
  apply raises_foldM_invariant with (P := bound); [|done].
  intros a x _ Ha. by apply drug_disease_row_raises.
Qed.

Lemma finalize_raises g : raises E (finalize g).
Proof.
  unfold finalize, finalize_node, finalize_edge, data_getitem, items.
  raises_auto.
Qed.

(** C10. [generate_networkx_graph] needs a table with at least one row. On
    a table with no row the first loop binds nothing, the test
    ["stringdb" in row] reads a variable that was never bound and the call
    raises [NameError]; on a table with a row the call never raises
    [NameError]. *)
Theorem generate_networkx_graph_needs_a_row fuse_df drug_disease :
  (rows fuse_df = [] ->
     generate_networkx_graph hash fuse_df drug_disease = Err NameError) /\
  (rows fuse_df <> [] ->
     generate_networkx_graph hash fuse_df drug_disease <> Err NameError).
Proof.
  split.
  - intros Hrows. unfold generate_networkx_graph, assemble, first_pass.
    by rewrite Hrows.
  - intros Hrows Hgen.
    assert (raises E (generate_networkx_graph hash fuse_df drug_disease)) as Hr;
      [|exact (Hr _ Hgen eq_refl)].
    unfold generate_networkx_graph, assemble.
    apply raises_bind; [|intros; apply finalize_raises].
    apply raises_bind.
    { unfold first_pass. apply raises_foldM. intros. apply gene_row_raises. }
    intros st Hst. apply first_pass_bound in Hst; [|done].
    apply raises_bind; [by apply interaction_pass_raises|].
    intros st1 Hst1. apply interaction_pass_raises in Hst1; [|done].
    apply raises_bind; [by apply drug_disease_pass_raises|].
    intros; apply raises_Ok.
Qed.

End NoNameError.

(** ** Flattening the attribute containers *)

Section Flatten.

Implicit Types (d : dict) (a : attrs) (k : scalar).

(** The loop [for k, v in a.items(): if p(k, v): d[k] = v], key by key. *)
Lemma map_fold_set_lookup (p : scalar -> value -> bool) d a k :
  map_fold (fun k v d => if p k v then <[k := OVal v]> d else d) d a !! k =
    match a !! k with
    | Some v => if p k v then Some (OVal v) else d !! k
    | None => d !! k
    end.
Proof.
  revert k. apply (map_fold_weak_ind (fun r m => forall k,
    r !! k = match m !! k with
             | Some v => if p k v then Some (OVal v) else d !! k
             | None => d !! k
             end)).
  - intros k. by rewrite lookup_empty.
  - intros i x m r Hi IH k. destruct (decide (i = k)) as [->|Hne].
    + rewrite lookup_insert_eq. destruct (p k x).
      * by rewrite lookup_insert_eq.
      * rewrite IH, Hi. done.
    + rewrite lookup_insert_ne by done. destruct (p i x).
      * rewrite lookup_insert_ne by done. apply IH.
      * apply IH.
Qed.

Lemma promoted_lookup a k :
  promoted a !! k =
    match a !! k with
    | Some v =>
        if is_None v then None
        else if decide (k = SStr "attr_dict") then None else Some (OVal v)
    | None => None
    end.
Proof.
  unfold promoted. rewrite lookup_fmap, map_lookup_filter.
  destruct (a !! k) as [v|]; simpl; [|done].
  destruct (is_None v) eqn:Hv.
  - rewrite option_guard_False; [done|]. by intros [? _].
  - destruct (decide (k = SStr "attr_dict")) as [->|Hk].
    + rewrite option_guard_False; [done|]. by intros [_ ?].
    + by rewrite option_guard_True.
Qed.

(** A [None] is never written. *)
Lemma promoted_not_None a k : promoted a !! k <> Some (OVal (VScalar SNone)).
Proof.
  rewrite promoted_lookup. destruct (a !! k) as [v|]; [|done].
  destruct (is_None v) eqn:Hv; [done|]. case_decide; [done|].
  intros [= ->]. done.
Qed.

Lemma finalize_node_container a :
  finalize_node {[SStr "attr_dict" := ODict a]} = Ok (promoted a).
Proof.
  unfold finalize_node, data_getitem. rewrite lookup_singleton_eq.
  cbn [mbind result_bind bind items]. f_equal. apply map_eq. intros k.
  rewrite promoted_lookup.
  destruct (decide (k = SStr "attr_dict")) as [->|Hk].
  - rewrite lookup_delete_eq. destruct (a !! SStr "attr_dict") as [v|]; [|done].
    by destruct (is_None v).
  - rewrite lookup_delete_ne by done.
    rewrite (map_fold_set_lookup (fun _ v => negb (is_None v))).
    rewrite lookup_singleton_ne by done.
    destruct (a !! k) as [v|]; [|done]. by destruct (is_None v).
Qed.

Lemma finalize_node_no_container : finalize_node ∅ = Err (KeyError "attr_dict").
Proof. done. Qed.

End Flatten.

(** ** A node written to several times *)

Section LastWrite.

Implicit Types (g : Graph) (n : scalar) (ops : list op).

Lemma node_data_touch m n (l : list (scalar * dict)) :
  node_data (upsert m (fun d => d) l) n =
    match node_data l n with
    | Some d => Some d
    | None => if decide (m = n) then Some ∅ else None
    end.
Proof.
  destruct (decide (m = n)) as [->|Hne].
  - rewrite node_data_upsert_eq. by destruct (node_data l n).
  - rewrite node_data_upsert_ne by done. by destruct (node_data l n).
Qed.

(** The data of a node after a run of writes: the container of its last
    upsert and nothing else; without an upsert, no node, or the empty data
    of a node that only ever was the endpoint of an edge. *)
Lemma run_ops_node_data ops g n :
  foldM run_op empty_graph ops = Ok g ->
  match last_upsert n ops with
  | Some a => node_data (g_node g) n = Some {[SStr "attr_dict" := ODict a]}
  | None => node_data (g_node g) n = None \/ node_data (g_node g) n = Some ∅
  end.
Proof.
  revert g. induction ops as [|o ops IH] using rev_ind; intros g Hrun.
  - injection Hrun as <-. by left.
  - rewrite foldM_app in Hrun. apply mbind_Ok in Hrun as (g0 & Hg0 & Hrun).
    rewrite foldM_singleton in Hrun. specialize (IH _ Hg0).
    unfold last_upsert. rewrite foldl_app. fold (last_upsert n ops). simpl.
    destruct o as [m a|u v l a]; simpl in Hrun.
    + apply add_node_Ok in Hrun as ->. simpl.
      destruct (decide (m = n)) as [->|Hne].
      * rewrite node_data_upsert_eq.
        destruct (last_upsert n ops) as [a0|].
        -- rewrite IH. simpl. by rewrite insert_singleton_eq.
        -- destruct IH as [-> | ->]; simpl; by rewrite insert_empty.
      * by rewrite node_data_upsert_ne.
    + apply add_edge_Ok in Hrun as ->. simpl. rewrite !node_data_touch.
      destruct (last_upsert n ops) as [a0|].
      * by rewrite IH.
      * destruct IH as [-> | ->]; [|by right].
        destruct (decide (u = n)); [by right|].
        destruct (decide (v = n)); [by right|by left].
Qed.

(** The node flattened: the last upsert of its label, without its [None]
    entries. *)
Lemma last_upsert_flattened ops g n a d :
  foldM run_op empty_graph ops = Ok g ->
  last_upsert n ops = Some a ->
  node_data (g_node g) n = Some d ->
  finalize_node d = Ok (promoted a).
Proof.
  intros Hrun Hlast Hd. pose proof (run_ops_node_data _ _ n Hrun) as Hn.
  rewrite Hlast, Hd in Hn. injection Hn as ->. apply finalize_node_container.
Qed.

Lemma promoted_lookup_Some (a : attrs) (k : scalar) (x : value) :
  promoted a !! k = Some (OVal x) <->
  a !! k = Some x /\ is_None x = false /\ k <> SStr "attr_dict".
Proof.
  rewrite promoted_lookup. destruct (a !! k) as [x'|].
  - destruct (is_None x') eqn:Hx'.
    + split; [done|]. intros ([= ->] & Hx & _). congruence.
    + destruct (decide (k = SStr "attr_dict")) as [Hk|Hk].
      * split; [done|]. by intros (_ & _ & ?).
      * split; [by intros [= ->]|]. by intros ([= ->] & _).
  - split; [done|]. by intros (? & _).
Qed.

End LastWrite.

(** ** The graph the three passes build is a run of writes *)

Section Written.

Context (hash : attrs -> Z).
Context (P : attrs -> Prop).

(** The builders only upsert attribute dictionaries without an
    ["edge_hash"] entry. *)
Context (HP : forall a, no_hash_key a -> P a).

Implicit Types (g : Graph) (n u v : scalar) (a : attrs).

Lemma written_empty : written P empty_graph.
Proof. exists []. by split. Qed.

Lemma written_step g o g' :
  written P g ->
  match o with Upsert _ a => P a | Link _ _ _ _ => True end ->
  run_op g o = Ok g' -> written P g'.
Proof.
  intros (ops & Hall & Hrun) Ho Hstep. exists (ops ++ [o]). split.
  - apply Forall_app. split; [done|]. by constructor.
  - rewrite foldM_app, Hrun. cbn [mbind result_bind bind].
    by rewrite foldM_singleton.
Qed.

Lemma written_add_node g n a g' :
  written P g -> P a -> add_node g n a = Ok g' -> written P g'.
Proof. intros Hg Ha H. by apply (written_step g (Upsert n a)). Qed.

Lemma written_add_edge g u v l a g' :
  written P g -> add_edge g u v (edge_kwargs l a) = Ok g' -> written P g'.
Proof. intros Hg H. by apply (written_step g (Link u v l a)). Qed.

(** A write through the alias of a container is an upsert of a node that is
    there. *)
Lemma written_set_container g n a d :
  written P g -> P a -> node_data (g_node g) n = Some d ->
  written P (set_container g n a).
Proof.
  intros Hg Ha Hn. apply (written_add_node g n a); [done..|].
  unfold add_node. by rewrite (touch_node_present _ _ _ _ Hn).
Qed.

Lemma written_add_edge_once g u v l a g' :
  written P g -> add_edge_once hash g u v l a = Ok g' -> written P g'.
Proof.
  intros Hg H. rewrite add_edge_once_unfold in H.
  apply mbind_Ok in H as (found & _ & H).
  destruct (decide (length found = 0)).
  - by eapply written_add_edge.
  - by injection H as <-.
Qed.

(** *** The keys of the attribute dictionaries the builders make *)

Lemma display_from_other acc r l a key :
  forallb (fun e => negb (String.eqb e.1 key)) l = true ->
  display_from acc r l = Ok a -> a !! SStr key = acc !! SStr key.
Proof.
  revert acc. induction l as [|[k e] l IH]; intros acc Hl H; simpl in *.
  - by injection H as <-.
  - apply andb_prop in Hl as [Hk Hl]. apply mbind_Ok in H as (x & _ & H).
    rewrite (IH _ Hl H). unfold setitem. apply lookup_insert_ne.
    intros [= ->]. by rewrite String.eqb_refl in Hk.
Qed.

Lemma display_no_hash_key r l a :
  forallb (fun e => negb (String.eqb e.1 "edge_hash")) l = true ->
  display r l = Ok a -> no_hash_key a.
Proof.
  intros Hl H. unfold no_hash_key. by rewrite (display_from_other _ _ _ _ _ Hl H).
Qed.

Lemma set_if_notna_no_hash_key r a c k f a' :
  String.eqb k "edge_hash" = false ->
  set_if_notna r a c k f = Ok a' -> no_hash_key a -> no_hash_key a'.
Proof.
  intros Hk H Ha. unfold set_if_notna in H. apply mbind_Ok in H as (x & _ & H).
  destruct (negb (isna x)); [|by injection H as <-].
  apply mbind_Ok in H as (y & _ & H). injection H as <-.
  unfold no_hash_key, setitem. rewrite lookup_insert_ne; [done|].
  intros [= ->]. by rewrite String.eqb_refl in Hk.
Qed.

(** Proves that the attribute dictionary at hand has no ["edge_hash"]
    entry, from the equations that built it. *)
Ltac no_hash_key :=
  repeat first
    [ eapply display_no_hash_key; cycle 1; [eassumption|reflexivity]
    | eapply set_if_notna_no_hash_key; cycle 1; [eassumption| |reflexivity] ].

(** Follows a successful step of a builder write by write. *)
Ltac written_step H :=
  repeat match goal with
  | Hn : add_node ?g _ _ = Ok ?g', Hg : written P ?g |- _ =>
      assert (written P g')
        by (eapply written_add_node; [exact Hg| |exact Hn]; apply HP; no_hash_key);
      clear Hg
  end;
  try (injection H as <-; assumption);
  try (eapply written_add_edge_once; [|exact H]; assumption).

Lemma hashing_builder_written b g gene annot_list g' :
  b ∈ hashing_builders hash ->
  written P g -> b g gene annot_list = Ok g' -> written P g'.
Proof.
  intros Hb Hg H. revert g Hg H.
  assert (forall step : Graph -> record -> result Graph,
            (forall g r g', written P g -> step g r = Ok g' -> written P g') ->
            forall g, written P g -> foldM step g annot_list = Ok g' ->
              written P g') as Hfold.
  { intros step Hstep g Hg H. eapply (foldM_invariant (written P)); [|exact Hg|exact H].
    intros ? ? ? _. apply Hstep. }
  unfold hashing_builders, func_dict in Hb. cbn [fmap list_fmap snd app] in Hb.
  repeat (apply elem_of_cons in Hb as [->|Hb]); try (by apply elem_of_nil in Hb);
    unfold_builders; apply Hfold; clear Hfold; intros g0 r g1 Hg H; step_inv H;
    try (cbv zeta in H); written_step H.
  (* the inhibitor builder writes the references through the alias *)
  eapply written_add_edge_once; [|exact H].
  match goal with
  | Hn : add_node _ ?n _ = Ok ?g0 |- _ =>
      destruct (add_node_node_data _ _ _ _ Hn) as (d & Hd & _)
  end.
  eapply written_set_container; [assumption| |exact Hd]. apply HP; no_hash_key.
Qed.

Lemma add_drug_disease_subgraph_written g gene annot_list g' :
  written P g -> add_drug_disease_subgraph hash g gene annot_list = Ok g' ->
  written P g'.
Proof.
  intros Hg H. eapply (foldM_invariant (written P)); [|exact Hg|exact H].
  clear. intros g0 ddi g1 _ Hg H. cbv zeta in H.
  apply mbind_Ok in H as (umls & _ & H). destruct gene as [s| |].
  - destruct (negb (has_edge g0 umls s)).
    + by eapply written_add_edge.
    + by injection H as <-.
  - by destruct (decide (umls = SNone)).
  - by destruct (decide (umls = SNone)).
Qed.

Lemma dispatch_written row gene g kb g' :
  kb ∈ func_dict hash ->
  written P g -> dispatch row gene g kb = Ok g' -> written P g'.
Proof.
  intros Hkb Hg H. unfold dispatch in H.
  destruct (row_contains row kb.1); [|by injection H as <-].
  apply mbind_Ok in H as (cell & _ & H).
  eapply hashing_builder_written; [|exact Hg|exact H].
  unfold hashing_builders. apply elem_of_app. left.
  apply list_elem_of_fmap. by exists kb.
Qed.

Lemma gene_row_written dea st row st' :
  (forall a, gene_node_attrs dea row = Ok a -> P a) ->
  written P st.1 -> gene_row hash dea st row = Ok st' -> written P st'.1.
Proof.
  intros Hattrs Hg H. unfold gene_row in H. cbv zeta in H.
  apply mbind_Ok in H as (identifier & _ & H).
  apply mbind_Ok in H as (a & Ha & H).
  apply mbind_Ok in H as (label & _ & H).
  apply mbind_Ok in H as (g1 & Hg1 & H).
  apply mbind_Ok in H as (g2 & Hg2 & H). injection H as <-. simpl.
  eapply (foldM_invariant (written P)); [| |exact Hg2].
  - intros ? ? ? ?. by apply dispatch_written.
  - eapply written_add_node; [exact Hg|by apply Hattrs|exact Hg1].
Qed.

Lemma ppi_row_written st row st' :
  written P st.1 -> ppi_row hash st row = Ok st' -> written P st'.1.
Proof.
  intros Hg H. unfold ppi_row in H. cbv zeta in H.
  apply mbind_Ok in H as (cell & _ & H).
  apply mbind_Ok in H as (ppi_list & _ & H).
  apply mbind_Ok in H as (gene & _ & H).
  apply mbind_Ok in H as (g1 & Hg1 & H). injection H as <-. simpl.
  eapply hashing_builder_written; [|exact Hg|exact Hg1].
  unfold hashing_builders. apply elem_of_app. right.
  by apply list_elem_of_singleton.
Qed.

Lemma drug_disease_row_written st row st' :
  written P st.1 -> drug_disease_row hash st row = Ok st' -> written P st'.1.
Proof.
  intros Hg H. unfold drug_disease_row in H. cbv zeta in H.
  apply mbind_Ok in H as (gene & _ & H).
  apply mbind_Ok in H as (cell & _ & H).
  apply mbind_Ok in H as (ddi_list & _ & H).
  apply mbind_Ok in H as (g1 & Hg1 & H). injection H as <-. simpl.
  by eapply add_drug_disease_subgraph_written.
Qed.

Lemma assemble_written fuse_df drug_disease g :
  (forall row a, row ∈ rows fuse_df ->
     gene_node_attrs (dea_columns fuse_df) row = Ok a -> P a) ->
  assemble hash fuse_df drug_disease = Ok g -> written P g.
Proof.
  intros Hattrs H. unfold assemble in H. cbv zeta in H.
  apply mbind_Ok in H as (st1 & H1 & H).
  apply mbind_Ok in H as (st2 & H2 & H).
  apply mbind_Ok in H as (st3 & H3 & H). injection H as <-.
  assert (written P st1.1) as Hw1.
  { unfold first_pass in H1.
    eapply (foldM_invariant (fun st => written P st.1)); [| |exact H1].
    - intros st row st' Hrow. apply gene_row_written. intros a. by apply Hattrs.
    - apply written_empty. }
  assert (written P st2.1) as Hw2.
  { unfold interaction_pass in H2. apply mbind_Ok in H2 as (row & _ & H2).
    destruct (row_contains row "stringdb"); [|by injection H2 as <-].
    eapply (foldM_invariant (fun st => written P st.1)); [|exact Hw1|exact H2].
    intros st r st' _. apply ppi_row_written. }
  unfold drug_disease_pass in H3. destruct drug_disease as [dd|];
    [|by injection H3 as <-].
  apply mbind_Ok in H3 as (sel & _ & H3). cbv zeta in H3.
  apply mbind_Ok in H3 as (row & _ & H3).
  destruct (row_contains row "drug_diseases"); [|by injection H3 as <-].
  eapply (foldM_invariant (fun st => written P st.1)); [|exact Hw2|exact H3].
  intros st r st' _. apply drug_disease_row_written.
Qed.

End Written.

Lemma assemble_written_any hash fuse_df drug_disease g :
  assemble hash fuse_df drug_disease = Ok g -> written (fun _ => True) g.
Proof. by apply assemble_written. Qed.

Lemma mk_attrs_gene_lookup (labels id target : value) (key k : scalar) :
  k <> key -> k <> SStr "source" -> k <> SStr "labels" -> k <> SStr "id" ->
  k <> SStr "node_type" ->
  mk_attrs [(SStr "source", VScalar "BridgeDB"); (SStr "labels", labels);
            (SStr "id", id); (SStr "node_type", VScalar "Gene");
            (key, target)] !! k = None.
Proof.
  intros. unfold mk_attrs, setitem. simpl.
  by rewrite !lookup_insert_ne, lookup_empty.
Qed.

Lemma gene_node_attrs_no_hash_key fuse_df row a :
  no_edge_hash_attribute fuse_df -> row ∈ rows fuse_df ->
  gene_node_attrs (dea_columns fuse_df) row = Ok a -> no_hash_key a.
Proof.
  intros [Hns Hdea] Hrow H. unfold gene_node_attrs in H.
  apply mbind_Ok in H as (labels & _ & H).
  apply mbind_Ok in H as (id & _ & H).
  apply mbind_Ok in H as (target_source & Hts & H).
  apply mbind_Ok in H as (target & _ & H).
  apply mbind_Ok in H as (key & Hkey & H). cbv zeta in H.
  eapply (foldM_invariant no_hash_key); [| |exact H].
  - intros a0 c a1 Hc Ha0 Hstep. apply mbind_Ok in Hstep as (v & _ & Hstep).
    injection Hstep as <-. unfold no_hash_key, setitem.
    rewrite lookup_insert_ne; [done|]. intros [= Heq]. by apply (Hdea c).
  - apply mk_attrs_gene_lookup; try done. intros <-.
    destruct target_source as [s| |]; try done. injection Hkey as ->.
    apply (Hns row Hrow). unfold row_getitem in Hts.
    destruct (row !! "target.source"); [by injection Hts as ->|done].
Qed.

Lemma assemble_written_no_hash_key hash fuse_df drug_disease g :
  no_edge_hash_attribute fuse_df ->
  assemble hash fuse_df drug_disease = Ok g -> written no_hash_key g.
Proof.
  intros Hdf. apply assemble_written; [done|].
  intros row a. by apply gene_node_attrs_no_hash_key.
Qed.

(** ** The flattening pass over the whole graph *)

Lemma traverse_Forall2 {A B} (f : A -> result B) (xs : list A) (ys : list B) :
  traverse f xs = Ok ys -> Forall2 (fun x y => f x = Ok y) xs ys.
Proof.
  revert ys. induction xs as [|x xs IH]; intros ys H; simpl in H.
  - injection H as <-. constructor.
  - apply mbind_Ok in H as (y & Hy & H). apply mbind_Ok in H as (ys' & Hys & H).
    injection H as <-. constructor; [done|by apply IH].
Qed.

Lemma traverse_map_lookup `{Countable K} {A B} (f : A -> result B)
    (m : gmap K A) (kvs : list (K * B)) (k : K) :
  traverse (fun e => y ← f e.2; Ok (e.1, y)) (map_to_list m) = Ok kvs ->
  (list_to_map kvs : gmap K B) !! k =
    x ← m !! k; match f x with Ok y => Some y | Err _ => None end.
Proof.
  intros Htr. apply traverse_Forall2 in Htr.
  assert (Forall2 (fun e e' => e'.1 = e.1 /\ f e.2 = Ok e'.2) (map_to_list m) kvs)
    as HF.
  { eapply Forall2_impl; [exact Htr|]. intros [k0 x] [k1 y] Hxy. simpl in *.
    apply mbind_Ok in Hxy as (y' & Hy' & Hxy). by injection Hxy as <- <-. }
  assert (kvs.*1 = (map_to_list m).*1) as Hkeys.
  { clear Htr. induction HF as [|e e' l l' [He _] _ IH]; [done|].
    rewrite !fmap_cons. by rewrite He, IH. }
  destruct (m !! k) as [x|] eqn:Hk; simpl.
  - apply elem_of_map_to_list in Hk. apply list_elem_of_lookup in Hk as [i Hi].
    destruct (Forall2_lookup_l _ _ _ _ _ HF Hi) as ([k' y] & Hi' & Hkk & Hy).
    simpl in *. subst k'. rewrite Hy.
    apply elem_of_list_to_map_1.
    + rewrite Hkeys. apply NoDup_fst_map_to_list.
    + apply list_elem_of_lookup. eauto.
  - apply not_elem_of_list_to_map_1. rewrite Hkeys.
    intros ([k' x] & -> & Hin)%list_elem_of_fmap.
    apply elem_of_map_to_list in Hin. simpl in Hk. congruence.
Qed.

Section FlattenGraph.

Implicit Types (g : Graph) (n u v : scalar) (d : dict).

Lemma finalize_Ok g g' :
  finalize g = Ok g' ->
  Forall2 (fun nd nd' => nd'.1 = nd.1 /\ finalize_node nd.2 = Ok nd'.2)
    (g_node g) (g_node g') /\
  forall u v,
    g_adj g' !! (u, v) =
      l ← g_adj g !! (u, v);
      match traverse finalize_edge l with Ok l' => Some l' | Err _ => None end.
Proof.
  unfold finalize. intros H. apply mbind_Ok in H as (nodes & Hnodes & H).
  apply mbind_Ok in H as (adj & Hadj & H). injection H as <-. simpl. split.
  - apply traverse_Forall2 in Hnodes. eapply Forall2_impl; [exact Hnodes|].
    intros [n d] [n' d'] Hnd. simpl in *.
    apply mbind_Ok in Hnd as (d0 & Hd0 & Hnd). by injection Hnd as <- <-.
  - intros u v. by apply traverse_map_lookup.
Qed.

(** The nodes keep their labels and their order; each one is flattened on
    its own. *)
Lemma finalize_node_data g g' n :
  finalize g = Ok g' ->
  match node_data (g_node g) n with
  | Some d => exists d', node_data (g_node g') n = Some d' /\
                         finalize_node d = Ok d'
  | None => node_data (g_node g') n = None
  end.
Proof.
  intros [HF _]%finalize_Ok.
  induction HF as [|[m d] [m' d'] l l' [Hm Hd] _ IH]; simpl in *; [done|].
  subst m'. destruct (decide (m = n)); [by eauto|done].
Qed.

Lemma finalize_edges_lookup g g' u v :
  finalize g = Ok g' ->
  Forall2 (fun d d' => finalize_edge d = Ok d') (edges g u v) (edges g' u v).
Proof.
  intros Hfin. pose proof Hfin as [_ Hadj]%finalize_Ok.
  unfold edges, get_edge_data. rewrite Hadj.
  destruct (g_adj g !! (u, v)) as [l|] eqn:Hl; simpl; [|constructor].
  destruct (traverse finalize_edge l) as [l'|e] eqn:Hl'.
  - by apply traverse_Forall2.
  - (* the pass succeeded, so it succeeded on this pair *)
    exfalso. unfold finalize in Hfin.
    apply mbind_Ok in Hfin as (nodes & _ & Hfin).
    apply mbind_Ok in Hfin as (adj & Hadj' & _).
    apply traverse_Forall2 in Hadj'.
    apply elem_of_map_to_list in Hl. apply list_elem_of_lookup in Hl as [i Hi].
    destruct (Forall2_lookup_l _ _ _ _ _ Hadj' Hi) as (e' & _ & He').
    simpl in He'. by rewrite Hl' in He'.
Qed.

(** An edge as the builders store it, flattened. *)
Lemma finalize_edge_kwargs (label : value) (a : attrs) :
  exists d',
    finalize_edge (edge_kwargs label a) = Ok d' /\
    d' !! SStr "attr_dict" = None /\
    d' !! SStr "edge_hash" = None /\
    forall k (x : value), a !! k = Some x -> is_None x = false ->
      k <> SStr "attr_dict" -> k <> SStr "edge_hash" ->
      d' !! k = Some (OVal x).
Proof.
  unfold finalize_edge, edge_kwargs. rewrite lookup_insert_eq.
  cbn [mbind result_bind bind items]. eexists. split; [reflexivity|].
  split; [apply lookup_delete_eq|]. split.
  - rewrite lookup_delete_ne by done.
    rewrite (map_fold_set_lookup
               (fun x y => negb (is_None y)
                           && negb (bool_decide (x = SStr "edge_hash")))).
    rewrite !lookup_insert_ne by done. rewrite lookup_empty.
    destruct (a !! SStr "edge_hash") as [x|]; [|done].
    rewrite bool_decide_eq_true_2 by done. by rewrite andb_false_r.
  - intros k x Hk Hv Hk1 Hk2. rewrite lookup_delete_ne by done.
    rewrite (map_fold_set_lookup
               (fun x y => negb (is_None y)
                           && negb (bool_decide (x = SStr "edge_hash")))).
    rewrite Hk, Hv. by rewrite bool_decide_eq_false_2.
Qed.

End FlattenGraph.

(** ** What a written graph is made of *)

Section WrittenShape.

Context (P : attrs -> Prop).

Implicit Types (g : Graph) (n u v : scalar) (d : dict).

Lemma last_upsert_Forall n ops a :
  Forall (fun o => match o with Upsert _ a => P a | Link _ _ _ _ => True end) ops ->
  last_upsert n ops = Some a -> P a.
Proof.
  induction ops as [|o ops IH] using rev_ind; [done|].
  intros [Hops Ho]%Forall_app. rewrite Forall_singleton in Ho.
  unfold last_upsert. rewrite foldl_app. fold (last_upsert n ops). simpl.
  destruct o as [m a'|]; [|exact (IH Hops)].
  simpl in Ho. destruct (decide (m = n)); [by intros [= <-]|exact (IH Hops)].
Qed.

(** A node of a written graph holds one container, or nothing at all. *)
Lemma written_node_data g n d :
  written P g -> node_data (g_node g) n = Some d ->
  d = ∅ \/ exists a, P a /\ d = {[SStr "attr_dict" := ODict a]}.
Proof.
  intros (ops & Hall & Hrun) Hd. pose proof (run_ops_node_data _ _ n Hrun) as Hn.
  destruct (last_upsert n ops) as [a|] eqn:Hlast.
  - right. exists a. split; [by eapply last_upsert_Forall|]. congruence.
  - left. destruct Hn as [Hn|Hn]; congruence.
Qed.

(** An edge of a written graph holds its label and its container. *)
Lemma written_edges g u v :
  written P g ->
  Forall (fun d => exists label a, d = edge_kwargs label a) (edges g u v).
Proof.
  intros (ops & _ & Hrun). revert g Hrun.
  induction ops as [|o ops IH] using rev_ind; intros g Hrun.
  - injection Hrun as <-. unfold edges, get_edge_data. simpl.
    rewrite lookup_empty. constructor.
  - rewrite foldM_app in Hrun. apply mbind_Ok in Hrun as (g0 & Hg0 & Hrun).
    rewrite foldM_singleton in Hrun. specialize (IH _ Hg0).
    destruct o as [m a|u' v' l a]; simpl in Hrun.
    + apply add_node_adj in Hrun. unfold edges, get_edge_data in *.
      by rewrite Hrun.
    + unfold edges in *. destruct (decide ((u, v) = (u', v'))) as [[= -> ->]|Hne].
      * rewrite (add_edge_get_eq _ _ _ _ _ Hrun). simpl.
        apply Forall_app. split; [done|]. apply Forall_singleton. eauto.
      * by rewrite (add_edge_get_ne _ _ _ _ _ _ _ Hrun Hne).
Qed.

End WrittenShape.

(** ** Internal keys after the flattening *)

Section InternalKeys.

Context (hash : attrs -> Z).

Lemma generate_networkx_graph_Ok fuse_df drug_disease g :
  generate_networkx_graph hash fuse_df drug_disease = Ok g ->
  exists draft,
    assemble hash fuse_df drug_disease = Ok draft /\ finalize draft = Ok g.
Proof. unfold generate_networkx_graph. intros H. by apply mbind_Ok in H. Qed.

Lemma edge_kwargs_container (label : value) (a a' : attrs) :
  edge_kwargs label a !! SStr "attr_dict" = Some (ODict a') -> a = a'.
Proof. unfold edge_kwargs. rewrite lookup_insert_eq. by intros [= ->]. Qed.

Lemma singleton_container (a a' : attrs) :
  ({[SStr "attr_dict" := ODict a]} : dict) !! SStr "attr_dict" = Some (ODict a') ->
  a = a'.
Proof. rewrite lookup_singleton_eq. by intros [= ->]. Qed.

(** A node of the returned graph is the flattening of the one container
    the node held before. *)
Lemma generate_node P draft g n d :
  written P draft -> finalize draft = Ok g ->
  node_data (g_node g) n = Some d ->
  exists a, P a /\
    node_data (g_node draft) n = Some {[SStr "attr_dict" := ODict a]} /\
    d = promoted a.
Proof.
  intros Hw Hfin Hd. pose proof (finalize_node_data _ _ n Hfin) as Hn.
  destruct (node_data (g_node draft) n) as [d0|] eqn:Hd0; [|congruence].
  destruct Hn as (d' & Hd' & Hflat). rewrite Hd in Hd'. injection Hd' as <-.
  destruct (written_node_data P _ _ _ Hw Hd0) as [->|(a & Ha & ->)].
  - by rewrite finalize_node_no_container in Hflat.
  - rewrite finalize_node_container in Hflat. injection Hflat as <-. eauto.
Qed.

(** C4, as the code has it. In the graph [generate_networkx_graph] returns,
    no edge has an attribute ["attr_dict"] or ["edge_hash"] and no node has
    an attribute ["attr_dict"]; a node has no attribute ["edge_hash"]
    either, provided no gene row of the table names one (as its namespace
    or as the stem of a differential-expression column). Every entry of a
    container that is not [None] has become an attribute of its node or
    edge, but for an entry named ["attr_dict"] and, on an edge, the entry
    ["edge_hash"]. *)
Theorem no_internal_key_survives fuse_df drug_disease g :
  generate_networkx_graph hash fuse_df drug_disease = Ok g ->
  (forall u v d, d ∈ edges g u v ->
     d !! SStr "attr_dict" = None /\ d !! SStr "edge_hash" = None) /\
  (forall n d, node_data (g_node g) n = Some d ->
     d !! SStr "attr_dict" = None /\
     (no_edge_hash_attribute fuse_df -> d !! SStr "edge_hash" = None)) /\
  exists draft,
    assemble hash fuse_df drug_disease = Ok draft /\
    (forall n d0 a,
       node_data (g_node draft) n = Some d0 ->
       d0 !! SStr "attr_dict" = Some (ODict a) ->
       exists d, node_data (g_node g) n = Some d /\
         forall k x, a !! k = Some x -> is_None x = false ->
           k <> SStr "attr_dict" -> d !! k = Some (OVal x)) /\
    (forall u v i d0 a,
       edges draft u v !! i = Some d0 ->
       d0 !! SStr "attr_dict" = Some (ODict a) ->
       exists d, edges g u v !! i = Some d /\
         forall k x, a !! k = Some x -> is_None x = false ->
           k <> SStr "attr_dict" -> k <> SStr "edge_hash" ->
           d !! k = Some (OVal x)).
Proof.
  intros (draft & Hdraft & Hfin)%generate_networkx_graph_Ok.
  pose proof (assemble_written_any _ _ _ _ Hdraft) as Hw.
  split; [|split].
  - intros u v d Hd.
    pose proof (finalize_edges_lookup _ _ u v Hfin) as HF.
    apply list_elem_of_lookup in Hd as [i Hi].
    destruct (Forall2_lookup_r _ _ _ _ _ HF Hi) as (d0 & Hi0 & Hflat).
    pose proof (written_edges _ _ u v Hw) as Hshape.
    rewrite Forall_lookup in Hshape.
    destruct (Hshape _ _ Hi0) as (label & a & ->).
    destruct (finalize_edge_kwargs label a) as (d' & Hd' & Hk1 & Hk2 & _).
    rewrite Hd' in Hflat. by injection Hflat as <-.
  - intros n d Hd. split.
    + destruct (generate_node _ _ _ _ _ Hw Hfin Hd) as (a & _ & _ & ->).
      rewrite promoted_lookup. destruct (a !! SStr "attr_dict") as [x|]; [|done].
      destruct (is_None x); [done|]. by rewrite decide_True.
    + intros Hdf.
      pose proof (assemble_written_no_hash_key _ _ _ _ Hdf Hdraft) as Hw'.
      destruct (generate_node _ _ _ _ _ Hw' Hfin Hd) as (a & Ha & _ & ->).
      rewrite promoted_lookup. unfold no_hash_key in Ha. by rewrite Ha.
  - exists draft. split; [done|]. split.
    + intros n d0 a Hd0 Hattr.
      pose proof (finalize_node_data _ _ n Hfin) as Hn. rewrite Hd0 in Hn.
      destruct Hn as (d & Hd & Hflat). exists d. split; [done|].
      destruct (written_node_data _ _ _ _ Hw Hd0) as [->|(a0 & _ & ->)];
        [by rewrite lookup_empty in Hattr|].
      apply singleton_container in Hattr as ->.
      rewrite finalize_node_container in Hflat. injection Hflat as <-.
      intros k x Hk Hx Hne. rewrite promoted_lookup, Hk, Hx.
      by rewrite decide_False.
    + intros u v i d0 a Hi0 Hattr.
      pose proof (finalize_edges_lookup _ _ u v Hfin) as HF.
      destruct (Forall2_lookup_l _ _ _ _ _ HF Hi0) as (d & Hi & Hflat).
      exists d. split; [done|].
      pose proof (written_edges _ _ u v Hw) as Hshape.
      rewrite Forall_lookup in Hshape.
      destruct (Hshape _ _ Hi0) as (label & a0 & ->).
      apply edge_kwargs_container in Hattr as ->.
      destruct (finalize_edge_kwargs label a) as (d' & Hd' & _ & _ & Hprom).
      rewrite Hd' in Hflat. by injection Hflat as <-.
Qed.

End InternalKeys.

(** The graph [generate_networkx_graph] flattens is a run of writes, and
    each node of the graph it returns is the last upsert of its label,
    flattened. *)
Lemma generate_last_upsert hash fuse_df drug_disease g :
  generate_networkx_graph hash fuse_df drug_disease = Ok g ->
  exists ops draft,
    foldM run_op empty_graph ops = Ok draft /\
    assemble hash fuse_df drug_disease = Ok draft /\
    forall n d, node_data (g_node g) n = Some d ->
      exists a, last_upsert n ops = Some a /\ d = promoted a.
Proof.
  intros (draft & Hdraft & Hfin)%generate_networkx_graph_Ok.
  destruct (assemble_written_any _ _ _ _ Hdraft) as (ops & _ & Hrun).
  exists ops, draft. split; [done|]. split; [done|]. intros n d Hd.
  pose proof (finalize_node_data _ _ n Hfin) as Hn.
  pose proof (run_ops_node_data _ _ n Hrun) as Hlast.
  destruct (node_data (g_node draft) n) as [d0|] eqn:Hd0; [|congruence].
  destruct Hn as (d' & Hd' & Hflat). rewrite Hd in Hd'. injection Hd' as <-.
  destruct (last_upsert n ops) as [a|].
  - injection Hlast as ->. rewrite finalize_node_container in Hflat.
    injection Hflat as <-. eauto.
  - destruct Hlast as [Hlast|Hlast]; [done|]. injection Hlast as ->.
    by rewrite finalize_node_no_container in Hflat.
Qed.

(** ** Cells that are not lists *)

Section Cells.

Context (hash : attrs -> Z).

Lemma builder_no_records kb g gene :
  kb ∈ func_dict hash -> kb.2 g gene [] = Ok g.
Proof.
  intros Hkb. unfold func_dict in Hkb.
  repeat (apply elem_of_cons in Hkb as [->|Hkb]); try done.
  by apply elem_of_nil in Hkb.
Qed.

(** The three loops do not read a cell alike. In the dispatch of a row, a
    cell of a registry column that is not a list is read as no record at
    all: the builder is
    called on the empty list and gives the graph back. The two later passes
    do not recover that widely. The interaction pass reads only [None] as
    no record, the drug-disease pass only a float ([NaN] among them); any
    other scalar there, but for the empty string, raises [TypeError]. *)
Theorem cells_that_are_not_lists :
  (forall kb row gene g cell,
     kb ∈ func_dict hash -> row !! kb.1 = Some cell ->
     (forall l, cell <> VList l) ->
     dispatch row gene g kb = Ok g) /\
  (forall st row gene,
     row !! "stringdb" = Some (VScalar SNone) ->
     l_gene_node_label st.2 = Some gene ->
     ppi_row hash st row = Ok (st.1, mkLocals (Some row) (Some gene))) /\
  (forall st row identifier cell,
     row !! "identifier" = Some identifier ->
     row !! "drug_diseases" = Some cell -> is_float cell = true ->
     drug_disease_row hash st row
       = Ok (st.1, mkLocals (Some row) (l_gene_node_label st.2))) /\
  (forall st row gene s,
     row !! "stringdb" = Some (VScalar s) -> s <> SNone -> s <> SStr "" ->
     l_gene_node_label st.2 = Some gene ->
     ppi_row hash st row = Err TypeError) /\
  (forall st row identifier s,
     row !! "identifier" = Some identifier ->
     row !! "drug_diseases" = Some (VScalar s) ->
     is_float (VScalar s) = false -> s <> SStr "" ->
     drug_disease_row hash st row = Err TypeError).
Proof.
  split; [|split; [|split; [|split]]].
  - intros kb row gene g cell Hkb Hcell Hlist. unfold dispatch, row_contains.
    rewrite bool_decide_eq_true_2 by (rewrite Hcell; eauto).
    unfold row_getitem. rewrite Hcell. cbn [mbind result_bind bind].
    unfold json_roundtrip. destruct cell as [s|l|d].
    + by apply builder_no_records.
    + by destruct (Hlist l).
    + by apply builder_no_records.
  - intros st row gene Hcell Hgene. unfold ppi_row, row_getitem.
    rewrite Hcell, Hgene. done.
  - intros st row identifier cell Hid Hcell Hfloat.
    unfold drug_disease_row, row_getitem. rewrite Hid, Hcell.
    cbn [mbind result_bind bind]. unfold json_roundtrip. rewrite Hfloat. done.
  - intros st row gene s Hcell Hnone Hempty Hgene. unfold ppi_row, row_getitem.
    rewrite Hcell, Hgene. cbn [mbind result_bind bind read_local].
    unfold json_roundtrip. destruct s as [| | | | |s']; try done.
    cbn [is_None records_of_iterable mbind result_bind bind].
    destruct (decide (s' = "")) as [->|]; done.
  - intros st row identifier s Hid Hcell Hfloat Hempty.
    unfold drug_disease_row, row_getitem. rewrite Hid, Hcell.
    cbn [mbind result_bind bind]. unfold json_roundtrip. rewrite Hfloat.
    destruct s as [| | | | |s']; try done.
    cbn [records_of_iterable mbind result_bind bind].
    destruct (decide (s' = "")) as [->|]; done.
Qed.

End Cells.

(** ** The drug-disease pass *)

Lemma foldM_establishes {A B} (Q : B -> A -> Prop) (f : A -> B -> result A)
    (xs : list B) (a a' : A) :
  (forall a x a', f a x = Ok a' -> Q x a') ->
  (forall a x a' y, f a x = Ok a' -> Q y a -> Q y a') ->
  foldM f a xs = Ok a' -> forall x, x ∈ xs -> Q x a'.
Proof.
  intros Hest Hkeep. revert a. induction xs as [|x0 xs IH]; intros a H x Hx.
  - by apply elem_of_nil in Hx.
  - rewrite foldM_cons in H. apply mbind_Ok in H as (a1 & H1 & H).
    apply elem_of_cons in Hx as [->|Hx]; [|by eapply IH].
    eapply (foldM_invariant (Q x0)); [|by eapply Hest|exact H].
    intros ? ? ? _ ? ?. by eapply Hkeep.
Qed.

Section Reindex.

Implicit Types (row : Row) (cols : list string) (c : string).

(** Reindexing fills the columns a row lacks and keeps the cells it has. *)
Lemma reindex_lookup_Some cols row c (x : value) :
  row !! c = Some x -> reindex cols row !! c = Some x.
Proof.
  intros Hc. induction cols as [|c' cols IH]; simpl; [done|].
  destruct (row_contains (reindex cols row) c') eqn:Hrc; [done|].
  destruct (decide (c' = c)) as [->|Hne].
  - unfold row_contains in Hrc. apply bool_decide_eq_false in Hrc.
    destruct Hrc. rewrite IH. eauto.
  - by rewrite lookup_insert_ne.
Qed.

Lemma select_rows df sel df' :
  select df sel = Ok df' ->
  rows df' = (fun row : Row => filter (fun kv => kv.1 ∈ sel) row) <$> rows df.
Proof.
  unfold select.
  destruct (List.filter _ sel); [by intros [= <-]|done].
Qed.

Lemma select_lookup (sel : list string) row c :
  c ∈ sel -> filter (fun kv : string * value => kv.1 ∈ sel) row !! c = row !! c.
Proof.
  intros Hc. rewrite map_lookup_filter. destruct (row !! c) as [x|]; [|done].
  simpl. by rewrite option_guard_True.
Qed.

(** The rows of the table the third pass goes through: the rows of the gene
    table, then the rows of the drug-disease table, each with the
    identifier and the records it had. *)
Lemma appended_rows fuse_df dd sel r :
  select dd ["identifier"; "drug_diseases"] = Ok sel ->
  r ∈ rows fuse_df ++ rows dd ->
  exists r', r' ∈ rows (concat fuse_df sel) /\
    (forall x, r !! "identifier" = Some x -> r' !! "identifier" = Some x) /\
    (forall x, r !! "drug_diseases" = Some x -> r' !! "drug_diseases" = Some x).
Proof.
  intros Hsel Hr. unfold concat. cbv zeta. simpl.
  set (cols := columns fuse_df ++ _).
  apply elem_of_app in Hr as [Hr|Hr].
  - exists (reindex cols r). split.
    + apply elem_of_app. left. by apply list_elem_of_fmap_2.
    + split; intros x Hx; by apply reindex_lookup_Some.
  - exists (reindex cols
              (filter (fun kv => kv.1 ∈ ["identifier"; "drug_diseases"]) r)).
    split.
    + apply elem_of_app. right. apply list_elem_of_fmap_2.
      rewrite (select_rows _ _ _ Hsel).
      by apply (list_elem_of_fmap_2
                  (fun row : Row =>
                     filter (fun kv => kv.1 ∈ ["identifier"; "drug_diseases"]) row)).
    + split; intros x Hx; apply reindex_lookup_Some;
        rewrite select_lookup; first [done|set_solver].
Qed.

End Reindex.

Section ThirdPass.

Context (hash : attrs -> Z).

Implicit Types (g : Graph) (st : Graph * locals) (gene umls : scalar).

Lemma same_or_first_edge_refl g : same_or_first_edge g g.
Proof. intros u v. by left. Qed.

Lemma same_or_first_edge_trans g1 g2 g3 :
  same_or_first_edge g1 g2 -> same_or_first_edge g2 g3 ->
  same_or_first_edge g1 g3.
Proof.
  intros H12 H23 u v. destruct (H12 u v) as [H|[H [d Hd]]].
  - rewrite <- H. apply H23.
  - right. split; [done|]. exists d.
    destruct (H23 u v) as [H'|[H' _]]; congruence.
Qed.

Lemma add_edge_first g u v d g' :
  has_edge g u v = false -> add_edge g u v d = Ok g' ->
  same_or_first_edge g g'.
Proof.
  intros Hno Hadd u' v'. apply has_edge_false in Hno.
  destruct (decide ((u', v') = (u, v))) as [[= -> ->]|Hne].
  - right. split; [done|]. exists d.
    rewrite (add_edge_get_eq _ _ _ _ _ Hadd), Hno. done.
  - left. by apply (add_edge_get_ne _ _ _ _ _ _ _ Hadd).
Qed.

(** What the builder leaves behind, for a hashable gene label. *)
Lemma add_drug_disease_subgraph_links gene recs g g' :
  add_drug_disease_subgraph hash g (VScalar gene) recs = Ok g' ->
  (forall rec umls, rec ∈ recs -> rec !! "umls" = Some umls ->
     has_edge g' umls gene = true) /\
  (forall u v, has_edge g u v = true -> has_edge g' u v = true) /\
  same_or_first_edge g g'.
Proof.
  revert g. induction recs as [|rec rest IH]; intros g H.
  - injection H as <-. split; [|split].
    + intros rec umls Hrec. by apply elem_of_nil in Hrec.
    + done.
    + apply same_or_first_edge_refl.
  - destruct (rec !! "umls") as [umls|] eqn:Humls.
    + rewrite (drug_disease_step _ _ _ _ _ _ Humls) in H.
      apply mbind_Ok in H as (g1 & Hg1 & H).
      destruct (IH _ H) as (Hlinks & Hmono & Hrel).
      assert (has_edge g1 umls gene = true /\
              (forall u v, has_edge g u v = true -> has_edge g1 u v = true) /\
              same_or_first_edge g g1) as (Hnow & Hmono1 & Hrel1).
      { destruct (has_edge g umls gene) eqn:Hhas.
        - injection Hg1 as <-. split; [done|]. split; [done|].
          apply same_or_first_edge_refl.
        - split; [|split].
          + apply has_edge_true. rewrite (add_edge_get_eq _ _ _ _ _ Hg1). eauto.
          + intros u v. by apply (add_edge_has_edge _ _ _ _ _ _ _ Hg1).
          + by eapply add_edge_first. }
      split; [|split].
      * intros rec' umls' [->|Hrec]%elem_of_cons Hu.
        -- rewrite Humls in Hu. injection Hu as <-. by apply Hmono.
        -- by eapply Hlinks.
      * intros u v Huv. by apply Hmono, Hmono1.
      * by eapply same_or_first_edge_trans.
    + unfold add_drug_disease_subgraph in H. rewrite foldM_cons in H.
      unfold getitem in H. by rewrite Humls in H.
Qed.

(** With a label that cannot be hashed the builder gets nowhere. *)
Lemma add_drug_disease_subgraph_unhashable (label : value) recs g g' :
  (forall s, label <> VScalar s) ->
  add_drug_disease_subgraph hash g label recs = Ok g' -> g' = g.
Proof.
  intros Hgene H. destruct recs as [|rec rest]; [by injection H as <-|].
  unfold add_drug_disease_subgraph in H. rewrite foldM_cons in H.
  apply mbind_Ok in H as (g1 & Hg1 & _). cbv zeta in Hg1.
  apply mbind_Ok in Hg1 as (umls & _ & Hg1).
  destruct label as [s| |]; [by destruct (Hgene s)| |];
    by destruct (decide (umls = SNone)).
Qed.

Lemma drug_disease_row_Ok st row st' :
  drug_disease_row hash st row = Ok st' ->
  exists (label : value) cell recs,
    row !! "identifier" = Some label /\ row !! "drug_diseases" = Some cell /\
    (forall l, cell = VList l -> recs = l) /\
    add_drug_disease_subgraph hash st.1 label recs = Ok st'.1.
Proof.
  unfold drug_disease_row. cbv zeta. intros H.
  apply mbind_Ok in H as (label & Hgene & H).
  apply mbind_Ok in H as (cell & Hcell & H).
  apply mbind_Ok in H as (recs & Hrecs & H).
  apply mbind_Ok in H as (g1 & Hg1 & H). injection H as <-.
  exists label, cell, recs. unfold row_getitem in *.
  destruct (row !! "identifier"); [injection Hgene as ->|done].
  destruct (row !! "drug_diseases"); [injection Hcell as ->|done].
  repeat split; [|done]. intros l ->. unfold json_roundtrip in Hrecs.
  simpl in Hrecs. by injection Hrecs as <-.
Qed.

Lemma drug_disease_row_keeps st row st' :
  drug_disease_row hash st row = Ok st' ->
  (forall u v, has_edge st.1 u v = true -> has_edge st'.1 u v = true) /\
  same_or_first_edge st.1 st'.1.
Proof.
  intros (label & cell & recs & _ & _ & _ & H)%drug_disease_row_Ok.
  destruct label as [s|l|d].
  - by apply add_drug_disease_subgraph_links in H as (_ & ? & ?).
  - apply add_drug_disease_subgraph_unhashable in H as ->; [|done].
    split; [done|apply same_or_first_edge_refl].
  - apply add_drug_disease_subgraph_unhashable in H as ->; [|done].
    split; [done|apply same_or_first_edge_refl].
Qed.

(** A run that enters the third pass. In such a run (the code
    enters it when the row the earlier loops left behind has a column
    ["drug_diseases"]), the rows of the drug-disease table are gone through
    after the rows of the gene table, and afterwards every record of every
    one of these rows is linked: some edge goes from the disease identifier
    of the record to the identifier of its row. The pass adds an edge only
    between a pair that had none, so a pair that had edges keeps exactly
    those, and no pair gains more than one. *)
Theorem drug_disease_pass_links fuse_df dd st row st' :
  l_row st.2 = Some row -> row_contains row "drug_diseases" = true ->
  drug_disease_pass hash fuse_df (Some dd) st = Ok st' ->
  (forall r gene recs rec umls,
     r ∈ rows fuse_df ++ rows dd ->
     r !! "identifier" = Some (VScalar gene) ->
     r !! "drug_diseases" = Some (VList recs) ->
     rec ∈ recs -> rec !! "umls" = Some umls ->
     has_edge st'.1 umls gene = true) /\
  same_or_first_edge st.1 st'.1.
Proof.
  intros Hrow Hcol H. unfold drug_disease_pass in H.
  apply mbind_Ok in H as (sel & Hsel & H). cbv zeta in H.
  rewrite Hrow in H. cbn [read_local mbind result_bind bind] in H.
  rewrite Hcol in H. split.
  - intros r gene recs rec umls Hr Hid Hcell Hrec Humls.
    destruct (appended_rows _ _ _ _ Hsel Hr) as (r' & Hr' & Hid' & Hcell').
    apply Hid' in Hid. apply Hcell' in Hcell.
    pose proof (foldM_establishes
      (fun (r : Row) (st : Graph * locals) =>
         forall gene recs rec umls,
           r !! "identifier" = Some (VScalar gene) ->
           r !! "drug_diseases" = Some (VList recs) ->
           rec ∈ recs -> rec !! "umls" = Some umls ->
           has_edge st.1 umls gene = true)
      (drug_disease_row hash) (rows (concat fuse_df sel)) st st') as Hall.
    eapply Hall; [| |exact H|exact Hr'|exact Hid|exact Hcell|exact Hrec|exact Humls].
    + clear. intros st r st' Hstep gene recs rec umls Hid Hcell Hrec Humls.
      apply drug_disease_row_Ok in Hstep
        as (gene' & cell & recs' & Hid' & Hcell' & Hrecs & Hstep).
      rewrite Hid in Hid'. injection Hid' as <-.
      rewrite Hcell in Hcell'. injection Hcell' as <-.
      rewrite (Hrecs recs eq_refl) in Hstep.
      apply add_drug_disease_subgraph_links in Hstep as (Hlinks & _ & _).
      by eapply Hlinks.
    + clear. intros st r st' r0 Hstep Hr0 gene recs rec umls Hid Hcell Hrec Humls.
      apply drug_disease_row_keeps in Hstep as [Hmono _].
      apply Hmono. by eapply Hr0.
  - eapply (foldM_invariant (fun st' => same_or_first_edge st.1 st'.1));
      [|apply same_or_first_edge_refl|exact H].
    intros st1 r st2 _ Hrel Hstep. eapply same_or_first_edge_trans; [exact Hrel|].
    by apply drug_disease_row_keeps in Hstep as [_ ?].
Qed.

End ThirdPass.

(** ** The module run on the sample tables *)

(** C1, refuted as stated. The disease [D] is reported by DisGeNET, with a
    class and an identifier, and then by OpenTargets, without a class and
    with a null identifier. The node ends with the attributes of the second
    report only: the class of the first is gone, and so is its identifier,
    which the null of the second report erased. *)
Lemma earlier_contribution_is_lost :
  getitem disgenet_record "disease_class" = Ok (SStr "C04") /\
  getitem disgenet_record "diseaseid" = Ok (SStr "C1") /\
  getitem opentargets_record "disease_id" = Ok SNone /\
  match generate_networkx_graph perfect_hash two_sources None with
  | Ok g =>
      node_attribute g "D" "source" = Some (OVal (VScalar "OpenTargets")) /\
      node_attribute g "D" "disease_class" = None /\
      node_attribute g "D" "id" = None
  | Err _ => False
  end.
Proof. vm_compute. repeat split; reflexivity. Qed.

(** C2, where the code departs from it: the GO builder has no guard. A GO
    record whose name is [NaN] gives a node labelled [NaN] and an edge from
    the gene to it. *)
Lemma unnamed_go_term_becomes_a_node :
  isna SNaN = true /\
  getitem unnamed_go_record "go_name" = Ok SNaN /\
  match generate_networkx_graph perfect_hash unnamed_go None with
  | Ok g =>
      node_labels g = [SStr "G"; SNaN] /\
      edge_attribute g "G" SNaN "label"
        = [Some (OVal (VScalar "part_of_go"))]
  | Err _ => False
  end.
Proof. vm_compute. repeat split; reflexivity. Qed.

(** C4, refuted as stated: the namespace of the gene is called
    ["edge_hash"], and the gene node ends with an attribute of that
    name. *)
Lemma node_with_edge_hash_attribute :
  match generate_networkx_graph perfect_hash edge_hash_namespace None with
  | Ok g => node_attribute g "G" "edge_hash" = Some (OVal (VScalar "E1"))
  | Err _ => False
  end.
Proof. vm_compute. reflexivity. Qed.

(** C5, where the code departs from it: the interaction of the gene [A]
    with [B], listed in the row of [A], becomes an edge from [B], the gene
    of the last row, to [B]; no edge leaves [A]. *)
Lemma interaction_edge_leaves_the_last_gene :
  match generate_networkx_graph perfect_hash two_genes None with
  | Ok g =>
      edges g "A" "B" = [] /\
      edge_attribute g "B" "B" "label"
        = [Some (OVal (VScalar "interacts_with"))] /\
      edge_attribute g "B" "B" "score"
        = [Some (OVal (VScalar (SFloat 9 (-1))))]
  | Err _ => False
  end.
Proof. vm_compute. repeat split; reflexivity. Qed.

(** C6, where the code departs from it. A drug-disease table is supplied,
    with a record for the gene [A] of the gene table. The test that opens
    the third loop reads [row] as the earlier loops left it: a row of the
    gene table, taken before the tables were joined, which has no column
    ["drug_diseases"] (that column comes with the drug-disease table). The
    third loop is not entered: the call returns a graph with the gene
    alone and no edge at all. *)
Lemma supplied_treatments_are_not_linked :
  columns treatments = ["identifier"; "drug_diseases"] /\
  rows treatments =
    [list_to_map [("identifier", VScalar (SStr "A"));
                  ("drug_diseases", VList [treatment_record])]] /\
  treatment_record !! "umls" = Some (SStr "C0011849") /\
  match generate_networkx_graph perfect_hash one_gene (Some treatments) with
  | Ok g =>
      edges g "C0011849" "A" = [] /\ node_labels g = [SStr "A"] /\
      g_adj g = ∅
  | Err _ => False
  end.
Proof.
  split; [reflexivity|]. split; [reflexivity|]. split; [reflexivity|].
  vm_compute. repeat split; reflexivity.
Qed.

(** C7, where the code departs from it: the interaction cell of the only
    row holds [NaN], the float that stands for a missing value, and the
    call raises [TypeError]. The second loop replaces a cell only when it
    is [None], where the dispatch of the first loop replaces every cell
    that is not a list and the third loop every float. *)
Lemma nan_interaction_cell_raises :
  generate_networkx_graph perfect_hash no_interaction_data None = Err TypeError.
Proof. vm_compute. reflexivity. Qed.

(** C8, where the code departs from it: for a record with a confidence
    level the builder reads the field ["drugbank_id"], which a
    tissue-expression record does not have, and raises [KeyError]; when the
    record is given such a field, its value is stored as the confidence
    level. *)
Lemma confidence_level_reads_drugbank_id :
  add_bgee_subgraph perfect_hash empty_graph "G" [bgee_record]
    = Err (KeyError "drugbank_id") /\
  match add_bgee_subgraph perfect_hash empty_graph "G"
          [<["drugbank_id" := SStr "DB00316"]> bgee_record] with
  | Ok g =>
      (d ← node_data (g_node g) "liver";
       match d !! SStr "attr_dict" with
       | Some (ODict a) => Some (a !! SStr "confidence_level",
                                 a !! SStr "expression_level")
       | _ => None
       end)
      = Some (Some (VScalar "DB00316"), Some (VScalar (SFloat 99 0)))
  | Err _ => False
  end.
Proof. vm_compute. repeat split; reflexivity. Qed.

(** A node that only ever was the endpoint of an edge has no container, and
    the flattening fails on it: so it goes with the disease of a
    drug-disease record. *)
Lemma treatment_node_has_no_container :
  generate_networkx_graph perfect_hash one_gene_with_treatments (Some treatments)
    = Err (KeyError "attr_dict").
Proof. vm_compute. reflexivity. Qed.

(** ** The theorems at work on the sample tables *)

Lemma edge_insertion_idempotent_witness :
  processed "DisGeNET" disgenet_record /\
  add_disgenet_disease_subgraph perfect_hash empty_graph "G" [disgenet_record]
    = Ok disease_graph /\
  (exists y, y ∈ edges disease_graph "G" "D") /\
  add_disgenet_disease_subgraph perfect_hash empty_graph "G"
    [disgenet_record; disgenet_record] = Ok disease_graph /\
  (edges empty_graph "G" "D" = [] -> exists y, edges disease_graph "G" "D" = [y]).
Proof.
  assert (processed "DisGeNET" disgenet_record) as Hp.
  { intros field Hfield. unfold guard_read in Hfield.
    repeat (apply elem_of_cons in Hfield as [Hfield|Hfield]);
      try (by apply elem_of_nil in Hfield); try discriminate Hfield.
    injection Hfield as ->. by exists (SStr "D"). }
  assert (add_disgenet_disease_subgraph perfect_hash empty_graph "G"
            [disgenet_record] = Ok disease_graph) as H by reflexivity.
  split; [exact Hp|]. split; [exact H|].
  apply (proj1 (edge_insertion_idempotent perfect_hash)
           ("DisGeNET", add_disgenet_disease_subgraph perfect_hash)
           "disease_name" empty_graph "G" disgenet_record "D" disease_graph);
    [| |reflexivity|exact Hp|exact H].
  - unfold func_dict. apply elem_of_cons. by left.
  - unfold label_read. apply elem_of_cons. by left.
Defined.

Lemma no_internal_key_survives_witness :
  generate_networkx_graph perfect_hash two_sources None = Ok two_sources_graph /\
  (forall u v d, d ∈ edges two_sources_graph u v ->
     d !! SStr "attr_dict" = None /\ d !! SStr "edge_hash" = None) /\
  (forall n d, node_data (g_node two_sources_graph) n = Some d ->
     d !! SStr "attr_dict" = None /\
     (no_edge_hash_attribute two_sources -> d !! SStr "edge_hash" = None)).
Proof.
  assert (generate_networkx_graph perfect_hash two_sources None
            = Ok two_sources_graph) as H by reflexivity.
  split; [exact H|].
  destruct (no_internal_key_survives perfect_hash _ _ _ H) as (He & Hn & _).
  by split.
Defined.

Lemma drug_disease_pass_links_witness :
  l_row before_third_pass.2 = Some (gene "A" "E1"
    [("drug_diseases", VList [treatment_record])]) /\
  row_contains (gene "A" "E1" [("drug_diseases", VList [treatment_record])])
    "drug_diseases" = true /\
  drug_disease_pass perfect_hash one_gene_with_treatments (Some treatments)
    before_third_pass = Ok after_third_pass /\
  (forall r gene recs rec umls,
     r ∈ rows one_gene_with_treatments ++ rows treatments ->
     r !! "identifier" = Some (VScalar gene) ->
     r !! "drug_diseases" = Some (VList recs) ->
     rec ∈ recs -> rec !! "umls" = Some umls ->
     has_edge after_third_pass.1 umls gene = true) /\
  same_or_first_edge before_third_pass.1 after_third_pass.1.
Proof.
  assert (l_row before_third_pass.2 = Some (gene "A" "E1"
            [("drug_diseases", VList [treatment_record])])) as H1
    by reflexivity.
  assert (row_contains (gene "A" "E1"
            [("drug_diseases", VList [treatment_record])])
            "drug_diseases" = true) as H2 by reflexivity.
  assert (drug_disease_pass perfect_hash one_gene_with_treatments
            (Some treatments) before_third_pass = Ok after_third_pass) as H3
    by reflexivity.
  split; [exact H1|]. split; [exact H2|]. split; [exact H3|].
  exact (drug_disease_pass_links perfect_hash _ _ _ _ _ H1 H2 H3).
Defined.

Lemma cells_that_are_not_lists_witness :
  ("DisGeNET", add_disgenet_disease_subgraph perfect_hash) ∈ func_dict perfect_hash /\
  no_disease_data !! "DisGeNET" = Some (VScalar SNaN) /\
  (forall l, VScalar SNaN <> VList l) /\
  dispatch no_disease_data "G" empty_graph
    ("DisGeNET", add_disgenet_disease_subgraph perfect_hash) = Ok empty_graph.
Proof.
  assert (("DisGeNET", add_disgenet_disease_subgraph perfect_hash)
            ∈ func_dict perfect_hash) as H1
    by (unfold func_dict; apply elem_of_cons; by left).
  assert (no_disease_data !! "DisGeNET" = Some (VScalar SNaN)) as H2
    by reflexivity.
  assert (forall l, VScalar SNaN <> VList l) as H3 by done.
  split; [exact H1|]. split; [exact H2|]. split; [exact H3|].
  exact (proj1 (cells_that_are_not_lists perfect_hash) _ _ _ _ _ H1 H2 H3).
Defined.

Lemma drug_disease_edge_direction_and_existence_check_witness :
  SStr "A" <> SNone /\
  treatment_record !! "umls" = Some (SStr "C0011849") /\
  has_edge empty_graph "C0011849" "A" = false /\
  exists g',
    add_drug_disease_subgraph perfect_hash empty_graph (VScalar "A")
      [treatment_record] = Ok g' /\
    get_edge_data g' "C0011849" "A" =
      Some [edge_kwargs (VScalar "treated_with")
              (treated_with_attrs perfect_hash)] /\
    forall u v, (u, v) <> (SStr "C0011849", SStr "A") ->
      get_edge_data g' u v = get_edge_data empty_graph u v.
Proof.
  assert (SStr "A" <> SNone) as Hg by done.
  assert (treatment_record !! "umls" = Some (SStr "C0011849")) as H
    by reflexivity.
  assert (has_edge empty_graph "C0011849" "A" = false) as Hnone by reflexivity.
  split; [exact Hg|]. split; [exact H|]. split; [exact Hnone|].
  apply (proj1 (proj2 (drug_disease_edge_direction_and_existence_check
                         perfect_hash empty_graph "A" Hg))
           treatment_record "C0011849" H Hnone).
  done.
Defined.

Lemma generate_networkx_graph_needs_a_row_witness :
  rows no_rows = [] /\
  generate_networkx_graph perfect_hash no_rows None = Err NameError /\
  rows one_gene <> [] /\
  generate_networkx_graph perfect_hash one_gene None <> Err NameError.
Proof.
  assert (rows no_rows = []) as H1 by reflexivity.
  assert (rows one_gene <> []) as H2 by done.
  split; [exact H1|]. split.
  - exact (proj1 (generate_networkx_graph_needs_a_row perfect_hash no_rows None) H1).
  - split; [exact H2|].
    exact (proj2 (generate_networkx_graph_needs_a_row perfect_hash one_gene None) H2).
Defined.

(* ===================================================================== *)
(** * Further properties of the module *)
(* ===================================================================== *)

(** ** What every write keeps, the passes keep *)

Section Preserved.

Context (hash : attrs -> Z).

(** A relation between the graph before and the graph after that the
    three kinds of write of the module respect. *)
Context (R : Graph -> Graph -> Prop).
Context (R_refl : forall g, R g g).
Context (R_trans : forall g1 g2 g3, R g1 g2 -> R g2 g3 -> R g1 g3).
Context (R_add_node : forall g n a g', add_node g n a = Ok g' -> R g g').
Context (R_add_edge_once :
  forall g u v l a g', add_edge_once hash g u v l a = Ok g' -> R g g').
Context (R_treated_with :
  forall g u v g',
    has_edge g u v = false ->
    add_edge g u v (edge_kwargs (VScalar "treated_with") (treated_with_attrs hash))
      = Ok g' ->
    R g g').

Implicit Types (g : Graph) (st : Graph * locals).

Lemma preserved_foldM {B} (f : Graph -> B -> result Graph) (xs : list B) g g' :
  (forall g x g', f g x = Ok g' -> R g g') ->
  foldM f g xs = Ok g' -> R g g'.
Proof.
  intros Hf H. eapply (foldM_invariant (R g)); [|apply R_refl|exact H].
  intros g1 x g2 _ Hg1 Hstep. eapply R_trans; [exact Hg1|by eapply Hf].
Qed.

Lemma preserved_foldM_state {B}
    (f : Graph * locals -> B -> result (Graph * locals)) (xs : list B) st st' :
  (forall st x st', f st x = Ok st' -> R st.1 st'.1) ->
  foldM f st xs = Ok st' -> R st.1 st'.1.
Proof.
  intros Hf H.
  eapply (foldM_invariant (fun st' => R st.1 st'.1)); [|apply R_refl|exact H].
  intros st1 x st2 _ Hst1 Hstep. eapply R_trans; [exact Hst1|by eapply Hf].
Qed.

Lemma preserved_set_container g n a d :
  node_data (g_node g) n = Some d -> R g (set_container g n a).
Proof.
  intros Hn. apply (R_add_node g n a). unfold add_node.
  by rewrite (touch_node_present _ _ _ _ Hn).
Qed.

(** Follows a successful step of a builder write by write. *)
Ltac preserved_step H :=
  first
    [ injection H as <-; apply R_refl
    | match goal with
      | Hn : add_node ?g _ _ = Ok ?g1 |- R ?g _ =>
          eapply R_trans; [exact (R_add_node _ _ _ _ Hn)|];
          first
            [ exact (R_add_edge_once _ _ _ _ _ _ H)
            | destruct (add_node_node_data _ _ _ _ Hn) as (?d & ?Hd & _);
              eapply R_trans; [eapply preserved_set_container; eassumption|];
              exact (R_add_edge_once _ _ _ _ _ _ H) ]
      end
    | exact (R_add_edge_once _ _ _ _ _ _ H) ].

Lemma preserved_hashing_builder b g gene annot_list g' :
  b ∈ hashing_builders hash -> b g gene annot_list = Ok g' -> R g g'.
Proof.
  intros Hb. unfold hashing_builders, func_dict in Hb.
  cbn [fmap list_fmap snd app] in Hb.
  repeat (apply elem_of_cons in Hb as [->|Hb]); try (by apply elem_of_nil in Hb);
    unfold_builders; apply preserved_foldM; intros g0 r g1 H; step_inv H;
    try (cbv zeta in H); preserved_step H.
Qed.

Lemma preserved_add_drug_disease_subgraph g label annot_list g' :
  add_drug_disease_subgraph hash g label annot_list = Ok g' -> R g g'.
Proof.
  apply preserved_foldM. intros g0 ddi g1 H. cbv zeta in H.
  apply mbind_Ok in H as (umls & _ & H). destruct label as [s| |].
  - destruct (has_edge g0 umls s) eqn:Hhas; simpl in H.
    + injection H as <-. apply R_refl.
    + by eapply R_treated_with.
  - by destruct (decide (umls = SNone)).
  - by destruct (decide (umls = SNone)).
Qed.

Lemma preserved_dispatch row gene g kb g' :
  kb ∈ func_dict hash -> dispatch row gene g kb = Ok g' -> R g g'.
Proof.
  intros Hkb H. unfold dispatch in H.
  destruct (row_contains row kb.1); [|injection H as <-; apply R_refl].
  apply mbind_Ok in H as (cell & _ & H).
  eapply preserved_hashing_builder; [|exact H].
  unfold hashing_builders. apply elem_of_app. left.
  apply list_elem_of_fmap. by exists kb.
Qed.

Lemma gene_row_Ok dea st row st' :
  gene_row hash dea st row = Ok st' ->
  exists label a g1,
    row !! "identifier" = Some (VScalar label) /\
    gene_node_attrs dea row = Ok a /\
    add_node st.1 label a = Ok g1 /\
    foldM (dispatch row label) g1 (func_dict hash) = Ok st'.1 /\
    st'.2 = mkLocals (Some row) (Some label).
Proof.
  unfold gene_row. cbv zeta. intros H.
  apply mbind_Ok in H as (identifier & Hid & H).
  apply mbind_Ok in H as (a & Ha & H).
  apply mbind_Ok in H as (label & Hlabel & H).
  apply mbind_Ok in H as (g1 & Hg1 & H).
  apply mbind_Ok in H as (g2 & Hg2 & H). injection H as <-.
  exists label, a, g1. unfold row_getitem in Hid.
  destruct (row !! "identifier") as [x|]; [injection Hid as ->|done].
  destruct identifier as [s| |]; [injection Hlabel as ->|done|done].
  done.
Qed.

Lemma preserved_dispatch_all row gene g g' :
  foldM (dispatch row gene) g (func_dict hash) = Ok g' -> R g g'.
Proof.
  intros H. eapply (foldM_invariant (R g)); [|apply R_refl|exact H].
  intros g1 kb g2 Hkb Hg1 Hstep. eapply R_trans; [exact Hg1|].
  by eapply preserved_dispatch.
Qed.

Lemma preserved_gene_row dea st row st' :
  gene_row hash dea st row = Ok st' -> R st.1 st'.1.
Proof.
  intros (label & a & g1 & _ & _ & Hg1 & Hg2 & _)%gene_row_Ok.
  eapply R_trans; [by eapply R_add_node|by eapply preserved_dispatch_all].
Qed.

Lemma preserved_ppi_row st row st' :
  ppi_row hash st row = Ok st' -> R st.1 st'.1.
Proof.
  intros H. unfold ppi_row in H. cbv zeta in H.
  apply mbind_Ok in H as (cell & _ & H).
  apply mbind_Ok in H as (gene & _ & H).
  apply mbind_Ok in H as (ppi_list & _ & H).
  apply mbind_Ok in H as (g1 & Hg1 & H). injection H as <-. simpl.
  eapply preserved_hashing_builder; [|exact Hg1].
  unfold hashing_builders. apply elem_of_app. right.
  by apply list_elem_of_singleton.
Qed.

Lemma preserved_drug_disease_row st row st' :
  drug_disease_row hash st row = Ok st' -> R st.1 st'.1.
Proof.
  intros (label & cell & recs & _ & _ & _ & H)%drug_disease_row_Ok.
  by eapply preserved_add_drug_disease_subgraph.
Qed.

Lemma preserved_first_pass fuse_df st st' :
  first_pass hash fuse_df st = Ok st' -> R st.1 st'.1.
Proof. apply preserved_foldM_state. intros ? ? ?. apply preserved_gene_row. Qed.

Lemma preserved_interaction_pass fuse_df st st' :
  interaction_pass hash fuse_df st = Ok st' -> R st.1 st'.1.
Proof.
  unfold interaction_pass. intros H. apply mbind_Ok in H as (row & _ & H).
  destruct (row_contains row "stringdb").
  - eapply preserved_foldM_state; [|exact H]. intros ? ? ?. apply preserved_ppi_row.
  - injection H as <-. apply R_refl.
Qed.

Lemma preserved_drug_disease_pass fuse_df drug_disease st st' :
  drug_disease_pass hash fuse_df drug_disease st = Ok st' -> R st.1 st'.1.
Proof.
  unfold drug_disease_pass. intros H.
  destruct drug_disease as [dd|]; [|injection H as <-; apply R_refl].
  apply mbind_Ok in H as (sel & _ & H). cbv zeta in H.
  apply mbind_Ok in H as (row & _ & H).
  destruct (row_contains row "drug_diseases").
  - eapply preserved_foldM_state; [|exact H].
    intros ? ? ?. apply preserved_drug_disease_row.
  - injection H as <-. apply R_refl.
Qed.

Lemma assemble_Ok fuse_df drug_disease g :
  assemble hash fuse_df drug_disease = Ok g ->
  exists st1 st2 st3,
    first_pass hash fuse_df (empty_graph, mkLocals None None) = Ok st1 /\
    interaction_pass hash fuse_df st1 = Ok st2 /\
    drug_disease_pass hash fuse_df drug_disease st2 = Ok st3 /\
    g = st3.1.
Proof.
  unfold assemble. cbv zeta. intros H.
  apply mbind_Ok in H as (st1 & H1 & H).
  apply mbind_Ok in H as (st2 & H2 & H).
  apply mbind_Ok in H as (st3 & H3 & H). injection H as <-.
  by exists st1, st2, st3.
Qed.

Lemma preserved_assemble fuse_df drug_disease g :
  assemble hash fuse_df drug_disease = Ok g -> R empty_graph g.
Proof.
  intros (st1 & st2 & st3 & H1 & H2 & H3 & ->)%assemble_Ok.
  apply preserved_first_pass in H1. apply preserved_interaction_pass in H2.
  apply preserved_drug_disease_pass in H3. simpl in H1. eauto.
Qed.

End Preserved.

(** ** The assembly only adds *)

Section OnlyAdds.

Context (hash : attrs -> Z).

Lemma extends_refl g : extends g g.
Proof. by split. Qed.

Lemma extends_trans g1 g2 g3 : extends g1 g2 -> extends g2 g3 -> extends g1 g3.
Proof.
  intros [Hn1 He1] [Hn2 He2]. split; [etrans; [exact Hn1|exact Hn2]|].
  intros u v. etrans; [apply He1|apply He2].
Qed.

Lemma upsert_labels n f (l : list (scalar * dict)) :
  (upsert n f l).*1 =
    match node_data l n with
    | Some _ => l.*1
    | None => l.*1 ++ [n]
    end.
Proof.
  induction l as [|[m d] l IH]; [done|]. simpl.
  destruct (decide (m = n)) as [->|Hne]; [done|]. simpl.
  destruct (node_data l n); simpl; f_equal; exact IH.
Qed.

Lemma upsert_labels_prefix n f (l : list (scalar * dict)) :
  l.*1 `prefix_of` (upsert n f l).*1.
Proof.
  rewrite upsert_labels. destruct (node_data l n); [done|]. by apply prefix_app_r.
Qed.

Lemma add_node_extends g n a g' : add_node g n a = Ok g' -> extends g g'.
Proof.
  intros H. apply add_node_Ok in H as ->. split; [apply upsert_labels_prefix|done].
Qed.

Lemma add_edge_edges g u v d g' u' v' :
  add_edge g u v d = Ok g' ->
  edges g' u' v' =
    if decide ((u', v') = (u, v)) then edges g u v ++ [d] else edges g u' v'.
Proof.
  intros H. unfold edges. destruct (decide ((u', v') = (u, v))) as [[= -> ->]|Hne].
  - by rewrite (add_edge_get_eq _ _ _ _ _ H).
  - by rewrite (add_edge_get_ne _ _ _ _ _ _ _ H Hne).
Qed.

Lemma add_edge_labels g u v d g' :
  add_edge g u v d = Ok g' ->
  node_labels g' = (upsert v (fun d => d) (upsert u (fun d => d) (g_node g))).*1.
Proof. by intros ->%add_edge_Ok. Qed.

Lemma add_edge_extends g u v d g' : add_edge g u v d = Ok g' -> extends g g'.
Proof.
  intros H. split.
  - rewrite (add_edge_labels _ _ _ _ _ H). unfold node_labels.
    etrans; apply upsert_labels_prefix.
  - intros u' v'. rewrite (add_edge_edges _ _ _ _ _ u' v' H).
    destruct (decide _) as [[= -> ->]|]; [by apply prefix_app_r|done].
Qed.

Lemma add_edge_once_extends g u v l a g' :
  add_edge_once hash g u v l a = Ok g' -> extends g g'.
Proof.
  rewrite add_edge_once_unfold. intros H.
  apply mbind_Ok in H as (found & _ & H).
  destruct (decide (length found = 0)).
  - by eapply add_edge_extends.
  - injection H as <-. apply extends_refl.
Qed.

Lemma treated_with_extends g u v g' :
  has_edge g u v = false ->
  add_edge g u v (edge_kwargs (VScalar "treated_with") (treated_with_attrs hash))
    = Ok g' -> extends g g'.
Proof. intros _. apply add_edge_extends. Qed.

(** Instantiates a lemma of the section [Preserved] with [extends]. *)
Ltac by_extends lemma :=
  intros; eapply (lemma hash extends);
  first [ eassumption | apply extends_refl | apply extends_trans
        | apply add_node_extends | apply add_edge_once_extends
        | apply treated_with_extends ].

Lemma hashing_builder_extends b g gene annot_list g' :
  b ∈ hashing_builders hash -> b g gene annot_list = Ok g' -> extends g g'.
Proof. by_extends preserved_hashing_builder. Qed.

Lemma add_drug_disease_subgraph_extends g label annot_list g' :
  add_drug_disease_subgraph hash g label annot_list = Ok g' -> extends g g'.
Proof. by_extends preserved_add_drug_disease_subgraph. Qed.

Lemma dispatch_all_extends row gene g g' :
  foldM (dispatch row gene) g (func_dict hash) = Ok g' -> extends g g'.
Proof. by_extends preserved_dispatch_all. Qed.

Lemma gene_row_extends dea st row st' :
  gene_row hash dea st row = Ok st' -> extends st.1 st'.1.
Proof. by_extends preserved_gene_row. Qed.

Lemma first_pass_extends fuse_df st st' :
  first_pass hash fuse_df st = Ok st' -> extends st.1 st'.1.
Proof. by_extends preserved_first_pass. Qed.

Lemma interaction_pass_extends fuse_df st st' :
  interaction_pass hash fuse_df st = Ok st' -> extends st.1 st'.1.
Proof. by_extends preserved_interaction_pass. Qed.

Lemma drug_disease_pass_extends fuse_df drug_disease st st' :
  drug_disease_pass hash fuse_df drug_disease st = Ok st' -> extends st.1 st'.1.
Proof. by_extends preserved_drug_disease_pass. Qed.

Lemma extends_node g g' n :
  extends g g' -> n ∈ node_labels g -> n ∈ node_labels g'.
Proof. intros [[k ->] _] Hn. apply elem_of_app. by left. Qed.

(** A call of a builder, and each of the three passes of
    [generate_networkx_graph], only adds to the graph: the nodes there were
    stay, in the order they were added (their containers may be replaced),
    and each ordered pair keeps its parallel edges as they were, the new
    ones after them. Nothing is removed, reordered or rewritten. *)
Theorem assembly_only_adds :
  (forall b g gene annot_list g',
     b ∈ hashing_builders hash ->
     b g gene annot_list = Ok g' -> extends g g') /\
  (forall g label annot_list g',
     add_drug_disease_subgraph hash g label annot_list = Ok g' -> extends g g') /\
  (forall fuse_df st st',
     first_pass hash fuse_df st = Ok st' -> extends st.1 st'.1) /\
  (forall fuse_df st st',
     interaction_pass hash fuse_df st = Ok st' -> extends st.1 st'.1) /\
  (forall fuse_df drug_disease st st',
     drug_disease_pass hash fuse_df drug_disease st = Ok st' ->
     extends st.1 st'.1).
Proof.
  split; [|split; [|split; [|split]]].
  - intros b g gene annot_list g'. apply hashing_builder_extends.
  - apply add_drug_disease_subgraph_extends.
  - apply first_pass_extends.
  - apply interaction_pass_extends.
  - apply drug_disease_pass_extends.
Qed.

End OnlyAdds.

(** ** Parallel edges differ in their identity *)

Section Identities.

Context (hash : attrs -> Z).

Lemma filterM_none {A} (p : A -> result bool) (xs : list A) :
  filterM p xs = Ok [] -> Forall (fun x => p x = Ok false) xs.
Proof.
  induction xs as [|x xs IH]; intros H; [constructor|]. simpl in H.
  apply mbind_Ok in H as (b & Hb & H). apply mbind_Ok in H as (ys & Hys & H).
  destruct b; [done|]. injection H as ->. constructor; [done|by apply IH].
Qed.

Lemma carries_hash_stored_hash h d h' :
  stored_hash d = Some h' -> carries_hash h d = Ok (bool_decide (h' = h)).
Proof.
  unfold stored_hash, carries_hash, data_getitem. intros H.
  destruct (d !! SStr "attr_dict") as [[|a]|]; [done| |done].
  cbn [mbind result_bind bind subscript].
  destruct (a !! SStr "edge_hash") as [[[| | | h0| |]| |]|]; try done.
  injection H as ->. cbn [mbind result_bind bind]. f_equal.
  apply bool_decide_ext. split; [by intros [= ->]|by intros ->].
Qed.

Lemma stored_hash_edge_kwargs label a :
  stored_hash (edge_kwargs label (with_hash hash a)) = Some (hash a).
Proof.
  unfold stored_hash, edge_kwargs, with_hash, setitem.
  by rewrite !lookup_insert_eq.
Qed.

Lemma distinct_identities_adj g g' :
  g_adj g' = g_adj g -> distinct_identities g -> distinct_identities g'.
Proof.
  intros Hadj Hg u v. unfold edges, get_edge_data. rewrite Hadj. apply Hg.
Qed.

Lemma distinct_identities_add_edge g u v label a g' :
  Forall (fun d => carries_hash (hash a) d = Ok false) (edges g u v) ->
  add_edge g u v (edge_kwargs label (with_hash hash a)) = Ok g' ->
  distinct_identities g -> distinct_identities g'.
Proof.
  intros Hnew H Hg u' v'. rewrite (add_edge_edges _ _ _ _ _ u' v' H).
  destruct (decide _) as [[= -> ->]|]; [|apply Hg].
  destruct (Hg u v) as (hs & Hhs & Hnd). exists (hs ++ [hash a]). split.
  - apply Forall2_app; [done|]. constructor; [|constructor].
    apply stored_hash_edge_kwargs.
  - apply NoDup_app. split; [done|]. split; [|apply NoDup_singleton].
    intros h Hh ->%list_elem_of_singleton.
    apply list_elem_of_lookup in Hh as (i & Hi).
    destruct (Forall2_lookup_r _ _ _ _ _ Hhs Hi) as (d & Hd & Hstored).
    pose proof (Forall_lookup_1 _ _ _ _ Hnew Hd) as Hfalse. simpl in Hfalse.
    rewrite (carries_hash_stored_hash _ _ _ Hstored) in Hfalse.
    injection Hfalse as Hfalse. by apply bool_decide_eq_false in Hfalse.
Qed.

Lemma add_edge_once_distinct g u v label a g' :
  add_edge_once hash g u v label a = Ok g' ->
  distinct_identities g -> distinct_identities g'.
Proof.
  rewrite add_edge_once_unfold. intros H.
  apply mbind_Ok in H as (found & Hfound & H).
  destruct (decide (length found = 0)) as [Hlen|].
  - apply nil_length_inv in Hlen as ->. apply filterM_none in Hfound.
    by eapply distinct_identities_add_edge.
  - by injection H as <-.
Qed.

Lemma treated_with_distinct g u v g' :
  has_edge g u v = false ->
  add_edge g u v (edge_kwargs (VScalar "treated_with") (treated_with_attrs hash))
    = Ok g' ->
  distinct_identities g -> distinct_identities g'.
Proof.
  intros Hnone H. eapply distinct_identities_add_edge; [|exact H].
  apply has_edge_false in Hnone. unfold edges. by rewrite Hnone.
Qed.

(** In the graph the three passes assemble, every edge carries an
    identity and no two parallel edges of an ordered pair carry the same
    one; each builder keeps it so. (The flattening then drops the
    identities.) *)
Theorem parallel_edges_differ_in_identity :
  (forall fuse_df drug_disease g,
     assemble hash fuse_df drug_disease = Ok g -> distinct_identities g) /\
  (forall b g gene annot_list g',
     b ∈ hashing_builders hash ->
     b g gene annot_list = Ok g' ->
     distinct_identities g -> distinct_identities g') /\
  (forall g label annot_list g',
     add_drug_disease_subgraph hash g label annot_list = Ok g' ->
     distinct_identities g -> distinct_identities g').
Proof.
  set (R := fun g g' : Graph => distinct_identities g -> distinct_identities g').
  assert (forall g, R g g) as Hr by (intros g Hg; exact Hg).
  assert (forall g1 g2 g3, R g1 g2 -> R g2 g3 -> R g1 g3) as Ht
    by (intros g1 g2 g3 H12 H23 H1; apply H23, H12, H1).
  assert (forall g n a g', add_node g n a = Ok g' -> R g g') as Hn
    by (intros g n a g' H Hg; eapply distinct_identities_adj; [|exact Hg];
        by apply add_node_adj in H).
  assert (forall g u v l a g', add_edge_once hash g u v l a = Ok g' -> R g g')
    as He by (intros g u v l a g' H Hg; by eapply add_edge_once_distinct).
  assert (forall g u v g',
    has_edge g u v = false ->
    add_edge g u v (edge_kwargs (VScalar "treated_with") (treated_with_attrs hash))
      = Ok g' -> R g g') as Hd
    by (intros g u v g' Hnone H Hg; by eapply treated_with_distinct).
  split; [|split].
  - intros fuse_df drug_disease g H.
    apply (preserved_assemble hash R Hr Ht Hn He Hd _ _ _ H).
    intros u v. exists []. split; [constructor|apply NoDup_nil_2].
  - intros b g gene annot_list g' Hb.
    by apply (preserved_hashing_builder hash R).
  - intros g label annot_list g'.
    by apply (preserved_add_drug_disease_subgraph hash R).
Qed.

End Identities.

(** ** The direction of the edges *)

Section Direction.

Context (hash : attrs -> Z).

Lemma only_from_refl gene g : only_from gene g g.
Proof. by intros u v _. Qed.

Lemma only_from_trans gene g1 g2 g3 :
  only_from gene g1 g2 -> only_from gene g2 g3 -> only_from gene g1 g3.
Proof. intros H12 H23 u v Hu. by rewrite H23, H12. Qed.

Lemma only_into_refl gene g : only_into gene g g.
Proof. by intros u v _. Qed.

Lemma only_into_trans gene g1 g2 g3 :
  only_into gene g1 g2 -> only_into gene g2 g3 -> only_into gene g1 g3.
Proof. intros H12 H23 u v Hv. by rewrite H23, H12. Qed.

Lemma edges_adj g g' u v : g_adj g' = g_adj g -> edges g' u v = edges g u v.
Proof. unfold edges, get_edge_data. by intros ->. Qed.

Lemma add_edge_once_changes g u v label a g' u' v' :
  add_edge_once hash g u v label a = Ok g' ->
  (u', v') <> (u, v) -> edges g' u' v' = edges g u' v'.
Proof.
  intros [->|[_ Hother]]%add_edge_once_edges Hne; [done|].
  unfold edges. by rewrite Hother.
Qed.

Lemma add_edge_once_only_from g u v label a g0 g' :
  g_adj g = g_adj g0 ->
  add_edge_once hash g u v label a = Ok g' -> only_from u g0 g'.
Proof.
  intros Hadj H u' v' Hu. rewrite (add_edge_once_changes _ _ _ _ _ _ u' v' H).
  - by apply edges_adj.
  - by intros [= -> _].
Qed.

Lemma add_edge_once_only_into g u v label a g0 g' :
  g_adj g = g_adj g0 ->
  add_edge_once hash g u v label a = Ok g' -> only_into v g0 g'.
Proof.
  intros Hadj H u' v' Hv. rewrite (add_edge_once_changes _ _ _ _ _ _ u' v' H).
  - by apply edges_adj.
  - by intros [= _ ->].
Qed.

(** Closes a step of a builder: the record was passed over, or a node was
    upserted and an edge attempted. *)
Ltac direction_step lemma H :=
  first
    [ injection H as <-; first [apply only_from_refl|apply only_into_refl]
    | eapply lemma; [|exact H];
      repeat match goal with
      | Hn : add_node _ _ _ = Ok _ |- _ => apply add_node_adj in Hn
      end;
      simpl; congruence ].

Lemma outgoing_builder_only_from b g gene annot_list g' :
  b ∈ outgoing_builders hash -> b g gene annot_list = Ok g' -> only_from gene g g'.
Proof.
  intros Hb. unfold outgoing_builders in Hb.
  repeat (apply elem_of_cons in Hb as [->|Hb]); try (by apply elem_of_nil in Hb);
    unfold_builders;
    (intros Hfold; eapply (foldM_invariant (only_from gene g));
       [|apply only_from_refl|exact Hfold]; clear Hfold;
     intros g0 r g1 _ Hg0 H; eapply only_from_trans; [exact Hg0|];
     cbv beta in H; step_inv H; try (cbv zeta in H);
     direction_step add_edge_once_only_from H).
Qed.

Lemma add_opentargets_drug_subgraph_only_into g gene annot_list g' :
  add_opentargets_drug_subgraph hash g gene annot_list = Ok g' ->
  only_into gene g g'.
Proof.
  unfold_builders. intros Hfold.
  eapply (foldM_invariant (only_into gene g));
    [|apply only_into_refl|exact Hfold]; clear Hfold.
  intros g0 r g1 _ Hg0 H. eapply only_into_trans; [exact Hg0|].
  cbv beta in H. step_inv H; direction_step add_edge_once_only_into H.
Qed.

Lemma add_drug_disease_subgraph_only_into g gene annot_list g' :
  add_drug_disease_subgraph hash g (VScalar gene) annot_list = Ok g' ->
  only_into gene g g'.
Proof.
  intros Hfold.
  eapply (foldM_invariant (only_into gene g));
    [|apply only_into_refl|exact Hfold]; clear Hfold.
  intros g0 r g1 _ Hg0 H. eapply only_into_trans; [exact Hg0|].
  cbv beta zeta in H. apply mbind_Ok in H as (umls & _ & H).
  destruct (has_edge g0 umls gene); simpl in H.
  - injection H as <-. apply only_into_refl.
  - intros u v Hv. rewrite (add_edge_edges _ _ _ _ _ u v H).
    destruct (decide _) as [[= _ ->]|]; done.
Qed.

(** The edges a builder adds run between the gene it is called for and
    the entity of the record: from the gene for every builder but two, to
    the gene for the drug builder of OpenTargets and for the drug-disease
    builder. No edge between two other nodes is added, and none in the
    other direction. *)
Theorem builders_link_the_gene :
  (forall b g gene annot_list g',
     b ∈ outgoing_builders hash ->
     b g gene annot_list = Ok g' -> only_from gene g g') /\
  (forall g gene annot_list g',
     add_opentargets_drug_subgraph hash g gene annot_list = Ok g' ->
     only_into gene g g') /\
  (forall g gene annot_list g',
     add_drug_disease_subgraph hash g (VScalar gene) annot_list = Ok g' ->
     only_into gene g g').
Proof.
  split; [|split].
  - apply outgoing_builder_only_from.
  - apply add_opentargets_drug_subgraph_only_into.
  - apply add_drug_disease_subgraph_only_into.
Qed.

Lemma first_pass_last_label fuse_df rs row st st' :
  rows fuse_df = rs ++ [row] ->
  first_pass hash fuse_df st = Ok st' ->
  exists gene, row !! "identifier" = Some (VScalar gene) /\
               l_gene_node_label st'.2 = Some gene.
Proof.
  unfold first_pass. intros -> H. rewrite foldM_app in H.
  apply mbind_Ok in H as (st1 & _ & H). rewrite foldM_singleton in H.
  apply gene_row_Ok in H as (label & a & g1 & Hid & _ & _ & _ & ->).
  by exists label.
Qed.

Lemma ppi_row_only_from gene st row st' :
  l_gene_node_label st.2 = Some gene ->
  ppi_row hash st row = Ok st' ->
  l_gene_node_label st'.2 = Some gene /\ only_from gene st.1 st'.1.
Proof.
  intros Hgene H. unfold ppi_row in H. cbv zeta in H. rewrite Hgene in H.
  apply mbind_Ok in H as (cell & _ & H).
  apply mbind_Ok in H as (gene' & [= <-] & H).
  apply mbind_Ok in H as (ppi_list & _ & H).
  apply mbind_Ok in H as (g1 & Hg1 & H). injection H as <-. simpl.
  split; [done|]. eapply outgoing_builder_only_from; [|exact Hg1].
  unfold outgoing_builders. set_solver.
Qed.

(** The interaction pass reads the gene label as the first pass left it:
    every edge it adds leaves the gene of the last row of the table,
    whichever row the interaction record stands in. *)
Theorem interaction_pass_links_the_last_gene fuse_df rs row st st1 st2 :
  rows fuse_df = rs ++ [row] ->
  first_pass hash fuse_df st = Ok st1 ->
  interaction_pass hash fuse_df st1 = Ok st2 ->
  exists gene, row !! "identifier" = Some (VScalar gene) /\
               only_from gene st1.1 st2.1.
Proof.
  intros Hrows H1 H2.
  destruct (first_pass_last_label _ _ _ _ _ Hrows H1) as (gene & Hid & Hgene).
  exists gene. split; [done|]. unfold interaction_pass in H2.
  apply mbind_Ok in H2 as (row' & _ & H2).
  destruct (row_contains row' "stringdb");
    [|injection H2 as <-; apply only_from_refl].
  eapply (foldM_invariant
            (fun st' => l_gene_node_label st'.2 = Some gene /\
                        only_from gene st1.1 st'.1));
    [|split; [exact Hgene|apply only_from_refl]|exact H2].
  intros st0 r st0' _ [Hl Hfrom] Hstep.
  destruct (ppi_row_only_from _ _ _ _ Hl Hstep) as [Hl' Hfrom'].
  split; [done|]. by eapply only_from_trans.
Qed.

End Direction.

(** ** The graph that is returned *)

Section NoNoneNode.

Context (hash : attrs -> Z).

Lemma node_data_labels (l : list (scalar * dict)) n :
  is_Some (node_data l n) <-> n ∈ l.*1.
Proof.
  induction l as [|[m d] l IH]; simpl.
  - split; [by intros [? ?]|by intros ?%elem_of_nil].
  - rewrite elem_of_cons. destruct (decide (m = n)) as [->|Hne].
    + split; [by left|by eexists].
    + rewrite IH. split; [by right|by intros [->|?]].
Qed.

Lemma touch_node_labels n f l l' :
  touch_node n f l = Ok l' -> SNone ∉ l.*1 -> SNone ∉ l'.*1.
Proof.
  unfold touch_node. intros H Hl.
  destruct (node_data l n) as [d|] eqn:Hn.
  - injection H as <-. by rewrite upsert_labels, Hn.
  - destruct (decide (n = SNone)); [done|]. injection H as <-.
    rewrite upsert_labels, Hn. rewrite elem_of_app, list_elem_of_singleton.
    by intros [?|?].
Qed.

Lemma add_node_none_free g n a g' : add_node g n a = Ok g' -> none_free g g'.
Proof.
  unfold add_node. intros H. apply mbind_Ok in H as (nodes & Hnodes & H).
  injection H as <-. intros Hg. by apply touch_node_labels in Hnodes.
Qed.

Lemma add_edge_none_free g u v d g' : add_edge g u v d = Ok g' -> none_free g g'.
Proof.
  unfold add_edge. intros H. apply mbind_Ok in H as (nodes & Hnodes & H).
  apply mbind_Ok in H as (nodes' & Hnodes' & H). injection H as <-.
  intros Hg. apply touch_node_labels in Hnodes; [|done].
  by apply touch_node_labels in Hnodes'.
Qed.

Lemma add_edge_once_none_free g u v l a g' :
  add_edge_once hash g u v l a = Ok g' -> none_free g g'.
Proof.
  rewrite add_edge_once_unfold. intros H.
  apply mbind_Ok in H as (found & _ & H).
  destruct (decide (length found = 0)); [by eapply add_edge_none_free|].
  injection H as <-. by intros Hg.
Qed.

Lemma assemble_none_free fuse_df drug_disease g :
  assemble hash fuse_df drug_disease = Ok g -> SNone ∉ node_labels g.
Proof.
  intros H.
  apply (preserved_assemble hash none_free) in H.
  - apply H. apply not_elem_of_nil.
  - by intros g0 Hg0.
  - intros g1 g2 g3 H12 H23 H1. by apply H23, H12.
  - apply add_node_none_free.
  - apply add_edge_once_none_free.
  - intros g0 u v g' _. apply add_edge_none_free.
Qed.

End NoNoneNode.

Section Returned.

Context (hash : attrs -> Z).

Lemma foldM_steps {A B} (f : A -> B -> result A) (xs : list B) (a a' : A) :
  foldM f a xs = Ok a' -> forall x, x ∈ xs -> exists a1 a2, f a1 x = Ok a2.
Proof.
  revert a. induction xs as [|y xs IH]; intros a H x Hx;
    [by apply elem_of_nil in Hx|].
  rewrite foldM_cons in H. apply mbind_Ok in H as (a1 & Hy & H).
  apply elem_of_cons in Hx as [->|Hx]; [by exists a, a1|by eapply IH].
Qed.

Lemma gene_node_attrs_Ok dea row a :
  gene_node_attrs dea row = Ok a ->
  exists (labels id : value) (ns : scalar),
    row !! "identifier" = Some labels /\ row !! "target" = Some id /\
    row !! "target.source" = Some (VScalar ns) /\
    foldM (fun a c => v ← row_getitem row c; Ok (setitem a (SStr (drop_last 4 c)) v))
      (mk_attrs [(SStr "source", VScalar "BridgeDB"); (SStr "labels", labels);
                 (SStr "id", id); (SStr "node_type", VScalar "Gene");
                 (ns, id)]) dea = Ok a.
Proof.
  unfold gene_node_attrs, row_getitem. intros H.
  destruct (row !! "identifier") as [labels|]; [|done].
  destruct (row !! "target") as [id|]; [|done].
  destruct (row !! "target.source") as [[ns| |]|]; try done.
  cbn [mbind result_bind bind hashable] in H. by exists labels, id, ns.
Qed.

Lemma gene_node_attrs_columns dea row a c :
  gene_node_attrs dea row = Ok a -> c ∈ dea -> is_Some (row !! c).
Proof.
  intros (labels & id & ns & _ & _ & _ & H)%gene_node_attrs_Ok Hc.
  destruct (foldM_steps _ _ _ _ H c Hc) as (a1 & a2 & Hstep).
  apply mbind_Ok in Hstep as (x & Hx & _). unfold row_getitem in Hx.
  by destruct (row !! c).
Qed.

Lemma finalize_labels g g' : finalize g = Ok g' -> node_labels g' = node_labels g.
Proof.
  intros [Hnodes _]%finalize_Ok. unfold node_labels.
  induction Hnodes as [|nd nd' l l' [Hlabel _] _ IH]; [done|].
  rewrite !fmap_cons. by f_equal.
Qed.

Lemma first_pass_rows fuse_df st st' row :
  first_pass hash fuse_df st = Ok st' -> row ∈ rows fuse_df ->
  exists gene a,
    row !! "identifier" = Some (VScalar gene) /\
    gene_node_attrs (dea_columns fuse_df) row = Ok a /\
    gene ∈ node_labels st'.1.
Proof.
  intros H. revert row. unfold first_pass in H.
  eapply (foldM_establishes
            (fun row (st' : Graph * locals) => exists gene a,
               row !! "identifier" = Some (VScalar gene) /\
               gene_node_attrs (dea_columns fuse_df) row = Ok a /\
               gene ∈ node_labels st'.1)); [| |exact H].
  - intros st0 row st1 Hstep.
    apply gene_row_Ok in Hstep as (gene & a & g1 & Hid & Ha & Hg1 & Hg2 & _).
    exists gene, a. split; [done|]. split; [done|].
    eapply extends_node; [by eapply dispatch_all_extends|].
    destruct (add_node_node_data _ _ _ _ Hg1) as (d & Hd & _).
    apply node_data_labels. by rewrite Hd.
  - intros st0 row st1 row' Hstep (gene & a & Hid & Ha & Hin).
    exists gene, a. split; [done|]. split; [done|].
    eapply extends_node; [by eapply gene_row_extends|done].
Qed.

(** A table the function returns a graph for has, in every row, an
    identifier that is a label other than [None], a target, a namespace
    that can be a dictionary key, and a cell for every
    differential-expression column; and every row's identifier is a node of
    the graph. *)
Theorem every_gene_is_a_node fuse_df drug_disease g row :
  generate_networkx_graph hash fuse_df drug_disease = Ok g ->
  row ∈ rows fuse_df ->
  exists (gene ns : scalar) (target : value),
    row !! "identifier" = Some (VScalar gene) /\ gene <> SNone /\
    row !! "target" = Some target /\
    row !! "target.source" = Some (VScalar ns) /\
    (forall c, c ∈ dea_columns fuse_df -> is_Some (row !! c)) /\
    gene ∈ node_labels g.
Proof.
  intros (draft & Hdraft & Hg)%generate_networkx_graph_Ok Hrow.
  pose proof (assemble_none_free _ _ _ _ Hdraft) as Hnone.
  apply assemble_Ok in Hdraft as (st1 & st2 & st3 & H1 & H2 & H3 & ->).
  destruct (first_pass_rows _ _ _ _ H1 Hrow) as (gene & a & Hid & Ha & Hin).
  apply interaction_pass_extends in H2. apply drug_disease_pass_extends in H3.
  assert (gene ∈ node_labels st3.1) as Hin3
    by (eapply extends_node; [exact H3|]; by eapply extends_node).
  destruct (gene_node_attrs_Ok _ _ _ Ha) as (labels & id & ns & _ & Hid' & Hns & _).
  exists gene, ns, id. split; [done|]. split; [by intros ->|].
  split; [done|]. split; [done|]. split.
  - intros c Hc. by eapply gene_node_attrs_columns.
  - by rewrite (finalize_labels _ _ Hg).
Qed.

(** The flattening of the attributes keeps the graph's shape: the nodes
    and their order, and the number of parallel edges of every ordered
    pair. *)
Theorem flattening_keeps_the_shape fuse_df drug_disease g :
  generate_networkx_graph hash fuse_df drug_disease = Ok g ->
  exists draft,
    assemble hash fuse_df drug_disease = Ok draft /\
    node_labels g = node_labels draft /\
    forall u v, length (edges g u v) = length (edges draft u v).
Proof.
  intros (draft & Hdraft & Hg)%generate_networkx_graph_Ok.
  exists draft. split; [done|]. split; [by apply finalize_labels|].
  intros u v. symmetry. eapply Forall2_length. by apply finalize_edges_lookup.
Qed.

Lemma traverse_total {A B} (f : A -> result B) (xs : list A) :
  Forall (fun x => exists y, f x = Ok y) xs -> exists ys, traverse f xs = Ok ys.
Proof.
  induction 1 as [|x xs [y Hy] _ [ys IH]]; [by exists []|].
  exists (y :: ys). simpl. by rewrite Hy, IH.
Qed.

Lemma traverse_raises {A B} (f : A -> result B) (xs : list A) (e : exn) :
  Forall (fun x => (exists y, f x = Ok y) \/ f x = Err e) xs ->
  Exists (fun x => f x = Err e) xs ->
  traverse f xs = Err e.
Proof.
  induction 1 as [|x xs Hx Hxs IH]; intros Hex; [by apply Exists_nil in Hex|].
  simpl. destruct Hx as [[y Hy]|Hx]; [|by rewrite Hx].
  rewrite Hy. cbn [mbind result_bind bind].
  apply Exists_cons in Hex as [Hex|Hex]; [congruence|]. by rewrite IH.
Qed.

Lemma finalize_edges_total g :
  written (fun _ => True) g ->
  exists adj,
    traverse (fun e => l ← traverse finalize_edge e.2; Ok (e.1, l))
      (map_to_list (g_adj g)) = Ok adj.
Proof.
  intros Hg. apply traverse_total. apply Forall_forall. intros [[u v] l] Hl.
  apply elem_of_map_to_list in Hl.
  pose proof (written_edges _ _ u v Hg) as Hedges. unfold edges, get_edge_data in Hedges.
  rewrite Hl in Hedges. simpl in Hedges.
  destruct (traverse_total finalize_edge l) as [l' Hl'].
  - eapply Forall_impl; [exact Hedges|]. intros d (label & a & ->).
    destruct (finalize_edge_kwargs label a) as (d' & Hd' & _). by exists d'.
  - exists ((u, v), l'). simpl. by rewrite Hl'.
Qed.

Lemma node_data_elem_of (l : list (scalar * dict)) n d :
  node_data l n = Some d -> (n, d) ∈ l.
Proof.
  induction l as [|[m d'] l IH]; [done|]. simpl.
  destruct (decide (m = n)) as [->|]; [intros [= ->]; by left|].
  intros H. right. by apply IH.
Qed.

Lemma written_nodes g :
  written (fun _ => True) g ->
  Forall (fun nd => nd.2 = ∅ \/ exists a, nd.2 = {[SStr "attr_dict" := ODict a]})
    (g_node g).
Proof.
  intros (ops & _ & Hops). revert g Hops.
  induction ops as [|o ops IH] using rev_ind; intros g Hops.
  - injection Hops as <-. constructor.
  - rewrite foldM_app in Hops. apply mbind_Ok in Hops as (g0 & Hg0 & Hops).
    rewrite foldM_singleton in Hops. specialize (IH g0 Hg0).
    destruct o as [n a|u v l a]; simpl in Hops.
    + apply add_node_Ok in Hops as ->. simpl.
      apply (Forall_upsert
               (fun d => d = ∅ \/ exists a, d = {[SStr "attr_dict" := ODict a]}));
        [done| |].
      * right. exists a. by rewrite insert_empty.
      * intros d [->|[a' ->]]; right; exists a;
          [by rewrite insert_empty|by rewrite insert_singleton_eq].
    + apply add_edge_Ok in Hops as ->. simpl.
      apply (Forall_upsert
               (fun d => d = ∅ \/ exists a, d = {[SStr "attr_dict" := ODict a]}));
        [|by left|done].
      apply (Forall_upsert
               (fun d => d = ∅ \/ exists a, d = {[SStr "attr_dict" := ODict a]}));
        [done|by left|done].
Qed.

Lemma upsert_NoDup n f (l : list (scalar * dict)) :
  NoDup l.*1 -> NoDup (upsert n f l).*1.
Proof.
  intros Hl. rewrite upsert_labels. destruct (node_data l n) eqn:Hn; [done|].
  apply NoDup_app. split; [done|]. split; [|apply NoDup_singleton].
  intros m Hm ->%list_elem_of_singleton.
  apply node_data_labels in Hm as [d Hd]. congruence.
Qed.

Lemma written_NoDup g : written (fun _ => True) g -> NoDup (node_labels g).
Proof.
  intros (ops & _ & Hops). revert g Hops.
  induction ops as [|o ops IH] using rev_ind; intros g Hops.
  - injection Hops as <-. apply NoDup_nil_2.
  - rewrite foldM_app in Hops. apply mbind_Ok in Hops as (g0 & Hg0 & Hops).
    rewrite foldM_singleton in Hops. specialize (IH g0 Hg0).
    destruct o as [n a|u v l a]; simpl in Hops.
    + apply add_node_Ok in Hops as ->. by apply upsert_NoDup.
    + apply add_edge_Ok in Hops as ->. by apply upsert_NoDup, upsert_NoDup.
Qed.

Lemma elem_of_node_data (l : list (scalar * dict)) n d :
  NoDup l.*1 -> (n, d) ∈ l -> node_data l n = Some d.
Proof.
  induction l as [|[m d'] l IH]; intros Hl Hin; [by apply elem_of_nil in Hin|].
  rewrite fmap_cons in Hl. apply NoDup_cons in Hl as [Hm Hl]. simpl.
  apply elem_of_cons in Hin as [[= -> ->]|Hin].
  - by rewrite decide_True.
  - destruct (decide (m = n)) as [->|]; [|by apply IH].
    exfalso. apply Hm. apply list_elem_of_fmap. by exists (n, d).
Qed.

Lemma finalize_bare g n :
  written (fun _ => True) g -> node_data (g_node g) n = Some ∅ ->
  finalize g = Err (KeyError "attr_dict").
Proof.
  intros Hw Hn. unfold finalize. pose proof (written_nodes _ Hw) as Hnodes.
  rewrite (traverse_raises
             (fun nd : scalar * dict => d ← finalize_node nd.2; Ok (nd.1, d))
             (g_node g) (KeyError "attr_dict")); [done| |].
  - eapply Forall_impl; [exact Hnodes|]. intros [m d] Hd. simpl in Hd.
    destruct Hd as [->|[a ->]]; simpl.
    + right. by rewrite finalize_node_no_container.
    + left. rewrite finalize_node_container. by eexists.
  - apply Exists_exists. exists (n, ∅). split; [by apply node_data_elem_of|].
    simpl. by rewrite finalize_node_no_container.
Qed.

Lemma finalize_total g :
  written (fun _ => True) g ->
  (forall n, node_data (g_node g) n <> Some ∅) ->
  exists g', finalize g = Ok g'.
Proof.
  intros Hw Hall. unfold finalize. pose proof (written_nodes _ Hw) as Hnodes.
  destruct (finalize_edges_total _ Hw) as [adj Hadj].
  destruct (traverse_total (fun nd => d ← finalize_node nd.2; Ok (nd.1, d))
              (g_node g)) as [nodes Hn].
  - apply Forall_forall. intros [m d] Hin.
    pose proof (proj1 (Forall_forall _ _) Hnodes _ Hin) as [Hd|[a Hd]];
      simpl in Hd; subst d.
    + exfalso. apply (Hall m). apply elem_of_node_data; [|done].
      by apply written_NoDup.
    + simpl. rewrite finalize_node_container. by eexists.
  - rewrite Hn, Hadj. by eexists.
Qed.

(** The flattening reads the container of every node. A node that only
    ever was the endpoint of an edge (an interaction partner or a disease of
    the drug-disease table that no record upserted) has none: with such a
    node in the assembled graph the function raises [KeyError('attr_dict')],
    and without one it returns a graph. *)
Theorem flattening_needs_a_container fuse_df drug_disease draft :
  assemble hash fuse_df drug_disease = Ok draft ->
  ((exists n, node_data (g_node draft) n = Some ∅) ->
     generate_networkx_graph hash fuse_df drug_disease
       = Err (KeyError "attr_dict")) /\
  ((forall n, node_data (g_node draft) n <> Some ∅) ->
     exists g, generate_networkx_graph hash fuse_df drug_disease = Ok g).
Proof.
  intros Hdraft. unfold generate_networkx_graph. rewrite Hdraft.
  cbn [mbind result_bind bind].
  pose proof (assemble_written_any _ _ _ _ Hdraft) as Hw. split.
  - intros [n Hn]. by eapply finalize_bare.
  - by apply finalize_total.
Qed.

End Returned.

(** ** What the records must hold, and what the edges hold *)

Section Records.

Context (hash : attrs -> Z).

Lemma finalize_edge_label (label : value) (a : attrs) d :
  finalize_edge (edge_kwargs label a) = Ok d ->
  exists x : value, d !! SStr "label" = Some (OVal x).
Proof.
  unfold finalize_edge, edge_kwargs. rewrite lookup_insert_eq.
  cbn [items mbind result_bind bind]. intros [= <-].
  rewrite lookup_delete_ne by done.
  rewrite (map_fold_set_lookup
             (fun x y => negb (is_None y) && negb (bool_decide (x = SStr "edge_hash")))).
  rewrite lookup_insert_ne by done. rewrite lookup_insert_eq.
  destruct (a !! SStr "label") as [y|]; [|by eexists].
  destruct (negb (is_None y) && _); by eexists.
Qed.

(** Every edge of the returned graph has an attribute ["label"]. *)
Theorem every_edge_has_a_label fuse_df drug_disease g u v d :
  generate_networkx_graph hash fuse_df drug_disease = Ok g ->
  d ∈ edges g u v ->
  exists x : value, d !! SStr "label" = Some (OVal x).
Proof.
  intros (draft & Hdraft & Hg)%generate_networkx_graph_Ok Hd.
  apply list_elem_of_lookup in Hd as (i & Hi).
  pose proof (finalize_edges_lookup _ _ u v Hg) as Hedges.
  destruct (Forall2_lookup_r _ _ _ _ _ Hedges Hi) as (d0 & Hd0 & Hfin).
  pose proof (written_edges _ _ u v (assemble_written_any _ _ _ _ Hdraft)) as Hw.
  destruct (Forall_lookup_1 _ _ _ _ Hw Hd0) as (label & a & ->).
  by eapply finalize_edge_label.
Qed.

Lemma dispatch_reads kb row gene g g' field recs r :
  kb ∈ func_dict hash -> (kb.1, field) ∈ first_read ->
  dispatch row gene g kb = Ok g' ->
  row !! kb.1 = Some (VList recs) -> r ∈ recs ->
  is_Some (r !! field).
Proof.
  intros Hkb Hfield H Hcell Hr. unfold dispatch, row_contains, row_getitem in H.
  rewrite Hcell in H. rewrite bool_decide_eq_true_2 in H by by eexists.
  cbn [mbind result_bind bind json_roundtrip] in H. cbv zeta in H.
  unfold func_dict in Hkb. unfold first_read in Hfield.
  repeat (apply elem_of_cons in Hkb as [->|Hkb]); try (by apply elem_of_nil in Hkb);
    cbn [fst snd] in *;
    repeat (apply elem_of_cons in Hfield as [Hfield|Hfield]);
    try (by apply elem_of_nil in Hfield); try discriminate Hfield;
    injection Hfield as ->;
    unfold_builders;
    destruct (foldM_steps _ _ _ _ H r Hr) as (g1 & g2 & Hstep);
    cbv beta in Hstep; apply mbind_Ok in Hstep as (x & Hx & _);
    unfold getitem in Hx; by destruct (r !! _).
Qed.

(** A table the function returns a graph for has, in every record of every
    list cell of a registry column, the field the column's builder reads
    first: a record without it makes the call raise [KeyError]. *)
Theorem records_hold_the_identifying_field fuse_df drug_disease g row col field recs r :
  generate_networkx_graph hash fuse_df drug_disease = Ok g ->
  row ∈ rows fuse_df -> (col, field) ∈ first_read ->
  row !! col = Some (VList recs) -> r ∈ recs ->
  is_Some (r !! field).
Proof.
  intros (draft & Hdraft & _)%generate_networkx_graph_Ok Hrow Hfield Hcell Hr.
  apply assemble_Ok in Hdraft as (st1 & _ & _ & H1 & _).
  destruct (foldM_steps _ _ _ _ H1 row Hrow) as (st & st' & Hstep).
  apply gene_row_Ok in Hstep as (gene & a & g1 & _ & _ & _ & Hg2 & _).
  assert (exists kb, kb ∈ func_dict hash /\ kb.1 = col) as (kb & Hkb & <-).
  { unfold first_read in Hfield. unfold func_dict.
    repeat (apply elem_of_cons in Hfield as [[= -> _]|Hfield]);
      try (by apply elem_of_nil in Hfield);
      (eexists (_, _); split; [|reflexivity];
       repeat first [ apply elem_of_cons; left; reflexivity
                    | apply elem_of_cons; right ]). }
  destruct (foldM_steps _ _ _ _ Hg2 kb Hkb) as (g3 & g4 & Hdispatch).
  by eapply dispatch_reads.
Qed.

End Records.

(** ** Optional attributes, labels that are [None], expression columns *)

Section Attributes.

Context (hash : attrs -> Z).

Lemma set_if_notna_lookup r a c k f a' key :
  set_if_notna r a c k f = Ok a' ->
  a' !! SStr key =
    if String.eqb key k
    then match optional_value r c f with
         | Some v => Some v
         | None => a !! SStr key
         end
    else a !! SStr key.
Proof.
  unfold set_if_notna, optional_value, getitem. intros H.
  destruct (r !! c) as [x|]; [|done]. cbn [mbind result_bind bind] in H.
  cbn [mbind option_bind]. destruct (isna x); cbn [negb] in H.
  - injection H as <-. by destruct (String.eqb key k).
  - destruct (r !! f) as [v|]; [|done]. injection H as <-.
    unfold setitem. destruct (String.eqb_spec key k) as [->|Hne].
    + by rewrite lookup_insert_eq.
    + rewrite lookup_insert_ne; [done|congruence].
Qed.

Lemma display_lookup_None r l a key :
  display r l = Ok a ->
  forallb (fun e => negb (String.eqb e.1 key)) l = true ->
  a !! SStr key = None.
Proof. intros H Hl. by rewrite (display_from_other _ _ _ _ _ Hl H). Qed.

Lemma linked_node_container g n a u v label edge_attrs g' :
  add_edge_once hash (set_container g n a) u v label edge_attrs = Ok g' ->
  node_attribute g' n (SStr "attr_dict") = Some (ODict a).
Proof.
  intros H. destruct (set_container_node_data g n a) as (d & Hd & Ha).
  unfold node_attribute.
  by rewrite (add_edge_once_node_data hash _ _ _ _ _ _ _ _ H Hd).
Qed.

Lemma upserted_node_container g n a g1 u v label edge_attrs g' :
  add_node g n a = Ok g1 ->
  add_edge_once hash g1 u v label edge_attrs = Ok g' ->
  node_attribute g' n (SStr "attr_dict") = Some (ODict a).
Proof.
  intros Hn H. destruct (add_node_node_data _ _ _ _ Hn) as (d & Hd & Ha).
  unfold node_attribute.
  by rewrite (add_edge_once_node_data hash _ _ _ _ _ _ _ _ H Hd).
Qed.

(** Looks an optional attribute up through the assignments that may have
    set it, down to the dictionary display. *)
Ltac optional_lookup :=
  repeat match goal with
  | Hs : set_if_notna _ _ _ _ _ = Ok ?a |- context [?a !! SStr ?key] =>
      rewrite (set_if_notna_lookup _ _ _ _ _ _ key Hs); simpl String.eqb; cbv iota
  | Hd : display _ _ = Ok ?a |- context [?a !! SStr ?key] =>
      rewrite (display_lookup_None _ _ _ key Hd) by reflexivity
  end;
  try by destruct (optional_value _ _ _).

(** An inhibitor of MolMeDB that is not passed over is upserted with its
    six optional attributes: each is there exactly when the record's field
    is not null, with the field's value. The two references are written to
    the dictionary after it was handed to [add_node], and are in the node's
    container all the same. *)
Theorem molmedb_optional_attributes g gene r g' key label :
  add_molmedb_gene_inhibitor hash g gene [r] = Ok g' ->
  r !! "InChIKey" = Some key -> isna key = false ->
  r !! "label" = Some label ->
  exists a,
    node_attribute g' label (SStr "attr_dict") = Some (ODict a) /\
    forall c k f, (c, k, f) ∈ molmedb_optional ->
      a !! SStr k = optional_value r c f.
Proof.
  unfold_builders. rewrite foldM_singleton. intros H Hkey Hna Hlabel.
  unfold getitem in H. rewrite Hkey, Hlabel in H.
  cbn [mbind result_bind bind] in H. rewrite Hna in H. cbn [negb] in H.
  step_inv H. cbv zeta in H. eexists. split; [by eapply linked_node_container|].
  intros c k f Hin. unfold molmedb_optional in Hin.
  repeat (apply elem_of_cons in Hin as [[= -> -> ->]|Hin]);
    try (by apply elem_of_nil in Hin); optional_lookup.
Qed.

(** An anatomical entity of Bgee that is not passed over is upserted with
    its optional attributes, each there exactly when the record's field is
    not null; the developmental stage and the expression level hold the
    field's value, the confidence level the record's [drugbank_id]. *)
Theorem bgee_optional_attributes g gene r g' name :
  add_bgee_subgraph hash g gene [r] = Ok g' ->
  r !! "anatomical_entity_name" = Some name -> isna name = false ->
  exists a,
    node_attribute g' name (SStr "attr_dict") = Some (ODict a) /\
    forall c k f, (c, k, f) ∈ bgee_optional ->
      a !! SStr k = optional_value r c f.
Proof.
  unfold_builders. rewrite foldM_singleton. intros H Hname Hna.
  unfold getitem in H. rewrite Hname in H.
  cbn [mbind result_bind bind] in H. rewrite Hna in H. cbn [negb] in H.
  step_inv H. eexists. split; [by eapply upserted_node_container|].
  intros c k f Hin. unfold bgee_optional in Hin.
  repeat (apply elem_of_cons in Hin as [[= -> -> ->]|Hin]);
    try (by apply elem_of_nil in Hin); optional_lookup.
Qed.

Lemma add_node_None g a :
  SNone ∉ node_labels g -> add_node g SNone a = Err ValueError.
Proof.
  intros Hg. unfold add_node, touch_node.
  destruct (node_data (g_node g) SNone) as [d|] eqn:Hd; [|done].
  exfalso. apply Hg, node_data_labels. by rewrite Hd.
Qed.

Local Ltac run := cbn [mbind result_bind bind fmap result_fmap negb].

(** A label that is [None] is refused by the graph: the builders whose
    guard does not test the field the label is read from (the GO builder has
    no guard, the builders of Reactome pathways and of drugs test another
    field) raise [ValueError] on such a record; so does the function on a
    table whose first row has the identifier [None]. *)
Theorem a_None_label_is_refused :
  (forall g gene r rest x,
     SNone ∉ node_labels g ->
     r !! "go_name" = Some SNone -> r !! "go_id" = Some x ->
     add_opentargets_go_subgraph hash g gene (r :: rest) = Err ValueError) /\
  (forall g gene r rest x,
     SNone ∉ node_labels g ->
     r !! "pathway_id" = Some x -> isna x = false ->
     r !! "pathway_name" = Some SNone ->
     add_opentargets_pathway_subgraph hash g gene (r :: rest) = Err ValueError) /\
  (forall g gene r rest x y,
     SNone ∉ node_labels g ->
     r !! "relation" = Some x -> isna x = false ->
     r !! "drug_name" = Some SNone -> r !! "chembl_id" = Some y ->
     add_opentargets_drug_subgraph hash g gene (r :: rest) = Err ValueError) /\
  (forall fuse_df drug_disease row rest a,
     rows fuse_df = row :: rest ->
     row !! "identifier" = Some (VScalar SNone) ->
     gene_node_attrs (dea_columns fuse_df) row = Ok a ->
     generate_networkx_graph hash fuse_df drug_disease = Err ValueError).
Proof.
  split; [|split; [|split]].
  - intros g gene r rest x Hg Hname%getitem_Some Hid%getitem_Some.
    unfold_builders. rewrite foldM_cons. unfold display.
    cbn [display_from eval_entry]. rewrite !Hname, !Hid. run.
    by rewrite add_node_None.
  - intros g gene r rest x Hg Hid%getitem_Some Hna Hname%getitem_Some.
    unfold_builders. rewrite foldM_cons. unfold display.
    cbn [display_from eval_entry]. rewrite !Hid. run. rewrite Hna. run.
    rewrite !Hname. run. by rewrite add_node_None.
  - intros g gene r rest x y Hg Hrel%getitem_Some Hna Hname%getitem_Some
      Hid%getitem_Some.
    unfold_builders. rewrite foldM_cons. unfold display.
    cbn [display_from eval_entry]. rewrite !Hrel. run. rewrite Hna. run.
    rewrite !Hname, !Hid. run. by rewrite add_node_None.
  - intros fuse_df drug_disease row rest a Hrows Hid Ha.
    unfold generate_networkx_graph, assemble, first_pass. rewrite Hrows.
    rewrite foldM_cons. unfold gene_row, row_getitem. rewrite Hid, Ha.
    cbn [mbind result_bind bind hashable fst].
    rewrite add_node_None; [done|apply not_elem_of_nil].
Qed.

Lemma substring_all s : String.substring 0 (String.length s) s = s.
Proof. induction s as [|c s IH]; [done|]. simpl. by rewrite IH. Qed.

Lemma substring_split s k :
  k <= String.length s ->
  String.append (String.substring 0 k s)
    (String.substring k (String.length s - k) s) = s.
Proof.
  revert k. induction s as [|c s IH]; intros k Hk.
  - by destruct k.
  - destruct k as [|k]; simpl.
    + by rewrite substring_all.
    + change (String c (String.append (String.substring 0 k s)
                (String.substring k (String.length s - k) s)) = String c s).
      f_equal. apply IH. simpl in Hk. lia.
Qed.

Lemma endswith_stem c :
  endswith c "_dea" = true -> c = String.append (drop_last 4 c) "_dea".
Proof.
  unfold endswith, drop_last. intros [Hlen Heq]%andb_prop.
  apply Nat.leb_le in Hlen. apply String.eqb_eq in Heq. simpl in Hlen, Heq.
  pose proof (substring_split c (String.length c - 4)) as Hs.
  replace (String.length c - (String.length c - 4)) with 4 in Hs by lia.
  rewrite Heq in Hs. symmetry. apply Hs. lia.
Qed.

Lemma dea_columns_endswith fuse_df c :
  c ∈ dea_columns fuse_df -> endswith c "_dea" = true.
Proof. unfold dea_columns. by intros [_ Hc]%list_elem_of_In%filter_In. Qed.

Lemma dea_columns_stem fuse_df c c' :
  c ∈ dea_columns fuse_df -> c' ∈ dea_columns fuse_df ->
  drop_last 4 c' = drop_last 4 c -> c' = c.
Proof.
  intros Hc%dea_columns_endswith Hc'%dea_columns_endswith Heq.
  rewrite (endswith_stem _ Hc), (endswith_stem _ Hc'). by rewrite Heq.
Qed.

Lemma expression_columns_lookup (row : Row) dea a0 a :
  foldM (fun a c => v ← row_getitem row c; Ok (setitem a (SStr (drop_last 4 c)) v))
    a0 dea = Ok a ->
  (forall c, c ∈ dea ->
     (forall c', c' ∈ dea -> drop_last 4 c' = drop_last 4 c -> c' = c) ->
     a !! SStr (drop_last 4 c) = row !! c) /\
  (forall k, (forall c, c ∈ dea -> SStr (drop_last 4 c) <> k) -> a !! k = a0 !! k).
Proof.
  revert a. induction dea as [|c0 dea IH] using rev_ind; intros a H.
  - injection H as <-. split; [by intros c ?%elem_of_nil|done].
  - rewrite foldM_app in H. apply mbind_Ok in H as (a1 & Ha1 & H).
    rewrite foldM_singleton in H. apply mbind_Ok in H as (x & Hx & H).
    injection H as <-. unfold row_getitem in Hx.
    destruct (row !! c0) as [x0|] eqn:Hc0; [injection Hx as ->|done].
    destruct (IH _ Ha1) as [IH1 IH2]. unfold setitem. split.
    + intros c Hc Hinj.
      destruct (decide (drop_last 4 c0 = drop_last 4 c)) as [Heq|Hne].
      * assert (c0 = c) as <-.
        { apply Hinj; [|done]. apply elem_of_app. right. by left. }
        by rewrite lookup_insert_eq.
      * rewrite lookup_insert_ne by congruence.
        apply elem_of_app in Hc as [Hc|Hc%list_elem_of_singleton];
          [|by subst c].
        apply IH1; [done|]. intros c' Hc'. apply Hinj.
        apply elem_of_app. by left.
    + intros k Hk. rewrite lookup_insert_ne.
      * apply IH2. intros c Hc. apply Hk. apply elem_of_app. by left.
      * apply Hk. apply elem_of_app. right. by left.
Qed.

(** The attributes of a gene node: every differential-expression column
    (a column whose name ends in [_dea]) gives the attribute named by the
    column without that ending, with the row's cell; and these win, an
    attribute of the fixed ones is as the display gave it only when no
    column is called so. *)
Theorem expression_columns_win fuse_df row a :
  gene_node_attrs (dea_columns fuse_df) row = Ok a ->
  (forall c, c ∈ dea_columns fuse_df ->
     c = String.append (drop_last 4 c) "_dea" /\
     a !! SStr (drop_last 4 c) = row !! c) /\
  exists (labels id : value) (ns : scalar),
    row !! "identifier" = Some labels /\ row !! "target" = Some id /\
    row !! "target.source" = Some (VScalar ns) /\
    forall k, (forall c, c ∈ dea_columns fuse_df -> SStr (drop_last 4 c) <> k) ->
      a !! k = fixed_gene_attrs labels id ns !! k.
Proof.
  intros (labels & id & ns & Hl & Hid & Hns & H)%gene_node_attrs_Ok.
  destruct (expression_columns_lookup _ _ _ _ H) as [H1 H2]. split.
  - intros c Hc. split.
    + apply endswith_stem. by apply (dea_columns_endswith fuse_df).
    + apply H1; [done|]. intros c' Hc'. by apply (dea_columns_stem fuse_df).
  - by exists labels, id, ns.
Qed.

End Attributes.

(** ** A table without annotation records *)

Section Plain.

Context (hash : attrs -> Z).

Lemma foldM_fixed {A B} (f : A -> B -> result A) (a : A) (xs : list B) :
  (forall x, x ∈ xs -> f a x = Ok a) -> foldM f a xs = Ok a.
Proof.
  induction xs as [|x xs IH]; intros Hf; [done|]. rewrite foldM_cons.
  rewrite Hf by by left. cbn [mbind result_bind bind]. apply IH.
  intros y Hy. apply Hf. by right.
Qed.

Lemma dispatch_no_records row gene g kb :
  kb ∈ func_dict hash -> no_records row kb.1 -> dispatch row gene g kb = Ok g.
Proof.
  intros Hkb Hcell. unfold dispatch, row_contains, row_getitem. cbv zeta.
  destruct (row !! kb.1) as [cell|] eqn:Hrow.
  - rewrite bool_decide_eq_true_2 by by eexists.
    cbn [mbind result_bind bind json_roundtrip].
    destruct cell as [s|[|r l]|d]; [| |by destruct (Hcell r l)|];
      by apply (builder_no_records hash).
  - rewrite bool_decide_eq_false_2; [done|]. by intros [? ?].
Qed.

Lemma expression_columns_total (row : Row) dea a0 :
  (forall c, c ∈ dea -> is_Some (row !! c)) ->
  exists a,
    foldM (fun a c => v ← row_getitem row c; Ok (setitem a (SStr (drop_last 4 c)) v))
      a0 dea = Ok a.
Proof.
  revert a0. induction dea as [|c dea IH]; intros a0 Hdea; [by exists a0|].
  destruct (Hdea c) as [x Hx]; [by left|].
  destruct (IH (setitem a0 (SStr (drop_last 4 c)) x)) as [a Ha].
  - intros c' Hc'. apply Hdea. by right.
  - exists a. rewrite foldM_cons. cbv beta.
    assert (row_getitem row c = Ok x) as -> by (unfold row_getitem; by rewrite Hx).
    exact Ha.
Qed.

Lemma gene_row_plain dea st row :
  plain_row dea row ->
  exists gene a,
    row !! "identifier" = Some (VScalar gene) /\
    gene_row hash dea st row
      = Ok (mkGraph
              (upsert gene (fun d => <[SStr "attr_dict" := ODict a]> d) (g_node st.1))
              (g_adj st.1),
            mkLocals (Some row) (Some gene)).
Proof.
  intros ((gene & Hid & Hgene) & [id Htarget] & (ns & Hns) & Hdea & Hcells & _).
  destruct (expression_columns_total row dea
              (fixed_gene_attrs (VScalar gene) id ns) Hdea) as [a Ha].
  exists gene, a. split; [done|].
  unfold gene_row, gene_node_attrs, row_getitem. cbv zeta.
  rewrite Hid, Htarget, Hns. cbn [mbind result_bind bind hashable].
  unfold row_getitem, fixed_gene_attrs in Ha. rewrite Ha.
  cbn [mbind result_bind bind]. rewrite (add_node_not_None _ _ _ Hgene).
  cbn [mbind result_bind bind]. rewrite foldM_fixed; [done|].
  intros kb Hkb. apply dispatch_no_records; [done|]. apply Hcells.
  apply list_elem_of_fmap. unfold func_dict in Hkb. unfold first_read.
  repeat (apply elem_of_cons in Hkb as [->|Hkb]);
    try (by apply elem_of_nil in Hkb);
    (eexists (_, _); split; [reflexivity|];
     repeat first [ apply elem_of_cons; left; reflexivity
                  | apply elem_of_cons; right ]).
Qed.

Lemma first_pass_plain fuse_df rs st :
  Forall (plain_row (dea_columns fuse_df)) rs ->
  exists st',
    foldM (gene_row hash (dea_columns fuse_df)) st rs = Ok st' /\
    g_adj st'.1 = g_adj st.1 /\
    (Forall (fun nd => nd.2 <> ∅) (g_node st.1) ->
     Forall (fun nd => nd.2 <> ∅) (g_node st'.1)) /\
    (forall n, n ∈ node_labels st'.1 <->
       n ∈ node_labels st.1 \/
       exists row, row ∈ rs /\ row !! "identifier" = Some (VScalar n)) /\
    (forall row, last rs = Some row -> l_row st'.2 = Some row).
Proof.
  intros Hrs. revert st.
  induction Hrs as [|row rs Hrow _ IH]; intros st.
  - exists st. split; [done|]. split; [done|]. split; [done|]. split; [|done].
    intros n. split; [by left|]. intros [?|(row & ?%elem_of_nil & _)]; done.
  - destruct (gene_row_plain (dea_columns fuse_df) st row Hrow)
      as (gene & a & Hid & Hstep).
    destruct (IH (mkGraph
                    (upsert gene (fun d => <[SStr "attr_dict" := ODict a]> d)
                       (g_node st.1))
                    (g_adj st.1),
                  mkLocals (Some row) (Some gene)))
      as (st' & Hfold & Hadj & Hdata & Hlabels & Hlast).
    exists st'. rewrite foldM_cons, Hstep. cbn [mbind result_bind bind].
    split; [done|]. split; [done|]. split; [|split].
    + intros Hst. apply Hdata. simpl.
      apply (Forall_upsert (fun d => d <> ∅)); [done| |];
        intros; apply insert_non_empty.
    + intros n. rewrite Hlabels. unfold node_labels. simpl.
      rewrite upsert_labels. split.
      * intros [Hn|(row' & Hrow' & Hid')].
        -- destruct (node_data (g_node st.1) gene); [by left|].
           apply elem_of_app in Hn as [Hn|Hn%list_elem_of_singleton];
             [by left|]. subst n. right. exists row. split; [by left|done].
        -- right. exists row'. split; [by right|done].
      * intros [Hn|(row' & Hrow' & Hid')].
        -- left. destruct (node_data (g_node st.1) gene); [done|].
           apply elem_of_app. by left.
        -- apply elem_of_cons in Hrow' as [->|Hrow'].
           ++ left. rewrite Hid in Hid'. injection Hid' as <-.
              destruct (node_data (g_node st.1) gene) eqn:Hd.
              ** apply node_data_labels. by rewrite Hd.
              ** apply elem_of_app. right. by left.
           ++ right. by exists row'.
    + intros row0 Hrow0. destruct rs as [|row1 rs'].
      * injection Hfold as <-. simpl in *. congruence.
      * by apply Hlast.
Qed.

Lemma plain_assemble fuse_df :
  rows fuse_df <> [] ->
  Forall (plain_row (dea_columns fuse_df)) (rows fuse_df) ->
  exists draft,
    assemble hash fuse_df None = Ok draft /\
    g_adj draft = ∅ /\
    Forall (fun nd => nd.2 <> ∅) (g_node draft) /\
    forall n, n ∈ node_labels draft <->
      exists row, row ∈ rows fuse_df /\ row !! "identifier" = Some (VScalar n).
Proof.
  intros Hne Hrows.
  destruct (first_pass_plain fuse_df (rows fuse_df)
              (empty_graph, mkLocals None None) Hrows)
    as (st & Hfold & Hadj & Hdata & Hlabels & Hlast).
  destruct (last (rows fuse_df)) as [row|] eqn:Hrow;
    [|by apply last_None in Hrow].
  specialize (Hlast row eq_refl).
  assert (row_contains row "stringdb" = false) as Hstring.
  { apply last_Some_elem_of in Hrow.
    pose proof (proj1 (Forall_forall _ _) Hrows _ Hrow)
      as (_ & _ & _ & _ & _ & Hnone).
    unfold row_contains. rewrite Hnone. by apply bool_decide_eq_false_2, is_Some_None. }
  exists st.1. split; [|split; [done|split]].
  - unfold assemble, first_pass, interaction_pass, drug_disease_pass. cbv zeta.
    rewrite Hfold. cbn [mbind result_bind bind]. rewrite Hlast.
    cbn [mbind result_bind bind read_local]. by rewrite Hstring.
  - apply Hdata. constructor.
  - intros n. rewrite Hlabels. split; [|by right].
    by intros [?%elem_of_nil|?].
Qed.

(** A table with a row at least whose rows hold an identifier other than
    [None], a target, a namespace and the differential-expression cells,
    and hold no annotation record (no interaction column, the registry
    columns absent, empty or not lists), gives, with no drug-disease table,
    a graph without an edge whose nodes are the identifiers of the rows. *)
Theorem a_table_without_records_gives_the_genes fuse_df :
  rows fuse_df <> [] ->
  Forall (plain_row (dea_columns fuse_df)) (rows fuse_df) ->
  exists g,
    generate_networkx_graph hash fuse_df None = Ok g /\
    (forall u v, edges g u v = []) /\
    (forall n, n ∈ node_labels g <->
       exists row, row ∈ rows fuse_df /\ row !! "identifier" = Some (VScalar n)).
Proof.
  intros Hne Hrows.
  destruct (plain_assemble fuse_df Hne Hrows)
    as (draft & Hdraft & Hadj & Hdata & Hlabels).
  destruct (finalize_total draft) as [g Hg].
  - by eapply assemble_written_any.
  - intros n Hn.
    by apply (node_data_Forall (fun d => d <> ∅) _ _ _ Hdata Hn).
  - exists g. unfold generate_networkx_graph. rewrite Hdraft.
    cbn [mbind result_bind bind]. split; [done|]. split.
    + intros u v. pose proof (finalize_edges_lookup _ _ u v Hg) as Hedges.
      unfold edges at 1, get_edge_data in Hedges. rewrite Hadj in Hedges.
      rewrite lookup_empty in Hedges. simpl in Hedges.
      by apply Forall2_nil_inv_l in Hedges.
    + intros n. rewrite (finalize_labels _ _ Hg). apply Hlabels.
Qed.

End Plain.

(** ** The nodes that an edge alone creates *)

Section Bare.

Context (hash : attrs -> Z).

Lemma add_edge_bare g u v d g' n :
  add_edge g u v d = Ok g' -> n ∉ node_labels g -> n = u \/ n = v ->
  node_data (g_node g') n = Some ∅.
Proof.
  intros ->%add_edge_Ok Hn Huv. simpl. rewrite !node_data_touch.
  destruct (node_data (g_node g) n) as [d0|] eqn:Hd.
  - exfalso. apply Hn, node_data_labels. by rewrite Hd.
  - destruct (decide (u = n)) as [->|Hu]; [done|].
    destruct (decide (v = n)) as [->|Hv]; [done|]. by destruct Huv.
Qed.

(** The interaction builder and the drug-disease builder upsert no node:
    the partner, or the disease, of a record that is not a node yet becomes
    one with an empty data dictionary, without a container. (It is on such
    a node that the flattening raises.) *)
Theorem linked_only_nodes_have_no_container :
  (forall g gene r g' partner,
     add_ppi_subgraph hash g gene [r] = Ok g' ->
     r !! "stringdb_link_to" = Some partner ->
     partner ∉ node_labels g -> has_edge g gene partner = false ->
     node_data (g_node g') partner = Some ∅) /\
  (forall g gene r g' umls,
     add_drug_disease_subgraph hash g (VScalar gene) [r] = Ok g' ->
     r !! "umls" = Some umls ->
     umls ∉ node_labels g -> has_edge g umls gene = false ->
     node_data (g_node g') umls = Some ∅).
Proof.
  split.
  - intros g gene r g' partner H Hr Hn Hnone. unfold_builders.
    rewrite foldM_singleton in H. step_inv H.
    unfold getitem in *. rewrite Hr in *.
    match goal with Hp : Ok partner = Ok _ |- _ => injection Hp as <- end.
    rewrite add_edge_once_unfold in H. apply has_edge_false in Hnone.
    rewrite Hnone in H. cbn [default filterM mbind result_bind bind] in H.
    rewrite decide_True in H by done.
    eapply add_edge_bare; [exact H|done|by right].
  - intros g gene r g' umls H Hr Hn Hnone.
    unfold add_drug_disease_subgraph in H. rewrite foldM_singleton in H.
    cbv zeta in H. unfold getitem in H. rewrite Hr in H.
    cbn [mbind result_bind bind] in H. rewrite Hnone in H. cbn [negb] in H.
    eapply add_edge_bare; [exact H|done|by left].
Qed.

End Bare.

(** ** The nodes a builder leaves alone *)

Section Frame.

Context (hash : attrs -> Z).

Lemma keeps_node_refl n g : keeps_node n g g.
Proof. by intros d. Qed.

Lemma keeps_node_trans n g1 g2 g3 :
  keeps_node n g1 g2 -> keeps_node n g2 g3 -> keeps_node n g1 g3.
Proof. intros H12 H23 d Hd. by apply H23, H12. Qed.

Lemma add_node_keeps n g m a g' :
  m <> n -> add_node g m a = Ok g' -> keeps_node n g g'.
Proof.
  intros Hne ->%add_node_Ok d Hd. simpl. by rewrite node_data_upsert_ne.
Qed.

Lemma set_container_keeps n g m a : m <> n -> keeps_node n g (set_container g m a).
Proof. intros Hne d Hd. simpl. by rewrite node_data_upsert_ne. Qed.

Lemma add_edge_once_keeps n g u v label a g' :
  add_edge_once hash g u v label a = Ok g' -> keeps_node n g g'.
Proof. intros H d Hd. by eapply add_edge_once_node_data. Qed.

Lemma add_edge_keeps n g u v data g' :
  add_edge g u v data = Ok g' -> keeps_node n g g'.
Proof. intros H d Hd. by eapply add_edge_node_data. Qed.

(** Closes a step of a registry builder whose record does not name [n]. *)
Ltac frame_step H :=
  first
    [ injection H as <-; apply keeps_node_refl
    | match goal with
      | Hn : add_node _ _ _ = Ok _ |- _ =>
          eapply keeps_node_trans;
            [ eapply add_node_keeps; [|exact Hn]; congruence |];
          first
            [ eapply add_edge_once_keeps; exact H
            | eapply keeps_node_trans; [|eapply add_edge_once_keeps; exact H];
              eapply set_container_keeps; congruence ]
      end ].

Lemma registry_builder_keeps kb field g gene annot_list g' n :
  kb ∈ func_dict hash -> (kb.1, field) ∈ label_read ->
  kb.2 g gene annot_list = Ok g' ->
  (forall r, r ∈ annot_list -> r !! field <> Some n) ->
  keeps_node n g g'.
Proof.
  intros Hkb Hfield H Hn. unfold func_dict in Hkb. unfold label_read in Hfield.
  repeat (apply elem_of_cons in Hkb as [->|Hkb]); try (by apply elem_of_nil in Hkb);
    cbn [fst snd] in *;
    repeat (apply elem_of_cons in Hfield as [Hfield|Hfield]);
    try (by apply elem_of_nil in Hfield); try discriminate Hfield;
    injection Hfield as ->;
    unfold_builders;
    (eapply (foldM_invariant (keeps_node n g)); [|apply keeps_node_refl|exact H];
     intros g0 r g1 Hr Hg0 Hstep; eapply keeps_node_trans; [exact Hg0|];
     specialize (Hn r Hr); cbv beta in Hstep; step_inv Hstep;
     try (cbv zeta in Hstep); unfold getitem in *;
     repeat match goal with
     | Hget : match ?r !! ?k with Some _ => _ | None => _ end = Ok _ |- _ =>
         destruct (r !! k) eqn:?; [injection Hget as ->|discriminate Hget]
     end;
     frame_step Hstep).
Qed.

(** A builder writes to the nodes of its records' entities only: the data
    dictionary of any other node, the gene's among them, is as it was. The
    interaction builder and the drug-disease builder change the data of no
    node at all. *)
Theorem builders_keep_the_other_nodes :
  (forall kb field g gene annot_list g' n,
     kb ∈ func_dict hash -> (kb.1, field) ∈ label_read ->
     kb.2 g gene annot_list = Ok g' ->
     (forall r, r ∈ annot_list -> r !! field <> Some n) ->
     keeps_node n g g') /\
  (forall g gene annot_list g' n,
     add_ppi_subgraph hash g gene annot_list = Ok g' -> keeps_node n g g') /\
  (forall g label annot_list g' n,
     add_drug_disease_subgraph hash g label annot_list = Ok g' ->
     keeps_node n g g').
Proof.
  split; [|split].
  - apply registry_builder_keeps.
  - intros g gene annot_list g' n H. unfold_builders.
    eapply (foldM_invariant (keeps_node n g)); [|apply keeps_node_refl|exact H].
    intros g0 r g1 _ Hg0 Hstep. eapply keeps_node_trans; [exact Hg0|].
    cbv beta in Hstep. step_inv Hstep. by eapply add_edge_once_keeps.
  - intros g label annot_list g' n H.
    eapply (foldM_invariant (keeps_node n g)); [|apply keeps_node_refl|exact H].
    intros g0 r g1 _ Hg0 Hstep. eapply keeps_node_trans; [exact Hg0|].
    cbv beta zeta in Hstep. apply mbind_Ok in Hstep as (umls & _ & Hstep).
    destruct label as [s| |].
    + destruct (has_edge g0 umls s); simpl in Hstep.
      * injection Hstep as <-. apply keeps_node_refl.
      * by eapply add_edge_keeps.
    + by destruct (decide (umls = SNone)).
    + by destruct (decide (umls = SNone)).
Qed.

End Frame.

(** ** The further properties, on the sample tables *)

Lemma assembly_only_adds_witness :
  add_disgenet_disease_subgraph perfect_hash empty_graph "G" [disgenet_record]
    = Ok disease_graph /\
  extends empty_graph disease_graph.
Proof.
  assert (add_disgenet_disease_subgraph perfect_hash empty_graph "G"
            [disgenet_record] = Ok disease_graph) as H by reflexivity.
  split; [exact H|].
  eapply (proj1 (assembly_only_adds perfect_hash)
            (add_disgenet_disease_subgraph perfect_hash)); [|exact H].
  unfold hashing_builders, func_dict. apply elem_of_app. left.
  apply elem_of_cons. by left.
Defined.

Lemma parallel_edges_differ_in_identity_witness :
  assemble perfect_hash two_genes None = Ok (draft_of two_genes None) /\
  distinct_identities (draft_of two_genes None).
Proof.
  assert (assemble perfect_hash two_genes None = Ok (draft_of two_genes None))
    as H by reflexivity.
  split; [exact H|].
  exact (proj1 (parallel_edges_differ_in_identity perfect_hash) _ _ _ H).
Defined.

Lemma builders_link_the_gene_witness :
  add_opentargets_drug_subgraph perfect_hash empty_graph "G" [drug_record]
    = Ok drug_graph /\
  only_into "G" empty_graph drug_graph.
Proof.
  assert (add_opentargets_drug_subgraph perfect_hash empty_graph "G"
            [drug_record] = Ok drug_graph) as H by reflexivity.
  split; [exact H|].
  exact (proj1 (proj2 (builders_link_the_gene perfect_hash)) _ _ _ _ H).
Defined.

Lemma interaction_pass_links_the_last_gene_witness :
  rows two_genes
    = [gene "A" "E1" [("stringdb", VList [interaction_record])]]
      ++ [gene "B" "E2" [("stringdb", VList [])]] /\
  first_pass perfect_hash two_genes (empty_graph, mkLocals None None)
    = Ok after_first_pass /\
  interaction_pass perfect_hash two_genes after_first_pass
    = Ok after_second_pass /\
  exists label,
    gene "B" "E2" [("stringdb", VList [])] !! "identifier"
      = Some (VScalar label) /\
    only_from label after_first_pass.1 after_second_pass.1.
Proof.
  assert (rows two_genes
            = [gene "A" "E1" [("stringdb", VList [interaction_record])]]
              ++ [gene "B" "E2" [("stringdb", VList [])]]) as H1 by reflexivity.
  assert (first_pass perfect_hash two_genes (empty_graph, mkLocals None None)
            = Ok after_first_pass) as H2 by reflexivity.
  assert (interaction_pass perfect_hash two_genes after_first_pass
            = Ok after_second_pass) as H3 by reflexivity.
  split; [exact H1|]. split; [exact H2|]. split; [exact H3|].
  exact (interaction_pass_links_the_last_gene perfect_hash _ _ _ _ _ _ H1 H2 H3).
Defined.

Lemma every_gene_is_a_node_witness :
  generate_networkx_graph perfect_hash two_sources None = Ok two_sources_graph /\
  exists (label ns : scalar) (target : value),
    gene "G" "E1" [("DisGeNET", VList [disgenet_record]);
                   ("OpenTargets_Diseases", VList [opentargets_record])]
      !! "identifier" = Some (VScalar label) /\
    label <> SNone /\
    gene "G" "E1" [("DisGeNET", VList [disgenet_record]);
                   ("OpenTargets_Diseases", VList [opentargets_record])]
      !! "target" = Some target /\
    gene "G" "E1" [("DisGeNET", VList [disgenet_record]);
                   ("OpenTargets_Diseases", VList [opentargets_record])]
      !! "target.source" = Some (VScalar ns) /\
    (forall c, c ∈ dea_columns two_sources ->
       is_Some (gene "G" "E1" [("DisGeNET", VList [disgenet_record]);
                               ("OpenTargets_Diseases", VList [opentargets_record])]
                  !! c)) /\
    label ∈ node_labels two_sources_graph.
Proof.
  assert (generate_networkx_graph perfect_hash two_sources None
            = Ok two_sources_graph) as H by reflexivity.
  split; [exact H|].
  apply (every_gene_is_a_node perfect_hash _ _ _ _ H).
  unfold two_sources, table. simpl. by left.
Defined.

Lemma flattening_keeps_the_shape_witness :
  generate_networkx_graph perfect_hash two_sources None = Ok two_sources_graph /\
  exists draft,
    assemble perfect_hash two_sources None = Ok draft /\
    node_labels two_sources_graph = node_labels draft /\
    forall u v, length (edges two_sources_graph u v) = length (edges draft u v).
Proof.
  assert (generate_networkx_graph perfect_hash two_sources None
            = Ok two_sources_graph) as H by reflexivity.
  split; [exact H|].
  exact (flattening_keeps_the_shape perfect_hash _ _ _ H).
Defined.

Lemma flattening_needs_a_container_witness :
  assemble perfect_hash one_gene_with_treatments (Some treatments)
    = Ok (draft_of one_gene_with_treatments (Some treatments)) /\
  node_data (g_node (draft_of one_gene_with_treatments (Some treatments)))
    "C0011849" = Some ∅ /\
  generate_networkx_graph perfect_hash one_gene_with_treatments (Some treatments)
    = Err (KeyError "attr_dict").
Proof.
  assert (assemble perfect_hash one_gene_with_treatments (Some treatments)
            = Ok (draft_of one_gene_with_treatments (Some treatments))) as H
    by reflexivity.
  assert (node_data (g_node (draft_of one_gene_with_treatments (Some treatments)))
            "C0011849" = Some ∅) as Hn by reflexivity.
  split; [exact H|]. split; [exact Hn|].
  apply (proj1 (flattening_needs_a_container perfect_hash _ _ _ H)).
  by exists (SStr "C0011849").
Defined.

Lemma every_edge_has_a_label_witness :
  generate_networkx_graph perfect_hash two_sources None = Ok two_sources_graph /\
  forall d, d ∈ edges two_sources_graph "G" "D" ->
    exists x : value, d !! SStr "label" = Some (OVal x).
Proof.
  assert (generate_networkx_graph perfect_hash two_sources None
            = Ok two_sources_graph) as H by reflexivity.
  split; [exact H|]. intros d.
  exact (every_edge_has_a_label perfect_hash _ _ _ _ _ d H).
Defined.

Lemma records_hold_the_identifying_field_witness :
  generate_networkx_graph perfect_hash two_sources None = Ok two_sources_graph /\
  is_Some (disgenet_record !! "disease_name").
Proof.
  assert (generate_networkx_graph perfect_hash two_sources None
            = Ok two_sources_graph) as H by reflexivity.
  split; [exact H|].
  apply (records_hold_the_identifying_field perfect_hash _ _ _
           (gene "G" "E1" [("DisGeNET", VList [disgenet_record]);
                           ("OpenTargets_Diseases", VList [opentargets_record])])
           "DisGeNET" "disease_name" [disgenet_record] disgenet_record H).
  - unfold two_sources, table. simpl. by left.
  - unfold first_read. by left.
  - reflexivity.
  - by left.
Defined.

Lemma molmedb_optional_attributes_witness :
  add_molmedb_gene_inhibitor perfect_hash empty_graph "G" [inhibitor_record]
    = Ok inhibitor_graph /\
  exists a,
    node_attribute inhibitor_graph "aspirin" (SStr "attr_dict") = Some (ODict a) /\
    forall c k f, (c, k, f) ∈ molmedb_optional ->
      a !! SStr k = optional_value inhibitor_record c f.
Proof.
  assert (add_molmedb_gene_inhibitor perfect_hash empty_graph "G"
            [inhibitor_record] = Ok inhibitor_graph) as H by reflexivity.
  split; [exact H|].
  by apply (molmedb_optional_attributes perfect_hash _ _ _ _
              (SStr "BSYNRYMUTXBXSQ-UHFFFAOYSA-N") (SStr "aspirin") H).
Defined.

Lemma bgee_optional_attributes_witness :
  add_bgee_subgraph perfect_hash empty_graph "G" [tissue_record]
    = Ok tissue_graph /\
  exists a,
    node_attribute tissue_graph "liver" (SStr "attr_dict") = Some (ODict a) /\
    forall c k f, (c, k, f) ∈ bgee_optional ->
      a !! SStr k = optional_value tissue_record c f.
Proof.
  assert (add_bgee_subgraph perfect_hash empty_graph "G" [tissue_record]
            = Ok tissue_graph) as H by reflexivity.
  split; [exact H|].
  by apply (bgee_optional_attributes perfect_hash _ _ _ _ (SStr "liver") H).
Defined.

Lemma a_None_label_is_refused_witness :
  (SNone ∉ node_labels empty_graph) /\
  add_opentargets_go_subgraph perfect_hash empty_graph "G" [none_go_record]
    = Err ValueError.
Proof.
  assert (SNone ∉ node_labels empty_graph) as H by apply not_elem_of_nil.
  split; [exact H|].
  by apply (proj1 (a_None_label_is_refused perfect_hash) _ _ _ _
              (SStr "GO:0006914") H).
Defined.

Lemma expression_columns_win_witness :
  gene_node_attrs (dea_columns expression_table) expression_row
    = Ok expression_attrs /\
  expression_attrs !! SStr "log2FC" = Some (VScalar (SFloat 15 (-1))) /\
  expression_attrs !! SStr "id" = Some (VScalar (SStr "x")).
Proof.
  assert (gene_node_attrs (dea_columns expression_table) expression_row
            = Ok expression_attrs) as H by reflexivity.
  split; [exact H|].
  destruct (expression_columns_win _ _ _ H) as [Hdea _]. split.
  - exact (proj2 (Hdea "log2FC_dea" ltac:(by left))).
  - exact (proj2 (Hdea "id_dea" ltac:(by right; left))).
Defined.

Lemma a_table_without_records_gives_the_genes_witness :
  exists g,
    generate_networkx_graph perfect_hash one_gene None = Ok g /\
    (forall u v, edges g u v = []) /\
    (forall n, n ∈ node_labels g <->
       exists row, row ∈ rows one_gene /\ row !! "identifier" = Some (VScalar n)).
Proof.
  apply (a_table_without_records_gives_the_genes perfect_hash one_gene); [done|].
  apply Forall_singleton. split; [|split; [|split; [|split; [|split]]]].
  - exists (SStr "A"). by split.
  - by eexists.
  - by exists (SStr "Ensembl").
  - by intros c ?%elem_of_nil.
  - intros col Hcol r l. unfold first_read in Hcol. simpl in Hcol.
    repeat (apply elem_of_cons in Hcol as [->|Hcol]); try done.
    by apply elem_of_nil in Hcol.
  - reflexivity.
Defined.

Lemma null_identifying_field_is_skipped_witness :
  isna SNaN = true /\
  add_wikipathways_subgraph perfect_hash empty_graph "G"
    [<["pathwayLabel" := SNaN]> ∅; <["pathwayLabel" := SNaN]> ∅]
    = add_wikipathways_subgraph perfect_hash empty_graph "G"
        [<["pathwayLabel" := SNaN]> ∅].
Proof.
  assert (isna SNaN = true) as H by reflexivity.
  split; [exact H|].
  destruct (null_identifying_field_is_skipped perfect_hash empty_graph "G"
              (<["pathwayLabel" := SNaN]> ∅) [<["pathwayLabel" := SNaN]> ∅]
              SNaN H)
    as (_ & _ & _ & _ & _ & Hw & _).
  by apply Hw.
Defined.

Lemma linked_only_nodes_have_no_container_witness :
  add_ppi_subgraph perfect_hash empty_graph "A" [interaction_record]
    = Ok interaction_graph /\
  node_data (g_node interaction_graph) "B" = Some ∅.
Proof.
  assert (add_ppi_subgraph perfect_hash empty_graph "A" [interaction_record]
            = Ok interaction_graph) as H by reflexivity.
  split; [exact H|].
  apply (proj1 (linked_only_nodes_have_no_container perfect_hash) _ _ _ _ _ H).
  - reflexivity.
  - apply not_elem_of_nil.
  - reflexivity.
Defined.

Lemma builders_keep_the_other_nodes_witness :
  add_opentargets_disease_subgraph perfect_hash disease_graph "G"
    [opentargets_record] = Ok disease_graph_again /\
  keeps_node "G" disease_graph disease_graph_again.
Proof.
  assert (add_opentargets_disease_subgraph perfect_hash disease_graph "G"
            [opentargets_record] = Ok disease_graph_again) as H by reflexivity.
  split; [exact H|].
  apply (proj1 (builders_keep_the_other_nodes perfect_hash)
           ("OpenTargets_Diseases", add_opentargets_disease_subgraph perfect_hash)
           "disease_name" disease_graph "G" [opentargets_record]
           disease_graph_again "G"); [| |exact H|].
  - unfold func_dict. do 5 (apply elem_of_cons; right). apply elem_of_cons. by left.
  - unfold label_read. do 5 (apply elem_of_cons; right). apply elem_of_cons. by left.
  - intros r Hr. apply list_elem_of_singleton in Hr as ->. by vm_compute.
Defined.

(* ===================================================================== *)
(** * The contributions to a node *)
(* ===================================================================== *)

Section Containers.

Context (hash : attrs -> Z).

Lemma container_empty n : container empty_graph n = None.
Proof. done. Qed.

Lemma container_upsert l adj adj' label a n :
  container
    (mkGraph (upsert label (fun d => <[SStr "attr_dict" := ODict a]> d) l) adj) n =
    if decide (n = label) then Some a else container (mkGraph l adj') n.
Proof.
  unfold container. simpl. destruct (decide (n = label)) as [->|Hne].
  - rewrite node_data_upsert_eq. simpl. by rewrite lookup_insert_eq.
  - by rewrite node_data_upsert_ne.
Qed.

Lemma container_add_node g label a g' n :
  add_node g label a = Ok g' ->
  container g' n = if decide (n = label) then Some a else container g n.
Proof.
  intros ->%add_node_Ok. rewrite (container_upsert _ _ (g_adj g)). by destruct g.
Qed.

Lemma container_set_container g label a n :
  container (set_container g label a) n =
    if decide (n = label) then Some a else container g n.
Proof.
  unfold set_container. rewrite (container_upsert _ _ (g_adj g)). by destruct g.
Qed.

Lemma container_touch l adj adj' m n :
  container (mkGraph (upsert m (fun d => d) l) adj) n = container (mkGraph l adj') n.
Proof.
  unfold container. simpl. rewrite node_data_touch.
  destruct (node_data l n) as [d|]; [done|]. by destruct (decide (m = n)).
Qed.

Lemma container_add_edge g u v data g' n :
  add_edge g u v data = Ok g' -> container g' n = container g n.
Proof.
  intros ->%add_edge_Ok.
  rewrite (container_touch _ _ (g_adj g)), (container_touch _ _ (g_adj g)).
  by destruct g.
Qed.

Lemma container_add_edge_once g u v label edge_attrs g' n :
  add_edge_once hash g u v label edge_attrs = Ok g' ->
  container g' n = container g n.
Proof.
  rewrite add_edge_once_unfold. intros H.
  apply mbind_Ok in H as (found & _ & H).
  destruct (decide (length found = 0)); [by eapply container_add_edge|].
  by injection H as <-.
Qed.

Lemma add_node_label g n a g' :
  add_node g n a = Ok g' -> SNone ∉ node_labels g -> n <> SNone.
Proof. intros H Hg ->. by rewrite add_node_None in H. Qed.

Lemma add_edge_once_fresh g u v label edge_attrs :
  g_adj g = ∅ -> u <> SNone -> v <> SNone ->
  exists g', add_edge_once hash g u v label edge_attrs = Ok g'.
Proof.
  intros Hadj Hu Hv. rewrite add_edge_once_unfold. unfold get_edge_data.
  rewrite Hadj, lookup_empty. cbn [default filterM mbind result_bind bind].
  rewrite decide_True by done. rewrite add_edge_not_None by done. by eexists.
Qed.

End Containers.

Section Contributions.

Context (hash : attrs -> Z).

(** Runs the call on the empty graph, after the equations that the run on
    the graph at hand has left. *)
Ltac contribute H Hg n :=
  first
    [ injection H as <-; by rewrite ?container_empty
    | match goal with
      | Hn : add_node _ ?x ?a = Ok _ |- _ =>
          let Hlabel := fresh "Hlabel" in
          pose proof (add_node_label _ _ _ _ Hn Hg) as Hlabel;
          rewrite (add_node_not_None empty_graph x a Hlabel);
          cbn [mbind result_bind bind];
          match goal with
          | |- context [add_edge_once hash ?g0 ?u ?v ?l ?ea] =>
              let g00 := fresh "g00" in let Hg00 := fresh "Hg00" in
              destruct (add_edge_once_fresh hash g0 u v l ea) as [g00 Hg00];
                [reflexivity|done|done|];
              rewrite Hg00;
              rewrite (container_add_edge_once hash _ _ _ _ _ _ n Hg00),
                (container_add_edge_once hash _ _ _ _ _ _ n H),
                ?container_set_container,
                (container_add_node _ _ _ _ n Hn),
                (container_upsert _ _ ∅);
              by repeat destruct (decide _)
          end
      end ].

Lemma run_annotation_container dea kb gene r g g' (n : scalar) :
  kb ∈ func_dict hash -> gene <> SNone -> SNone ∉ node_labels g ->
  kb.2 g gene [r] = Ok g' ->
  container g' n =
    match contribution dea (Annotation kb gene r) n with
    | Some a => Some a
    | None => container g n
    end.
Proof.
  intros Hkb Hgene Hg H. unfold contribution, run_call. cbn [snd].
  unfold func_dict in Hkb.
  repeat (apply elem_of_cons in Hkb as [->|Hkb]); try (by apply elem_of_nil in Hkb);
    cbn [fst snd] in *; unfold_builders; rewrite !foldM_singleton in *;
    step_inv H; try (cbv zeta in H); replay; contribute H Hg n.
Qed.

Lemma run_gene_container dea row g g' (n : scalar) :
  SNone ∉ node_labels g -> run_call dea g (GeneNode row) = Ok g' ->
  container g' n =
    match contribution dea (GeneNode row) n with
    | Some a => Some a
    | None => container g n
    end.
Proof.
  intros Hg H. unfold contribution. simpl in *.
  apply mbind_Ok in H as (identifier & Hid & H).
  apply mbind_Ok in H as (a & Ha & H).
  apply mbind_Ok in H as (label & Hlabel & H).
  rewrite Hid, Ha. cbn [mbind result_bind bind]. rewrite Hlabel.
  cbn [mbind result_bind bind].
  rewrite (add_node_not_None empty_graph _ _ (add_node_label _ _ _ _ H Hg)).
  rewrite (container_add_node _ _ _ _ n H), (container_upsert _ _ ∅).
  by destruct (decide _).
Qed.

Lemma run_call_container dea c g g' (n : scalar) :
  SNone ∉ node_labels g -> registry_call hash c ->
  run_call dea g c = Ok g' ->
  container g' n =
    match contribution dea c n with
    | Some a => Some a
    | None => container g n
    end.
Proof.
  intros Hg Hc H. destruct c as [row|kb gene r].
  - by apply run_gene_container.
  - destruct Hc as [Hkb Hgene]. by apply run_annotation_container.
Qed.

Lemma run_call_none_free dea c g g' :
  registry_call hash c -> run_call dea g c = Ok g' -> none_free g g'.
Proof.
  intros Hc H. destruct c as [row|kb gene r]; simpl in H.
  - apply mbind_Ok in H as (identifier & _ & H).
    apply mbind_Ok in H as (a & _ & H).
    apply mbind_Ok in H as (label & _ & H). by eapply add_node_none_free.
  - destruct Hc as [Hkb _].
    eapply (preserved_hashing_builder hash none_free); [..|exact H].
    + by intros g0 Hg0.
    + intros g1 g2 g3 H12 H23 H1. by apply H23, H12.
    + apply add_node_none_free.
    + apply add_edge_once_none_free.
    + unfold hashing_builders. apply elem_of_app. left.
      apply list_elem_of_fmap. by exists kb.
Qed.

Lemma calls_containers dea cs g g' (n : scalar) :
  SNone ∉ node_labels g -> Forall (registry_call hash) cs ->
  foldM (run_call dea) g cs = Ok g' ->
  container g' n =
    foldl (fun acc c =>
             match contribution dea c n with
             | Some a => Some a
             | None => acc
             end) (container g n) cs.
Proof.
  intros Hg Hcs. revert g Hg. induction Hcs as [|c cs Hc _ IH]; intros g Hg H.
  - by injection H as <-.
  - rewrite foldM_cons in H. apply mbind_Ok in H as (g1 & Hg1 & H). simpl.
    rewrite <- (run_call_container dea c g g1 n Hg Hc Hg1). apply IH; [|done].
    by apply (run_call_none_free dea c g g1 Hc Hg1).
Qed.

(** *** The first loop is its run of calls *)

Lemma foldM_by_singletons {A B} (f : A -> B -> result A) (a : A) (xs : list B) :
  foldM f a xs = foldM (fun a x => foldM f a [x]) a xs.
Proof.
  revert a. induction xs as [|x xs IH]; intros a; [done|].
  simpl. destruct (f a x); simpl; [apply IH|done].
Qed.

Lemma foldM_fmap {A B C} (f : A -> C -> result A) (h : B -> C) (a : A)
    (xs : list B) :
  foldM f a (h <$> xs) = foldM (fun a x => f a (h x)) a xs.
Proof.
  revert a. induction xs as [|x xs IH]; intros a; [done|].
  rewrite fmap_cons, !foldM_cons. destruct (f a (h x)); [|done]. apply IH.
Qed.

Lemma foldM_bind {A B C} (f : A -> C -> result A) (h : B -> list C) (a : A)
    (xs : list B) :
  foldM f a (xs ≫= h) = foldM (fun a x => foldM f a (h x)) a xs.
Proof.
  revert a. induction xs as [|x xs IH]; intros a; [done|].
  rewrite bind_cons, foldM_app, foldM_cons.
  destruct (foldM f a (h x)); [|done]. apply IH.
Qed.

Lemma foldM_ext_in {A B} (f f' : A -> B -> result A) (a : A) (xs : list B) :
  (forall a x, x ∈ xs -> f a x = f' a x) -> foldM f a xs = foldM f' a xs.
Proof.
  revert a. induction xs as [|x xs IH]; intros a Hf; [done|].
  rewrite !foldM_cons, <- Hf by by left. destruct (f a x); [|done].
  apply IH. intros a' y Hy. apply Hf. by right.
Qed.

Lemma builder_by_record kb g gene recs :
  kb ∈ func_dict hash ->
  kb.2 g gene recs = foldM (fun g r => kb.2 g gene [r]) g recs.
Proof.
  intros Hkb. unfold func_dict in Hkb.
  repeat (apply elem_of_cons in Hkb as [->|Hkb]); try (by apply elem_of_nil in Hkb);
    cbn [snd]; unfold_builders; apply foldM_by_singletons.
Qed.

Lemma dispatch_calls dea row gene g kb :
  kb ∈ func_dict hash ->
  dispatch row gene g kb =
    foldM (run_call dea) g
      match row !! kb.1 with
      | Some (VList recs) => Annotation kb gene <$> recs
      | _ => []
      end.
Proof.
  intros Hkb. unfold dispatch, row_contains, row_getitem. cbv zeta.
  destruct (row !! kb.1) as [cell|] eqn:Hrow.
  - rewrite bool_decide_eq_true_2 by by eexists.
    cbn [mbind result_bind bind json_roundtrip].
    destruct cell as [s|recs|d]; try by apply (builder_no_records hash).
    rewrite foldM_fmap. by apply builder_by_record.
  - rewrite bool_decide_eq_false_2; [done|]. by intros [? ?].
Qed.

Lemma gene_row_calls dea st row st' :
  gene_row hash dea st row = Ok st' ->
  foldM (run_call dea) st.1 (calls_of_row hash row) = Ok st'.1.
Proof.
  intros (gene & a & g1 & Hid & Ha & Hg1 & Hg2 & _)%gene_row_Ok.
  unfold calls_of_row. rewrite Hid, foldM_cons.
  assert (run_call dea st.1 (GeneNode row) = Ok g1) as ->.
  { cbn [run_call]. unfold row_getitem. rewrite Hid.
    cbn [mbind result_bind bind]. rewrite Ha. by cbn [mbind result_bind bind hashable]. }
  cbn [mbind result_bind bind]. rewrite foldM_bind, <- Hg2.
  apply foldM_ext_in. intros g kb Hkb. symmetry. by apply dispatch_calls.
Qed.

Lemma first_pass_calls fuse_df st st' :
  first_pass hash fuse_df st = Ok st' ->
  foldM (run_call (dea_columns fuse_df)) st.1 (calls hash fuse_df) = Ok st'.1.
Proof.
  unfold first_pass, calls. generalize (rows fuse_df). intros rs. revert st.
  induction rs as [|row rs IH]; intros st H.
  - by injection H as <-.
  - rewrite foldM_cons in H. apply mbind_Ok in H as (st1 & Hst1 & H).
    rewrite bind_cons, foldM_app, (gene_row_calls _ _ _ _ Hst1).
    cbn [mbind result_bind bind]. by apply IH.
Qed.

Lemma first_pass_none_free fuse_df st st' :
  first_pass hash fuse_df st = Ok st' -> none_free st.1 st'.1.
Proof.
  apply (preserved_first_pass hash none_free).
  - by intros g0 Hg0.
  - intros g1 g2 g3 H12 H23 H1. by apply H23, H12.
  - apply add_node_none_free.
  - apply add_edge_once_none_free.
Qed.

Lemma first_pass_registry_calls fuse_df st st' :
  SNone ∉ node_labels st.1 ->
  first_pass hash fuse_df st = Ok st' ->
  Forall (registry_call hash) (calls hash fuse_df).
Proof.
  intros Hst H. apply Forall_forall. intros c Hc. unfold calls in Hc.
  apply list_elem_of_bind in Hc as (row & Hc & Hrow).
  destruct (first_pass_rows hash _ _ _ _ H Hrow) as (gene & a & Hid & _ & Hin).
  unfold calls_of_row in Hc. rewrite Hid in Hc.
  apply elem_of_cons in Hc as [->|Hc]; [done|].
  apply list_elem_of_bind in Hc as (kb & Hc & Hkb).
  destruct (row !! kb.1) as [[s|recs|d]|]; try by apply elem_of_nil in Hc.
  apply list_elem_of_fmap in Hc as (r & -> & _). split; [done|].
  intros ->. by apply (first_pass_none_free _ _ _ H).
Qed.

(** *** The later loops upsert nothing *)

Lemma add_ppi_subgraph_container g gene annot_list g' n :
  add_ppi_subgraph hash g gene annot_list = Ok g' -> container g' n = container g n.
Proof.
  unfold_builders. intros H.
  eapply (foldM_invariant (fun g' => container g' n = container g n));
    [|done|exact H].
  intros g0 r g1 _ Hg0 Hstep. cbv beta in Hstep. step_inv Hstep.
  by rewrite (container_add_edge_once hash _ _ _ _ _ _ n Hstep).
Qed.

Lemma add_drug_disease_subgraph_container g label annot_list g' n :
  add_drug_disease_subgraph hash g label annot_list = Ok g' ->
  container g' n = container g n.
Proof.
  intros H.
  eapply (foldM_invariant (fun g' => container g' n = container g n));
    [|done|exact H].
  intros g0 r g1 _ Hg0 Hstep. cbv beta zeta in Hstep.
  apply mbind_Ok in Hstep as (umls & _ & Hstep). destruct label as [s| |].
  - destruct (has_edge g0 umls s); simpl in Hstep.
    + by injection Hstep as <-.
    + by rewrite (container_add_edge _ _ _ _ _ n Hstep).
  - by destruct (decide (umls = SNone)).
  - by destruct (decide (umls = SNone)).
Qed.

Lemma interaction_pass_container fuse_df st st' n :
  interaction_pass hash fuse_df st = Ok st' ->
  container st'.1 n = container st.1 n.
Proof.
  unfold interaction_pass. intros H. apply mbind_Ok in H as (row & _ & H).
  destruct (row_contains row "stringdb"); [|by injection H as <-].
  eapply (foldM_invariant (fun st' : Graph * locals =>
            container st'.1 n = container st.1 n)); [|done|exact H].
  intros st0 r st1 _ Hst0 Hstep. unfold ppi_row in Hstep. cbv zeta in Hstep.
  apply mbind_Ok in Hstep as (cell & _ & Hstep).
  apply mbind_Ok in Hstep as (gene & _ & Hstep).
  apply mbind_Ok in Hstep as (ppi_list & _ & Hstep).
  apply mbind_Ok in Hstep as (g1 & Hg1 & Hstep). injection Hstep as <-. simpl.
  by rewrite (add_ppi_subgraph_container _ _ _ _ n Hg1).
Qed.

Lemma drug_disease_pass_container fuse_df drug_disease st st' n :
  drug_disease_pass hash fuse_df drug_disease st = Ok st' ->
  container st'.1 n = container st.1 n.
Proof.
  unfold drug_disease_pass. intros H.
  destruct drug_disease as [dd|]; [|by injection H as <-].
  apply mbind_Ok in H as (sel & _ & H). cbv zeta in H.
  apply mbind_Ok in H as (row & _ & H).
  destruct (row_contains row "drug_diseases"); [|by injection H as <-].
  eapply (foldM_invariant (fun st' : Graph * locals =>
            container st'.1 n = container st.1 n)); [|done|exact H].
  intros st0 r st1 _ Hst0 Hstep.
  apply drug_disease_row_Ok in Hstep as (label & cell & recs & _ & _ & _ & Hstep).
  by rewrite (add_drug_disease_subgraph_container _ _ _ _ n Hstep).
Qed.

Lemma generate_last_contribution fuse_df drug_disease g n d :
  generate_networkx_graph hash fuse_df drug_disease = Ok g ->
  node_data (g_node g) n = Some d ->
  exists a,
    last_contribution (dea_columns fuse_df) (calls hash fuse_df) n = Some a /\
    d = promoted a.
Proof.
  intros (draft & Hdraft & Hfin)%generate_networkx_graph_Ok Hd.
  destruct (generate_node (fun _ => True) draft g n d) as (a & _ & Hn & ->);
    [by eapply assemble_written_any|done|done|].
  exists a. split; [|done].
  apply assemble_Ok in Hdraft as (st1 & st2 & st3 & H1 & H2 & H3 & ->).
  assert (container st3.1 n = Some a) as Hc
    by (unfold container; rewrite Hn; cbn [mbind option_bind];
        by rewrite lookup_singleton_eq).
  rewrite (drug_disease_pass_container _ _ _ _ n H3),
    (interaction_pass_container _ _ _ n H2) in Hc.
  rewrite <- Hc. unfold last_contribution. symmetry.
  apply (calls_containers _ _ empty_graph).
  - apply not_elem_of_nil.
  - eapply first_pass_registry_calls; [|exact H1]. apply not_elem_of_nil.
  - by apply first_pass_calls in H1.
Qed.

(** *** A processed record does contribute *)

Lemma display_from_lookup acc r l a k :
  display_from acc r l = Ok a ->
  a !! SStr k =
    foldl (fun cur ke =>
             if String.eqb ke.1 k
             then match eval_entry r ke.2 with Ok v => Some v | Err _ => None end
             else cur) (acc !! SStr k) l.
Proof.
  revert acc. induction l as [|[k' e] l IH]; intros acc H; simpl in *.
  - by injection H as <-.
  - apply mbind_Ok in H as (v & Hv & H). rewrite (IH _ H), Hv. f_equal.
    unfold setitem. destruct (String.eqb_spec k' k) as [->|Hne].
    + by rewrite lookup_insert_eq.
    + rewrite lookup_insert_ne; [done|congruence].
Qed.

Lemma registry_builder_upserts kb field g gene r entity g1 :
  kb ∈ func_dict hash -> (kb.1, field) ∈ label_read ->
  r !! field = Some entity -> processed kb.1 r ->
  kb.2 g gene [r] = Ok g1 ->
  exists a, container g1 entity = Some a /\
            a !! SStr "name" = Some (VScalar entity).
Proof.
  intros Hkb Hfield Hentity%getitem_Some Hproc H.
  unfold func_dict in Hkb. unfold label_read in Hfield.
  repeat (apply elem_of_cons in Hkb as [->|Hkb]); try (by apply elem_of_nil in Hkb);
    cbn [fst snd] in *;
    repeat (apply elem_of_cons in Hfield as [Hfield|Hfield]);
    try (by apply elem_of_nil in Hfield); try discriminate Hfield;
    injection Hfield as ->;
    guard_facts Hproc;
    unfold_builders; rewrite foldM_singleton in H;
    repeat match goal with
    | Hx : getitem r _ = Ok _ |- _ => rewrite Hx in H
    end;
    cbn [mbind result_bind bind fmap result_fmap negb] in H;
    repeat match goal with
    | Hna : isna _ = false |- _ => rewrite Hna in H
    end;
    cbn [mbind result_bind bind fmap result_fmap negb] in H;
    step_inv H; try (cbv zeta in H);
    match goal with
    | Hn : add_node _ _ _ = Ok _ |- _ =>
        eexists; split;
          [ rewrite (container_add_edge_once hash _ _ _ _ _ _ entity H),
              ?container_set_container, ?(container_add_node _ _ _ _ entity Hn);
            by rewrite decide_True |]
    end;
    repeat match goal with
    | Hs : set_if_notna _ _ _ _ _ = Ok ?a |- context [?a !! SStr ?key] =>
        rewrite (set_if_notna_lookup _ _ _ _ _ _ key Hs); simpl String.eqb;
        cbv iota
    end;
    match goal with
    | Hd : display _ _ = Ok ?a |- ?a !! _ = _ =>
        unfold display in Hd; rewrite (display_from_lookup _ _ _ _ "name" Hd);
        cbn [foldl fst snd]; simpl String.eqb; cbv iota;
        cbn [eval_entry]; by rewrite Hentity
    end.
Qed.

Lemma gene_call_upserts dea g row gene a g' :
  row !! "identifier" = Some (VScalar gene) ->
  gene_node_attrs dea row = Ok a ->
  run_call dea g (GeneNode row) = Ok g' ->
  container g' gene = Some a.
Proof.
  intros Hid Ha H. cbn [run_call] in H. unfold row_getitem in H.
  rewrite Hid in H. cbn [mbind result_bind bind] in H. rewrite Ha in H.
  cbn [mbind result_bind bind hashable] in H.
  rewrite (container_add_node _ _ _ _ gene H). by rewrite decide_True.
Qed.

End Contributions.

(** C1, as the code has it. A node holds what the last call that upserted
    it has given it, and nothing of an earlier one. For every call of the
    first loop (the upsert of a row's gene, a registry builder met with a
    record) and whatever the graph holds: afterwards the container of a
    node is the contribution of the call, the container the call gives the
    node on a graph of its own, if it has one for the node, and is as it
    was otherwise. A record that is processed does contribute: its entity
    has a container with the record's name, as the gene of a row has the
    attribute dictionary of its row. The first loop is the run of these
    calls in the order of the table, and the later loops upsert nothing; so
    every node of the graph [generate_networkx_graph] returns has the
    attributes of the last contribution to its label alone: the entries of
    that attribute dictionary whose value is not [None] (an entry named
    ["attr_dict"] apart). An attribute of an earlier contribution is there
    only if the last one repeats it, and a [None] is never written. *)
Theorem node_attributes_are_the_last_upsert :
  (forall hash dea c g g' n,
     SNone ∉ node_labels g -> registry_call hash c ->
     run_call dea g c = Ok g' ->
     container g' n =
       match contribution dea c n with
       | Some a => Some a
       | None => container g n
       end) /\
  (forall hash kb field g gene r entity g',
     kb ∈ func_dict hash -> (kb.1, field) ∈ label_read ->
     r !! field = Some entity -> processed kb.1 r ->
     kb.2 g gene [r] = Ok g' ->
     exists a, container g' entity = Some a /\
               a !! SStr "name" = Some (VScalar entity)) /\
  (forall dea g row gene a g',
     row !! "identifier" = Some (VScalar gene) ->
     gene_node_attrs dea row = Ok a ->
     run_call dea g (GeneNode row) = Ok g' ->
     container g' gene = Some a) /\
  (forall hash fuse_df st st',
     first_pass hash fuse_df st = Ok st' ->
     foldM (run_call (dea_columns fuse_df)) st.1 (calls hash fuse_df) = Ok st'.1) /\
  (forall hash fuse_df drug_disease g n d,
     generate_networkx_graph hash fuse_df drug_disease = Ok g ->
     node_data (g_node g) n = Some d ->
     exists a,
       last_contribution (dea_columns fuse_df) (calls hash fuse_df) n = Some a /\
       d = promoted a) /\
  (forall (a : attrs) (k : scalar) (x : value),
     promoted a !! k = Some (OVal x) <->
     a !! k = Some x /\ is_None x = false /\ k <> SStr "attr_dict").
Proof.
  split; [|split; [|split; [|split; [|split]]]].
  - intros hash dea c g g' n. apply run_call_container.
  - intros hash kb field g gene r entity g'. apply registry_builder_upserts.
  - apply gene_call_upserts.
  - apply first_pass_calls.
  - apply generate_last_contribution.
  - apply promoted_lookup_Some.
Qed.

(** On the table with the two reports of the disease [D]: the node has the
    attributes of the second report, the last contribution to it. *)
Lemma node_attributes_are_the_last_upsert_witness :
  generate_networkx_graph perfect_hash two_sources None = Ok two_sources_graph /\
  node_data (g_node two_sources_graph) "D" = Some disease_node /\
  last_contribution (dea_columns two_sources) (calls perfect_hash two_sources) "D"
    = Some last_report /\
  last_report !! SStr "source" = Some (VScalar "OpenTargets") /\
  last_report !! SStr "disease_class" = None /\
  exists a,
    last_contribution (dea_columns two_sources) (calls perfect_hash two_sources) "D"
      = Some a /\
    disease_node = promoted a.
Proof.
  assert (generate_networkx_graph perfect_hash two_sources None
            = Ok two_sources_graph) as H by reflexivity.
  assert (node_data (g_node two_sources_graph) "D" = Some disease_node) as Hd
    by reflexivity.
  split; [exact H|]. split; [exact Hd|]. split; [reflexivity|].
  split; [by vm_compute|]. split; [by vm_compute|].
  exact (proj1 (proj2 (proj2 (proj2 (proj2
           node_attributes_are_the_last_upsert))))
           perfect_hash two_sources None two_sources_graph "D" disease_node H Hd).
Defined.

(* ===================================================================== *)
(** * The test that opens the third loop *)
(* ===================================================================== *)

Section ThirdLoop.

Context (hash : attrs -> Z).

Lemma foldM_last_row (f : Graph * locals -> Row -> result (Graph * locals))
    (rs : list Row) st st' :
  (forall st r st', f st r = Ok st' -> l_row st'.2 = Some r) ->
  foldM f st rs = Ok st' ->
  l_row st'.2 = match last rs with Some r => Some r | None => l_row st.2 end.
Proof.
  intros Hf. revert st. induction rs as [|r rs IH]; intros st H.
  - by injection H as <-.
  - rewrite foldM_cons in H. apply mbind_Ok in H as (st1 & Hst1 & H).
    rewrite (IH _ H). destruct rs as [|r' rs].
    + simpl. by apply Hf in Hst1.
    + change (last (r :: r' :: rs)) with (last (r' :: rs)).
      destruct (last (r' :: rs)) eqn:Hl; [done|]. by apply last_None in Hl.
Qed.

Lemma gene_row_binds_row dea st r st' :
  gene_row hash dea st r = Ok st' -> l_row st'.2 = Some r.
Proof. by intros (? & ? & ? & _ & _ & _ & _ & ->)%gene_row_Ok. Qed.

Lemma ppi_row_binds_row st r st' :
  ppi_row hash st r = Ok st' -> l_row st'.2 = Some r.
Proof.
  unfold ppi_row. cbv zeta. intros H.
  apply mbind_Ok in H as (cell & _ & H).
  apply mbind_Ok in H as (gene & _ & H).
  apply mbind_Ok in H as (ppi_list & _ & H).
  apply mbind_Ok in H as (g1 & _ & H). by injection H as <-.
Qed.

(** After the two first loops [row] is the last row of the gene table. *)
Lemma row_after_two_loops fuse_df st1 st2 :
  first_pass hash fuse_df (empty_graph, mkLocals None None) = Ok st1 ->
  interaction_pass hash fuse_df st1 = Ok st2 ->
  exists row, last (rows fuse_df) = Some row /\ l_row st2.2 = Some row.
Proof.
  intros H1 H2. unfold first_pass in H1.
  pose proof (foldM_last_row _ _ _ _ (gene_row_binds_row _) H1) as Hrow1.
  unfold interaction_pass in H2. apply mbind_Ok in H2 as (row0 & Hrow0 & H2).
  destruct (last (rows fuse_df)) as [row|] eqn:Hlast.
  - exists row. split; [done|].
    destruct (row_contains row0 "stringdb").
    + pose proof (foldM_last_row _ _ _ _ ppi_row_binds_row H2) as Hrow2.
      by rewrite Hlast in Hrow2.
    + by injection H2 as <-.
  - simpl in Hrow1. by rewrite Hrow1 in Hrow0.
Qed.

Lemma select_both (dd : DataFrame) :
  "identifier" ∈ columns dd -> "drug_diseases" ∈ columns dd ->
  exists sel, select dd ["identifier"; "drug_diseases"] = Ok sel.
Proof.
  intros Hid Hdd. unfold select. simpl.
  rewrite !bool_decide_eq_true_2 by done. simpl. by eexists.
Qed.

(** The third loop is opened by a test on [row] as the two first loops
    left it, the last row of the gene table as it was before the
    drug-disease table was joined to it. When that row has no column
    ["drug_diseases"], a drug-disease table with its two columns changes
    nothing: the call gives what it gives without the table. *)
Theorem drug_disease_table_needs_the_column_in_the_gene_table fuse_df dd :
  "identifier" ∈ columns dd -> "drug_diseases" ∈ columns dd ->
  (forall row, last (rows fuse_df) = Some row -> row !! "drug_diseases" = None) ->
  generate_networkx_graph hash fuse_df (Some dd)
    = generate_networkx_graph hash fuse_df None.
Proof.
  intros Hid Hdd Hlast. unfold generate_networkx_graph. f_equal.
  unfold assemble. cbv zeta.
  destruct (first_pass hash fuse_df (empty_graph, mkLocals None None))
    as [st1|e] eqn:H1; [|done]. cbn [mbind result_bind bind].
  destruct (interaction_pass hash fuse_df st1) as [st2|e] eqn:H2; [|done].
  cbn [mbind result_bind bind]. f_equal.
  destruct (row_after_two_loops _ _ _ H1 H2) as (row & Hrow & Hst2).
  destruct (select_both dd Hid Hdd) as [sel Hsel].
  unfold drug_disease_pass. rewrite Hsel. cbn [mbind result_bind bind]. cbv zeta.
  rewrite Hst2. cbn [read_local mbind result_bind bind].
  unfold row_contains. rewrite (Hlast row Hrow).
  by rewrite bool_decide_eq_false_2 by by intros [? ?].
Qed.

End ThirdLoop.

Lemma drug_disease_table_needs_the_column_in_the_gene_table_witness :
  "identifier" ∈ columns treatments /\
  "drug_diseases" ∈ columns treatments /\
  generate_networkx_graph perfect_hash one_gene (Some treatments)
    = generate_networkx_graph perfect_hash one_gene None.
Proof.
  assert ("identifier" ∈ columns treatments) as H1 by (by left).
  assert ("drug_diseases" ∈ columns treatments) as H2 by (by right; left).
  split; [exact H1|]. split; [exact H2|].
  apply (drug_disease_table_needs_the_column_in_the_gene_table
           perfect_hash one_gene treatments H1 H2).
  intros row [= <-]. reflexivity.
Defined.
